(** * Subtitle image extraction: timestamp codec, interval detector, driver

    A shallow embedding of [extractor.py] (the segmentation engine) and of
    the file-name parser of [ocr_processor.py], with the properties of the
    design document proved or refuted on it; then of the text stages
    ([ocr_processor.py]: cleaning, retries, the table of blocks and the
    subtitle file; [translator.py]: [parse_srt], retries, the translated
    file) and of the paths of [launcher.py], with further properties.

    Conventions of the embedding.
    - Python [int] is [Z].  A finite Python [float] (the frame rate, the
      change threshold) is the rational [Q] it denotes.  The arithmetic
      of the timestamp codec is that of binary64 (module [F64]): the
      conversion of the frame number, the quotient and the product by
      1000 are each rounded to nearest, ties to even, and a result
      beyond the largest double is an infinity.  The product
      [fps * 0.2] of the duration check is taken exact.
    - Python [str] is [string]; the helpers of module [Py] ([split],
      [join], [replace], [splitext], ...) follow the built-ins they are
      named after.
    - A raised exception is a [Raise] result, and ends the driver with
      the outcome [Raised].  The detector keeps in its state the
      exception that ended the frame loop, with what was written before.
    - The services (Google Drive, Gemini) are given by how each pass
      through a [try] block ends; the waits of [time.sleep] are logged. *)

From Stdlib Require Import ZArith QArith Qround Qpower String Ascii List Sorted Bool.
From Stdlib Require Import Lia Lqa.
From stdpp Require Import gmap strings sorting.
Import ListNotations.

Local Open Scope string_scope.
Local Open Scope Z_scope.

(** ** Exceptions and results *)

Inductive Exn : Type :=
  | ZeroDivisionError
  | OverflowError
  | IndexError
  | TypeError
  | VideoOpenFailure.

Inductive Result (A : Type) : Type :=
  | Ok (a : A)
  | Raise (e : Exn).

Arguments Ok {A} a.
Arguments Raise {A} e.

(** ** Binary64 arithmetic *)

Module F64.

Local Open Scope Q_scope.

(** A binary64 value that is not a NaN: a finite one, given by the
    rational it denotes, or an infinity.  The two zeros are not told
    apart (the code cannot tell them apart either). *)
Inductive float : Type :=
  | Finite (x : Q)
  | Infinity (negative : bool).

Definition pow2 (e : Z) : Q := 2 ^ e.

(** [floor(log2 x)] for [0 < x]. *)
Definition ilog2 (x : Q) : Z :=
  let k := (Z.log2 (Qnum x) - Z.log2 (Z.pos (Qden x)))%Z in
  if Qle_bool (pow2 k) x then k else (k - 1)%Z.

(** Rounding to the nearest integer, a tie to the even one. *)
Definition rne (x : Q) : Z :=
  let f := Qfloor x in
  match Qcompare (x - inject_Z f) (1 # 2) with
  | Lt => f
  | Gt => (f + 1)%Z
  | Eq => if Z.even f then f else (f + 1)%Z
  end.

(** The exponent of the last place of the binary64 values around [x],
    for [0 < x]: 53 bits of precision, down to [2^-1074]. *)
Definition ulp_exponent (x : Q) : Z := Z.max (ilog2 x - 52) (-1074).

(** The nearest multiple of the unit in the last place, for [0 < x]. *)
Definition rounded (x : Q) : Q :=
  inject_Z (rne (x / pow2 (ulp_exponent x))) * pow2 (ulp_exponent x).

(** Rounding a positive real to binary64, to nearest, ties to even: an
    infinity from [2^1024] on. *)
Definition round_pos (x : Q) : float :=
  let r := Qred (rounded x) in
  if Qle_bool (pow2 1024) r then Infinity false else Finite r.

Definition opp (a : float) : float :=
  match a with
  | Finite x => Finite (Qred (- x))
  | Infinity negative => Infinity (negb negative)
  end.

(** Rounding a real to binary64. *)
Definition round (x : Q) : float :=
  match Qcompare x 0 with
  | Eq => Finite 0
  | Gt => round_pos x
  | Lt => opp (round_pos (- x))
  end.

(** The order of the values. *)
Definition le (a b : float) : Prop :=
  match a, b with
  | Infinity true, _ => True
  | _, Infinity false => True
  | Finite x, Finite y => x <= y
  | _, _ => False
  end.

End F64.

(** ** Python built-ins used by the code *)

Module Py.

(** [a / b] for an integer and a float: the integer is converted to a
    float ([OverflowError] when it is too large), and the quotient is
    rounded; a quotient too large is an infinity, not an exception. *)
Definition truediv (a : Z) (b : Q) : Result F64.float :=
  if Qeq_bool b 0 then Raise ZeroDivisionError
  else
    match F64.round (inject_Z a) with
    | F64.Infinity _ => Raise OverflowError
    | F64.Finite x => Ok (F64.round (x / b)%Q)
    end.

(** [divmod a b] for integers: floor division and its remainder. *)
Definition divmod (a b : Z) : Z * Z := (a / b, a mod b).

(** [int(x)] for a float: truncation toward zero. *)
Definition int (x : Q) : Z := Z.quot (Qnum x) (Zpos (Qden x)).

(** [int(x)] for a float: [OverflowError] for an infinity. *)
Definition int_float (x : F64.float) : Result Z :=
  match x with
  | F64.Finite x => Ok (int x)
  | F64.Infinity _ => Raise OverflowError
  end.

(** [np.modf(x)]: fractional and integral part, both with the sign of [x]
    and both exact; an infinity has the fractional part 0. *)
Definition modf (x : F64.float) : Q * F64.float :=
  match x with
  | F64.Finite x => let whole := int x in ((x - inject_Z whole)%Q, F64.Finite (inject_Z whole))
  | F64.Infinity negative => (0%Q, F64.Infinity negative)
  end.

(** The character of a decimal digit [0..9]. *)
Definition digit_char (d : Z) : ascii := ascii_of_nat (48 + Z.to_nat d).

(** Decimal digits of a non-negative integer, most significant first. *)
Fixpoint decimal_digits (fuel : nat) (n : Z) (acc : string) : string :=
  match fuel with
  | O => acc
  | S k =>
      let acc' := String (digit_char (n mod 10)) acc in
      if n <? 10 then acc' else decimal_digits k (n / 10) acc'
  end.

(** [str(n)] for [0 <= n]; [Z.log2 n + 1] digits are always enough. *)
Definition str_nonneg (n : Z) : string :=
  decimal_digits (S (Z.to_nat (Z.log2 n))) n "".

Fixpoint zeros (k : nat) : string :=
  match k with
  | O => ""
  | S k' => String "0" (zeros k')
  end.

(** [format(z, '0<width>d')]: the sign first, then zeros up to [width]
    characters in all, then the digits.  [width] is a minimum: a longer
    number is printed in full. *)
Definition format_0d (width : nat) (z : Z) : string :=
  let digits := str_nonneg (Z.abs z) in
  if z <? 0
  then String "-" (zeros (width - 1 - String.length digits) ++ digits)
  else zeros (width - String.length digits) ++ digits.

(** [int(datetime.timedelta(seconds=whole).total_seconds())] for an
    integral float [whole].  The constructor raises [OverflowError] for an
    infinity and when the normalised day count leaves
    [-999999999 .. 999999999]; within that range the total is exact. *)
Definition timedelta (whole : F64.float) : Result Z :=
  match whole with
  | F64.Infinity _ => Raise OverflowError
  | F64.Finite w =>
      let total_seconds := int w in
      let days := total_seconds / 86400 in
      if (-999999999 <=? days) && (days <=? 999999999) then Ok total_seconds
      else Raise OverflowError
  end.

(** [s.endswith(suffix)]. *)
Fixpoint endswith (s suffix : string) : bool :=
  (s =? suffix)%string
  || match s with
     | "" => false
     | String _ s' => endswith s' suffix
     end.

(** [s.split(sep)] for a non-empty [sep] (the callers pass literals):
    scan from the left, cut at each occurrence of [sep] and resume after
    it.  [skip] counts the characters of a matched separator still to be
    passed over; [cur] is the piece being collected. *)
Fixpoint split_from (sep : string) (skip : nat) (cur s : string) : list string :=
  match s with
  | "" => [cur]
  | String c s' =>
      match skip with
      | S k => split_from sep k cur s'
      | O =>
          if String.prefix sep s
          then cur :: split_from sep (String.length sep - 1) "" s'
          else split_from sep 0 (cur ++ String c "") s'
      end
  end.

Definition split (sep s : string) : list string := split_from sep 0 "" s.

(** [sep.join(parts)]. *)
Definition join (sep : string) (parts : list string) : string :=
  String.concat sep parts.

(** [s.replace(old, new)] for a non-empty [old]: the pieces between the
    occurrences of [old], glued with [new]. *)
Definition replace (old new s : string) : string := join new (split old s).

(** [s.rfind(c)] for a one-character [c]: index of its last occurrence,
    [-1] when there is none. *)
Fixpoint rfind_last (c : ascii) (s : string) : option nat :=
  match s with
  | "" => None
  | String x s' =>
      match rfind_last c s' with
      | Some i => Some (S i)
      | None => if Ascii.eqb x c then Some O else None
      end
  end.

Definition rfind (c : ascii) (s : string) : Z :=
  match rfind_last c s with
  | Some i => Z.of_nat i
  | None => -1
  end.

Fixpoint all_dots (s : string) : bool :=
  match s with
  | "" => true
  | String c s' => Ascii.eqb c "." && all_dots s'
  end.

(** [os.path.splitext(p)] (posixpath): the extension starts at the last
    dot of the last path component, unless only dots precede it there. *)
Definition splitext (p : string) : string * string :=
  let sepIndex := rfind "/" p in
  let dotIndex := rfind "." p in
  if (dotIndex >? sepIndex)
     && negb (all_dots (substring (Z.to_nat (sepIndex + 1))
                                  (Z.to_nat (dotIndex - (sepIndex + 1))) p))
  then (substring 0 (Z.to_nat dotIndex) p,
        substring (Z.to_nat dotIndex) (String.length p - Z.to_nat dotIndex) p)
  else (p, "").

(** [range(start, stop)]. *)
Definition range (start stop : Z) : list Z :=
  map (fun i => start + Z.of_nat i) (seq 0 (Z.to_nat (stop - start))).

(** Index normalisation of a slice bound for a sequence of length [len]. *)
Definition slice_bound (len i : Z) : Z :=
  if i <? 0 then Z.max 0 (len + i) else Z.min i len.

(** [l[lo:hi]]. *)
Definition slice {A} (lo hi : Z) (l : list A) : list A :=
  let len := Z.of_nat (List.length l) in
  let a := slice_bound len lo in
  let b := slice_bound len hi in
  firstn (Z.to_nat (b - a)) (skipn (Z.to_nat a) l).

End Py.

(** ** Timestamp codec: [frames_to_time_str] (extractor.py, l.103-113) *)

Definition frames_to_time_str (frame_count : Z) (fps : Q) : Result string :=
  let fps := if Qeq_bool fps 0 then inject_Z 25 else fps in
  match Py.truediv frame_count fps with
  | Raise e => Raise e
  | Ok seconds =>
      let '(frac, whole) := Py.modf seconds in
      match Py.timedelta whole with
      | Raise e => Raise e
      | Ok total_seconds =>
          match Py.int_float (F64.round (frac * inject_Z 1000)%Q) with
          | Raise e => Raise e
          | Ok ms =>
              let '(hours, remainder) := Py.divmod total_seconds 3600 in
              let '(minutes, seconds) := Py.divmod remainder 60 in
              let time_str :=
                Py.format_0d 2 hours ++ "_" ++ Py.format_0d 2 minutes ++ "_"
                  ++ Py.format_0d 2 seconds in
              Ok (time_str ++ "_" ++ Py.format_0d 3 ms)
          end
      end
  end.

(** ** File-name parser of the OCR stage (ocr_processor.py, l.137-146)

    From an image name to the two time stamps of the subtitle block. *)

Definition srt_times (img_name : string) : Result (string * string) :=
  let time_parts := Py.split "__" (fst (Py.splitext img_name)) in
  match nth_error time_parts 0 with
  | None => Raise IndexError
  | Some start_part =>
      let start_hms := Py.join "_" (removelast (Py.split "_" start_part)) in
      let start_ms := List.last (Py.split "_" start_part) "" in
      let start_time_srt := Py.replace "_" ":" start_hms ++ "," ++ start_ms in
      match nth_error time_parts 1 with
      | None => Raise IndexError
      | Some end_part =>
          let end_hms := Py.join "_" (removelast (Py.split "_" end_part)) in
          let end_ms := List.last (Py.split "_" end_part) "" in
          let end_time_srt := Py.replace "_" ":" end_hms ++ "," ++ end_ms in
          Ok (start_time_srt, end_time_srt)
      end
  end.

(** ** Frames, sub-regions and the difference score *)

(** A decoded frame: rows of columns of 8-bit channel samples. *)
Definition Frame : Type := list (list (list Z)).

(** The crop rectangle [(y1, y2, x1, x2)]. *)
Definition Rect : Type := (Z * Z * Z * Z)%type.

(** [frame[y1:y2, x1:x2]]. *)
Definition crop (crop_rect : Rect) (frame : Frame) : Frame :=
  let '(y1, y2, x1, x2) := crop_rect in
  map (Py.slice x1 x2) (Py.slice y1 y2 frame).

(** The samples of an array, in order. *)
Definition samples (a : Frame) : list Z := concat (concat a).

(** [cv2.absdiff] on two arrays of one shape (the frames of one video).
    For arrays without a sample (a rectangle outside the frame) it
    returns no array: the result is [None]. *)
Definition absdiff (a b : Frame) : option Frame :=
  let diff := zip_with (zip_with (zip_with (fun x y => Z.abs (x - y)))) a b in
  match samples diff with
  | [] => None
  | _ :: _ => Some diff
  end.

(** [np.sum]: of an 8-bit array, accumulated in an unsigned 64-bit
    integer; of [None], [None]. *)
Definition np_sum (a : option Frame) : option Z :=
  match a with
  | None => None
  | Some a =>
      Some (fold_right Z.add 0
              (map (fun row => fold_right Z.add 0 (map (fold_right Z.add 0) row)) a)
            mod 2 ^ 64)
  end.

(** [diff_score > change_threshold]: a [TypeError] when there is no
    score to compare. *)
Definition exceeds (diff_score : option Z) (change_threshold : Q) : Result bool :=
  match diff_score with
  | None => Raise TypeError
  | Some score => Ok (negb (Qle_bool (inject_Z score) change_threshold))
  end.

(** ** Video capture *)

Record Video : Type := { video_fps : Q; video_frames : list Frame }.

(** [cv2.VideoCapture]: the frames and the decode cursor. *)
Record Capture : Type := { cap_frames : list Frame; cap_pos : nat }.

(** [cap.set(cv2.CAP_PROP_POS_FRAMES, n)]; frame numbers of a scene list
    are never negative. *)
Definition cap_set (cap : Capture) (n : Z) : Capture :=
  {| cap_frames := cap_frames cap; cap_pos := Z.to_nat n |}.

(** [cap.read()]: the frame under the cursor, or a failure past the end. *)
Definition cap_read (cap : Capture) : option Frame * Capture :=
  match nth_error (cap_frames cap) (cap_pos cap) with
  | Some frame => (Some frame, {| cap_frames := cap_frames cap; cap_pos := S (cap_pos cap) |})
  | None => (None, cap)
  end.

(** ** Subtitle interval detector (extractor.py, l.156-198) *)

(** One [cv2.imwrite] of the scene loop: the frame numbers its name is
    made from, and the image written. *)
Record SubtitleInterval : Type :=
  { start_frame : Z; end_frame : Z; representative_image : Frame }.

(** The assignments to [subtitle_present], with the frame and the score
    they happened at.  A record of the control flow; no code reads it. *)
Inductive Transition : Type :=
  | Opened (frame_number : Z) (diff_score : option Z)
  | Closed (frame_number : Z) (diff_score : option Z).

(** The loop variables, the intervals written so far (oldest first), the
    transitions taken so far (oldest first), and the exception that ended
    the loop, if one was raised. *)
Record Detector : Type :=
  { last_img : option Frame;
    subtitle_present : bool;
    subtitle_start_frame : Z;
    written : list SubtitleInterval;
    trace : list Transition;
    raised : option Exn }.

(** State at the top of a scene (l.156-158). *)
Definition fresh : Detector :=
  {| last_img := None; subtitle_present := false; subtitle_start_frame := 0;
     written := []; trace := []; raised := None |}.

(** [int(fps * 0.2)]. *)
Definition min_duration (fps : Q) : Z := Py.int (fps * (2 # 10))%Q.

(** The duration check and the write (l.179-185 and l.192-198). *)
Definition save_if_long (fps : Q) (sub_end_frame : Z) (img : Frame) (d : Detector)
  : list SubtitleInterval :=
  if sub_end_frame >? subtitle_start_frame d + min_duration fps
  then (written d ++ [{| start_frame := subtitle_start_frame d;
                         end_frame := sub_end_frame;
                         representative_image := img |}])%list
  else written d.

(** Body of the frame loop after a successful read (l.166-188).  When the
    comparison of l.172 raises, nothing is assigned: the state is kept,
    with the exception. *)
Definition step (change_threshold fps : Q) (frame_number : Z) (sub_region : Frame)
    (d : Detector) : Detector :=
  match last_img d with
  | Some last =>
      let diff_score := np_sum (absdiff sub_region last) in
      match exceeds diff_score change_threshold with
      | Ok true =>
          if negb (subtitle_present d) then
            {| last_img := Some sub_region;
               subtitle_present := true;
               subtitle_start_frame := frame_number;
               written := written d;
               trace := (trace d ++ [Opened frame_number diff_score])%list;
               raised := raised d |}
          else
            {| last_img := Some sub_region;
               subtitle_present := subtitle_present d;
               subtitle_start_frame := subtitle_start_frame d;
               written := written d;
               trace := trace d;
               raised := raised d |}
      | Ok false =>
          if subtitle_present d then
            let sub_end_frame := frame_number - 1 in
            {| last_img := Some sub_region;
               subtitle_present := false;
               subtitle_start_frame := subtitle_start_frame d;
               written := save_if_long fps sub_end_frame last d;
               trace := (trace d ++ [Closed frame_number diff_score])%list;
               raised := raised d |}
          else
            {| last_img := Some sub_region;
               subtitle_present := subtitle_present d;
               subtitle_start_frame := subtitle_start_frame d;
               written := written d;
               trace := trace d;
               raised := raised d |}
      | Raise e =>
          {| last_img := last_img d;
             subtitle_present := subtitle_present d;
             subtitle_start_frame := subtitle_start_frame d;
             written := written d;
             trace := trace d;
             raised := Some e |}
      end
  | None =>
      {| last_img := Some sub_region;
         subtitle_present := subtitle_present d;
         subtitle_start_frame := subtitle_start_frame d;
         written := written d;
         trace := trace d;
         raised := raised d |}
  end.

(** The frame loop (l.161-188): one read per frame number, [break] on a
    failed read; an exception raised in the body ends it as well. *)
Fixpoint frame_loop (crop_rect : Rect) (change_threshold fps : Q)
    (frame_range : list Z) (cap : Capture) (d : Detector) : Capture * Detector :=
  match frame_range with
  | [] => (cap, d)
  | frame_number :: rest =>
      match cap_read cap with
      | (None, cap') => (cap', d)
      | (Some frame, cap') =>
          let d' := step change_threshold fps frame_number (crop crop_rect frame) d in
          match raised d' with
          | Some _ => (cap', d')
          | None => frame_loop crop_rect change_threshold fps rest cap' d'
          end
      end
  end.

(** End of the scene (l.190-198). *)
Definition flush (fps : Q) (scene_end : Z) (d : Detector) : list SubtitleInterval :=
  match subtitle_present d, last_img d with
  | true, Some last => save_if_long fps (scene_end - 1) last d
  | _, _ => written d
  end.

(** One iteration of the scene loop (l.153-198): the capture afterwards,
    the detector as the frame loop left it, and the intervals written for
    this scene.  After an exception the end of the scene is not reached. *)
Definition scene_run (crop_rect : Rect) (change_threshold fps : Q)
    (cap : Capture) (scene : Z * Z) : Capture * Detector * list SubtitleInterval :=
  let '(scene_start, scene_end) := scene in
  let cap := cap_set cap scene_start in
  let '(cap', d) :=
    frame_loop crop_rect change_threshold fps (Py.range scene_start scene_end) cap fresh in
  (cap', d,
   match raised d with
   | None => flush fps scene_end d
   | Some _ => written d
   end).

Definition process_scene (crop_rect : Rect) (change_threshold fps : Q)
    (cap : Capture) (scene : Z * Z) : list SubtitleInterval :=
  snd (scene_run crop_rect change_threshold fps cap scene).

(** ** Extraction driver: [main] (extractor.py, l.115-201) *)

(** The output directory: image files by name. *)
Abbreviation Folder := (gmap string Frame).

(** What the driver sees of the machine: the output directory of the
    video ([None]: it does not exist) and the video file ([None]: it
    cannot be opened). *)
Record World : Type := { temp_folder : option Folder; video_file : option Video }.

(** The lines printed on standard output. *)
Inductive Msg : Type :=
  | MsgStarting
  | MsgCreatedFolder
  | MsgClearingOldImages
  | MsgCouldNotOpenVideo
  | MsgVideoHasNoFrames
  | MsgNoRegionSelected
  | MsgDetectingScenes
  | MsgFoundScenes (n : nat)
  | MsgNothingToExtract
  | MsgAnalyzingScenes
  | MsgFinished (total_images_saved : Z).

(** How a run ends: the two early [return]s, the normal end, and an
    exception leaving [main]. *)
Inductive Outcome : Type :=
  | NoRegion
  | NoScenes
  | Finished (total_images_saved : Z)
  | Raised (e : Exn).

Definition is_png (entry : string * Frame) : Prop :=
  Py.endswith (fst entry) ".png" = true.

(** The removal loop of l.126-128. *)
Definition clear_old_images (folder : Folder) : Folder :=
  filter (fun entry => ~ is_png entry) folder.

(** The name of the artifact of an interval (l.180-182). *)
Definition img_name (fps : Q) (iv : SubtitleInterval) : Result string :=
  match frames_to_time_str (start_frame iv) fps with
  | Raise e => Raise e
  | Ok start_time_str =>
      match frames_to_time_str (end_frame iv) fps with
      | Raise e => Raise e
      | Ok end_time_str => Ok (start_time_str ++ "__" ++ end_time_str ++ ".png")
      end
  end.

(** The writes of one scene, in order, onto the directory and the counter
    (l.180-185), up to the first time stamp that raises, if any. *)
Fixpoint write_all (fps : Q) (ivs : list SubtitleInterval) (out : Folder * Z)
  : Folder * Z * option Exn :=
  match ivs with
  | [] => (out, None)
  | iv :: rest =>
      match img_name fps iv with
      | Raise e => (out, Some e)
      | Ok name =>
          write_all fps rest (<[name := representative_image iv]> (fst out), snd out + 1)
      end
  end.

(** The scene loop (l.153-198).  The writes of a scene come before the
    exception that ends its frame loop, if there is one. *)
Fixpoint scene_loop (crop_rect : Rect) (change_threshold fps : Q)
    (scene_list : list (Z * Z)) (cap : Capture) (out : Folder * Z)
  : Folder * Z * option Exn :=
  match scene_list with
  | [] => (out, None)
  | scene :: rest =>
      let '(cap', d, ivs) := scene_run crop_rect change_threshold fps cap scene in
      match write_all fps ivs out with
      | (out', None) =>
          match raised d with
          | None => scene_loop crop_rect change_threshold fps rest cap' out'
          | Some e => (out', Some e)
          end
      | (out', Some e) => (out', Some e)
      end
  end.

Section Driver.

(** The two collaborators of the driver: the interactive region picker
    (what the user draws on a readable video, [None] when the dialogue is
    cancelled) and the scene boundary source (PySceneDetect). *)
Variable pick_region : Video -> option Rect.
Variable detect_scenes : Video -> Q -> list (Z * Z).

(** [select_subtitle_area] (l.21-101), up to the dialogue itself. *)
Definition select_subtitle_area (w : World) : option Rect * list Msg :=
  match video_file w with
  | None => (None, [MsgCouldNotOpenVideo])
  | Some video =>
      if (List.length (video_frames video) =? 0)%nat
      then (None, [MsgVideoHasNoFrames])
      else (pick_region video, [])
  end.

Definition main (roi : option Rect) (scene_threshold change_threshold : Q) (w : World)
  : Outcome * World * list Msg :=
  let '(folder, log) :=
    match temp_folder w with
    | None => (∅ : Folder, [MsgStarting; MsgCreatedFolder])
    | Some old => (clear_old_images old, [MsgStarting; MsgClearingOldImages])
    end in
  let '(crop_rect, log) :=
    match roi with
    | Some r => (Some r, log)
    | None => let '(r, printed) := select_subtitle_area w in (r, (log ++ printed)%list)
    end in
  let w' := {| temp_folder := Some folder; video_file := video_file w |} in
  match crop_rect with
  | None => (NoRegion, w', (log ++ [MsgNoRegionSelected])%list)
  | Some crop_rect =>
      match video_file w with
      | None => (Raised VideoOpenFailure, w', (log ++ [MsgDetectingScenes])%list)
      | Some video =>
          let scene_list := detect_scenes video scene_threshold in
          let log := (log ++ [MsgDetectingScenes; MsgFoundScenes (List.length scene_list)])%list in
          match scene_list with
          | [] => (NoScenes, w', (log ++ [MsgNothingToExtract])%list)
          | _ :: _ =>
              let cap := {| cap_frames := video_frames video; cap_pos := O |} in
              let fps := video_fps video in
              let '(folder', total_images_saved, raised) :=
                scene_loop crop_rect change_threshold fps scene_list cap (folder, 0) in
              let w'' := {| temp_folder := Some folder'; video_file := video_file w |} in
              match raised with
              | None =>
                  (Finished total_images_saved, w'',
                   (log ++ [MsgAnalyzingScenes; MsgFinished total_images_saved])%list)
              | Some e => (Raised e, w'', (log ++ [MsgAnalyzingScenes])%list)
              end
          end
      end
  end.

End Driver.

(** * Notions used in the statements *)

(** ** Detector *)

(** The minimum duration as the design document derives it:
    [floor(fps * 0.2)]. *)
Definition min_duration_frames (fps : Q) : Z := Qfloor (fps * (2 # 10))%Q.

(** Frame [k] of a video, its sub-region, and the score the loop computes
    when it reaches frame [k] after frame [k - 1]. *)
Definition frame_at (frames : list Frame) (k : Z) : Frame :=
  nth (Z.to_nat k) frames [].

Definition sub_region_at (crop_rect : Rect) (frames : list Frame) (k : Z) : Frame :=
  crop crop_rect (frame_at frames k).

Definition diff_score_at (crop_rect : Rect) (frames : list Frame) (k : Z) : option Z :=
  np_sum (absdiff (sub_region_at crop_rect frames k) (sub_region_at crop_rect frames (k - 1))).

(** A capture positioned on frame [k]. *)
Definition cap_at (frames : list Frame) (k : Z) : Capture :=
  {| cap_frames := frames; cap_pos := Z.to_nat k |}.

(** The detector with another retained image (l.188). *)
Definition with_last (img : Frame) (d : Detector) : Detector :=
  {| last_img := Some img;
     subtitle_present := subtitle_present d;
     subtitle_start_frame := subtitle_start_frame d;
     written := written d;
     trace := trace d;
     raised := raised d |}.

(** The frame a transition happened at. *)
Definition transition_frame (t : Transition) : Z :=
  match t with
  | Opened n _ => n
  | Closed n _ => n
  end.

(** Replaying a list of transitions from a state: [None] as soon as an
    interval is opened while one is open, or closed while none is. *)
Fixpoint replay (present : bool) (ts : list Transition) : option bool :=
  match ts with
  | [] => Some present
  | Opened _ _ :: ts' => if present then None else replay true ts'
  | Closed _ _ :: ts' => if present then replay false ts' else None
  end.

(** A transition agrees with the score it was taken on. *)
Definition justified (change_threshold : Q) (t : Transition) : Prop :=
  match t with
  | Opened _ score => exceeds score change_threshold = Ok true
  | Closed _ score => exceeds score change_threshold = Ok false
  end.

(** What holds of the detector of a scene starting at [s] when the loop
    is about to handle frame [k]. *)
Record scene_inv (change_threshold fps : Q) (s k : Z) (d : Detector) : Prop :=
  { inv_pos : s <= k;
    inv_first : last_img d = None \/ s < k;
    inv_seeded : subtitle_present d = true -> last_img d <> None;
    inv_start : subtitle_present d = true -> s < subtitle_start_frame d < k;
    inv_written_start : Forall (fun iv => s < start_frame iv) (written d);
    inv_written_order : Forall (fun iv => start_frame iv <= end_frame iv < k - 1) (written d);
    inv_written_long :
      Forall (fun iv => end_frame iv - start_frame iv > min_duration fps) (written d);
    inv_replay : replay false (trace d) = Some (subtitle_present d);
    inv_justified : Forall (justified change_threshold) (trace d);
    inv_sorted : StronglySorted Z.lt (map transition_frame (trace d));
    inv_bound : Forall (fun t => s < transition_frame t < k) (trace d) }.

(** ** Codec and file names *)

(** The four numbers [frames_to_time_str] prints: hours, minutes, seconds
    and milliseconds, by the same arithmetic. *)
Definition time_fields (frame_count : Z) (fps : Q) : Result (Z * Z * Z * Z) :=
  let fps := if Qeq_bool fps 0 then inject_Z 25 else fps in
  match Py.truediv frame_count fps with
  | Raise e => Raise e
  | Ok seconds =>
      let '(frac, whole) := Py.modf seconds in
      match Py.timedelta whole with
      | Raise e => Raise e
      | Ok total_seconds =>
          match Py.int_float (F64.round (frac * inject_Z 1000)%Q) with
          | Raise e => Raise e
          | Ok ms =>
              let '(hours, remainder) := Py.divmod total_seconds 3600 in
              let '(minutes, seconds) := Py.divmod remainder 60 in
              Ok (hours, minutes, seconds, ms)
          end
      end
  end.

(** The file-name form [HH_MM_SS_mmm] of four fields. *)
Definition underscore_form (fields : Z * Z * Z * Z) : string :=
  let '(hours, minutes, seconds, ms) := fields in
  (Py.format_0d 2 hours ++ "_" ++ Py.format_0d 2 minutes ++ "_" ++ Py.format_0d 2 seconds)
    ++ "_" ++ Py.format_0d 3 ms.

(** The subtitle-file form [HH:MM:SS,mmm] of four fields. *)
Definition srt_form (fields : Z * Z * Z * Z) : string :=
  let '(hours, minutes, seconds, ms) := fields in
  Py.format_0d 2 hours ++ ":" ++ Py.format_0d 2 minutes ++ ":" ++ Py.format_0d 2 seconds
    ++ "," ++ Py.format_0d 3 ms.

(** The subtitle-format time stamp of a frame. *)
Definition srt_timestamp (frame_count : Z) (fps : Q) : Result string :=
  match time_fields frame_count fps with
  | Ok fields => Ok (srt_form fields)
  | Raise e => Raise e
  end.

(** The milliseconds [int(frac * 1000)] the code prints for a float
    number of seconds. *)
Definition millis (seconds : Q) : Z :=
  match Py.int_float (F64.round (fst (Py.modf (F64.Finite seconds)) * inject_Z 1000)%Q) with
  | Ok ms => ms
  | Raise _ => 0
  end.

(** The time the code prints for a float number of seconds, in
    milliseconds. *)
Definition printed_ms (seconds : Q) : Z := Py.int seconds * 1000 + millis seconds.


(** A fractional part at most [1 - 2^-53]. *)
Definition frac_small (x : Q) : Prop :=
  (x - inject_Z (Qfloor x) <= 1 - F64.pow2 (-53))%Q.

(** The fields of a time below 100 hours, from the elapsed milliseconds. *)
Definition fields_of_ms (t : Z) : Z * Z * Z * Z :=
  let w := t / 1000 in (w / 3600, w mod 3600 / 60, w mod 3600 mod 60, t mod 1000).

(** The number a string of decimal digits denotes. *)
Fixpoint decimal_value_from (v : Z) (s : string) : Z :=
  match s with
  | "" => v
  | String c s' => decimal_value_from (10 * v + (Z.of_nat (nat_of_ascii c) - 48)) s'
  end.

Definition decimal_value (s : string) : Z := decimal_value_from 0 s.

(** [\d]. *)
Definition is_digit (c : ascii) : bool :=
  let n := nat_of_ascii c in (48 <=? n)%nat && (n <=? 57)%nat.


(** A number below 100, as two digits. *)
Definition two_digits (n : Z) : string :=
  String (Py.digit_char (n / 10)) (String (Py.digit_char (n mod 10)) "").

(** A number below 1000, as three digits. *)
Definition three_digits (n : Z) : string :=
  String (Py.digit_char (n / 100))
    (String (Py.digit_char (n / 10 mod 10)) (String (Py.digit_char (n mod 10)) "")).

(** Every character of a string passes a test. *)
Fixpoint all_chars (p : ascii -> bool) (s : string) : bool :=
  match s with
  | "" => true
  | String c s' => p c && all_chars p s'
  end.

(** The characters [format_0d] prints: digits and the sign. *)
Definition field_char (c : ascii) : bool := is_digit c || Ascii.eqb c "-".

(** A printed field: not empty, made of field characters. *)
Definition is_field (s : string) : Prop := s <> "" /\ all_chars field_char s = true.

(** A string that begins with a field character. *)
Definition starts_field (s : string) : Prop :=
  match s with
  | "" => False
  | String c _ => field_char c = true
  end.

(** [c] is another character than [c0]. *)
Definition differs (c0 c : ascii) : bool := negb (Ascii.eqb c c0).

(** Four fields around single underscores, as one right-nested string. *)
Definition joined4 (x1 x2 x3 x4 : string) : string :=
  x1 ++ "_" ++ x2 ++ "_" ++ x3 ++ "_" ++ x4.

(** ** Driver *)

(** The directory as the run finds it; an absent directory has no file. *)
Definition existing_files (w : World) : Folder :=
  match temp_folder w with
  | Some old => old
  | None => ∅
  end.

(** The directory after the first step of [main] (l.121-128): created
    empty, or cleared of the names ending in [.png]. *)
Definition prepared_folder (w : World) : Folder :=
  match temp_folder w with
  | Some old => clear_old_images old
  | None => ∅
  end.

(** The rectangle the driver works with: the argument, or else the
    selection. *)
Definition resolved_region (pick_region : Video -> option Rect)
    (roi : option Rect) (w : World) : option Rect :=
  match roi with
  | Some r => Some r
  | None => fst (select_subtitle_area pick_region w)
  end.

(** ** Sample inputs

    Videos of one-sample frames.  In [flicker_10_29] the sample is 0 up to
    frame 9, alternates between 100 and 0 from frame 10 to frame 29, and is
    0 again up to frame 49; in [flicker_from_5] it is 0 up to frame 4 and
    alternates from frame 5 to the last frame, 19. *)

Definition one_sample (v : Z) : Frame := [[[v]]].

Definition sample_rect : Rect := (0, 1, 0, 1).

Definition flicker_10_29 : list Frame :=
  map (fun k => one_sample (if (10 <=? k) && (k <? 30) && Z.even k then 100 else 0))
      (Py.range 0 50).

Definition flicker_from_5 : list Frame :=
  map (fun k => one_sample (if (5 <=? k) && Z.odd k then 100 else 0)) (Py.range 0 20).

(** A detector with an interval open since frame 10. *)
Definition open_since_10 : Detector :=
  {| last_img := Some (one_sample 0); subtitle_present := true;
     subtitle_start_frame := 10; written := []; trace := [Opened 10 (Some 100)];
     raised := None |}.

(** * The text stages: OCR results, subtitle files, translation

    The texts of these stages are not limited to ASCII: a Python [str] is
    here the list of its code points.  [open(..., 'w')] is taken to write
    the text as it is (no translation of ['\n']). *)

Module Uni.

Local Open Scope N_scope.

(** The code points of an ASCII literal. *)
Definition lit (s : string) : list N := map N_of_ascii (list_ascii_of_string s).

(** ['\n']. *)
Definition nl : N := 10.

(** The characters [str.strip()] removes ([str.isspace]). *)
Definition isspace (c : N) : bool :=
  ((9 <=? c) && (c <=? 13)) || ((28 <=? c) && (c <=? 31)) || (c =? 32)
  || (c =? 133) || (c =? 160) || (c =? 5760)
  || ((8192 <=? c) && (c <=? 8202)) || (c =? 8232) || (c =? 8233)
  || (c =? 8239) || (c =? 8287) || (c =? 12288).

(** The line boundaries of [str.splitlines()]. *)
Definition islinebreak (c : N) : bool :=
  ((10 <=? c) && (c <=? 13)) || ((28 <=? c) && (c <=? 30))
  || (c =? 133) || (c =? 8232) || (c =? 8233).

Fixpoint lstrip_with (p : N -> bool) (s : list N) : list N :=
  match s with
  | [] => []
  | c :: s' => if p c then lstrip_with p s' else s
  end.

Definition rstrip_with (p : N -> bool) (s : list N) : list N :=
  rev (lstrip_with p (rev s)).

(** [s.strip()]. *)
Definition strip (s : list N) : list N := rstrip_with isspace (lstrip_with isspace s).

(** [s.lstrip(chars)]. *)
Definition lstrip_chars (chars s : list N) : list N :=
  lstrip_with (fun c => existsb (N.eqb c) chars) s.

(** [s.startswith(pre)]. *)
Fixpoint starts_with (pre s : list N) : bool :=
  match pre, s with
  | [], _ => true
  | _ :: _, [] => false
  | a :: pre', b :: s' => (a =? b) && starts_with pre' s'
  end.

(** [s.split(sep)] for a non-empty [sep], as [Py.split]. *)
Fixpoint split_from (sep : list N) (skip : nat) (cur s : list N) : list (list N) :=
  match s with
  | [] => [cur]
  | c :: s' =>
      match skip with
      | S k => split_from sep k cur s'
      | O =>
          if starts_with sep s
          then cur :: split_from sep (List.length sep - 1)%nat [] s'
          else split_from sep O (cur ++ [c]) s'
      end
  end.

Definition split (sep s : list N) : list (list N) := split_from sep O [] s.

(** [sep.join(parts)]. *)
Fixpoint join (sep : list N) (parts : list (list N)) : list N :=
  match parts with
  | [] => []
  | [x] => x
  | x :: rest => x ++ sep ++ join sep rest
  end.

(** [sub in s]. *)
Fixpoint contains (sub s : list N) : bool :=
  starts_with sub s
  || match s with
     | [] => false
     | _ :: s' => contains sub s'
     end.

(** [s.isdigit()], given the digit property of the Unicode database. *)
Definition isdigit (unicode_digit : N -> bool) (s : list N) : bool :=
  match s with
  | [] => false
  | _ :: _ => forallb unicode_digit s
  end.

(** [s.splitlines()]: cut at every line boundary, ["\r\n"] counting as
    one; no empty last line. *)
Fixpoint splitlines_from (cur s : list N) : list (list N) :=
  match s with
  | [] => match cur with [] => [] | _ :: _ => [cur] end
  | c :: s' =>
      if islinebreak c
      then cur :: (if c =? 13
                   then match s' with
                        | c' :: s'' =>
                            if c' =? 10 then splitlines_from [] s''
                            else splitlines_from [] s'
                        | [] => splitlines_from [] s'
                        end
                   else splitlines_from [] s')
      else splitlines_from (cur ++ [c]) s'
  end.

Definition splitlines (s : list N) : list (list N) := splitlines_from [] s.

(** What [f.read()] returns for a file opened in text mode: ["\r\n"] and
    a lone ["\r"] are read as ["\n"]. *)
Fixpoint read_text (raw : list N) : list N :=
  match raw with
  | [] => []
  | c :: rest =>
      if c =? 13
      then nl :: match rest with
                 | c' :: rest' => if c' =? 10 then read_text rest' else read_text rest
                 | [] => []
                 end
      else c :: read_text rest
  end.

(** [str(n)] for [0 <= n]. *)
Definition str_nonneg (n : Z) : list N := lit (Py.str_nonneg n).

End Uni.

(** ** OCR of one image (ocr_processor.py, l.40-97) *)

Definition OCR_MAX_RETRIES : nat := 3.

(** The cleaning of the exported text (l.78-79). *)
Definition clean_ocr_text (text_content : list N) : list N :=
  let cleaned_text :=
    Uni.join (Uni.lit " ")
      (List.filter (fun line => negb (Nat.eqb (List.length line) 0))
         (Uni.splitlines text_content)) in
  Uni.strip (Uni.lstrip_chars (Uni.lit "_ ") cleaned_text).

(** How one pass through the [try] block ends: with the exported text,
    without a file id, with an [HttpError] of some status, or with another
    exception. *)
Inductive DriveAttempt : Type :=
  | DriveText (text_content : list N)
  | DriveNoFileId
  | DriveHttpError (status : Z)
  | DriveOtherError.

(** The loop [while retries < MAX_RETRIES] (l.46-97); [remaining] is
    [MAX_RETRIES - retries], [attempt k] is how the try block ends when
    entered with [retries = k], and [slept] the waits so far, in seconds. *)
Fixpoint ocr_loop (remaining retries : nat) (attempt : nat -> DriveAttempt)
    (slept : list Z) : list N * list Z :=
  match remaining with
  | O => ([], slept)
  | S remaining' =>
      match attempt retries with
      | DriveText text_content => (clean_ocr_text text_content, slept)
      | DriveNoFileId => ([], slept)
      | DriveHttpError status =>
          if (status =? 403) || (status =? 500) || (status =? 503)
          then
            let retries := S retries in
            let wait_time := 2 ^ Z.of_nat retries in
            ocr_loop remaining' retries attempt (slept ++ [wait_time])%list
          else ([], slept)
      | DriveOtherError => ([], slept)
      end
  end.

Definition ocr_image_with_google_drive (attempt : nat -> DriveAttempt)
  : list N * list Z :=
  ocr_loop OCR_MAX_RETRIES 0 attempt [].

(** ** Assembling the subtitle file (ocr_processor.py, l.125-165) *)

(** The text stored for an image (l.148). *)
Definition block_text (start_time_srt end_time_srt : string) (ocr_text : list N) : list N :=
  (Uni.lit start_time_srt ++ Uni.lit " --> " ++ Uni.lit end_time_srt
     ++ [Uni.nl] ++ ocr_text ++ [Uni.nl])%list.

(** One completed OCR call (l.133-153): the name of the image and the text
    recognised.  An empty text is skipped, and so is a name the parser
    raises on (the exception is caught and reported). *)
Definition add_ocr_result (srt_blocks : gmap string (list N)) (result : string * list N)
  : gmap string (list N) :=
  let '(img_name, ocr_text) := result in
  match ocr_text with
  | [] => srt_blocks
  | _ :: _ =>
      match srt_times img_name with
      | Ok (start_time_srt, end_time_srt) =>
          <[start_time_srt := block_text start_time_srt end_time_srt ocr_text]> srt_blocks
      | Raise _ => srt_blocks
      end
  end.

(** The results in the order the calls complete. *)
Definition collect_blocks (results : list (string * list N)) : gmap string (list N) :=
  fold_left add_ocr_result results ∅.

(** [sorted(srt_blocks.keys())]. *)
Definition sorted_keys (srt_blocks : gmap string (list N)) : list string :=
  merge_sort String.le (map fst (map_to_list srt_blocks)).

(** The numbered blocks (l.160-162), from the number [first]. *)
Fixpoint numbered_blocks (srt_blocks : gmap string (list N)) (first : Z)
    (time_keys : list string) : list N :=
  match time_keys with
  | [] => []
  | time_key :: rest =>
      (Uni.str_nonneg first ++ [Uni.nl]
         ++ (match srt_blocks !! time_key with Some b => b | None => [] end ++ [Uni.nl])
         ++ numbered_blocks srt_blocks (first + 1) rest)%list
  end.

(** The file written, if any (l.156-165). *)
Definition srt_file (srt_blocks : gmap string (list N)) : option (list N) :=
  match sorted_keys srt_blocks with
  | [] => None
  | time_keys => Some (numbered_blocks srt_blocks 1 time_keys)
  end.

(** ** Reading a subtitle file (translator.py, l.14-47) *)

Record Subtitle : Type :=
  { sub_index : list N; sub_time : list N; sub_text : list N }.

(** One pass of the loop over the blocks (l.24-38): [None] when the block
    is skipped. *)
Definition parse_block (unicode_digit : N -> bool) (block_text : list N) : option Subtitle :=
  match Uni.strip block_text with
  | [] => None
  | _ :: _ =>
      let lines := Uni.split [Uni.nl] block_text in
      if (3 <=? List.length lines)%nat then
        let index := nth 0 lines [] in
        let time_line := nth 1 lines [] in
        let text := Uni.join [Uni.nl] (skipn 2 lines) in
        if Uni.contains (Uni.lit "-->") time_line && Uni.isdigit unicode_digit index
        then Some {| sub_index := index; sub_time := time_line; sub_text := Uni.strip text |}
        else None
      else None
  end.

(** [parse_srt]; the file is given by its text, [None] when there is no
    such file. *)
Definition parse_srt (unicode_digit : N -> bool) (file : option (list N)) : list Subtitle :=
  match file with
  | None => []
  | Some raw =>
      let content := Uni.strip (Uni.read_text raw) in
      let blocks := Uni.split [Uni.nl; Uni.nl] content in
      omap (parse_block unicode_digit) blocks
  end.

(** ** Translating (translator.py, l.49-135) *)

Definition MAX_RETRIES : nat := 5.
Definition RETRY_DELAY : Z := 5.

(** How one pass through the [try] block of [translate_text_with_gemini]
    ends: with a translation in the response, with a response of another
    shape, with a [RequestException], or with another exception, whose
    message is given.  An empty translation counts as a response of another
    shape (l.81). *)
Inductive GeminiAttempt : Type :=
  | GeminiText (translated_text : list N)
  | GeminiUnexpected
  | GeminiRequestException
  | GeminiOtherError (message : list N).

(** The loop [while retries < MAX_RETRIES] (l.72-95), as [ocr_loop]. *)
Fixpoint translate_loop (remaining retries : nat) (attempt : nat -> GeminiAttempt)
    (slept : list Z) : list N * list Z :=
  match remaining with
  | O => (Uni.lit "[[Translation Failed]]", slept)
  | S remaining' =>
      match attempt retries with
      | GeminiText [] | GeminiUnexpected =>
          (Uni.lit "[[Translation Error: Unexpected Response]]", slept)
      | GeminiText translated_text => (Uni.strip translated_text, slept)
      | GeminiRequestException =>
          translate_loop remaining' (S retries) attempt (slept ++ [RETRY_DELAY])%list
      | GeminiOtherError message =>
          ((Uni.lit "[[Translation Error: " ++ message ++ Uni.lit "]]")%list, slept)
      end
  end.

(** [translate_text_with_gemini]: the result and the waits; [None] when no
    request is made. *)
Definition translate_text_with_gemini (text : list N) (attempt : nat -> GeminiAttempt)
  : list N * option (list Z) :=
  match text with
  | [] => ([], None)
  | _ :: _ =>
      let '(result, slept) := translate_loop MAX_RETRIES 0 attempt [] in
      (result, Some slept)
  end.

(** The file [main] writes (l.123-133); [translate i text] is what the call
    for the block at position [i] returns for its text. *)
Fixpoint translated_file (translate : nat -> list N -> list N) (i : nat)
    (subtitles : list Subtitle) : list N :=
  match subtitles with
  | [] => []
  | sub :: rest =>
      (sub_index sub ++ [Uni.nl] ++ sub_time sub ++ [Uni.nl]
         ++ translate i (sub_text sub) ++ [Uni.nl; Uni.nl]
         ++ translated_file translate (S i) rest)%list
  end.

(** [main] (l.105-135): the file written, if any.  [attempts i] are the
    attempts of the call for the block at position [i]. *)
Definition translator_main (unicode_digit : N -> bool) (input_srt : option (list N))
    (attempts : nat -> nat -> GeminiAttempt) : option (list N) :=
  match parse_srt unicode_digit input_srt with
  | [] => None
  | subtitles =>
      Some (translated_file
              (fun i text => fst (translate_text_with_gemini text (attempts i)))
              0 subtitles)
  end.

(** * The paths of the launcher (launcher.py)

    [os.path] is taken to be [posixpath], as above. *)

(** [select_video] (l.106-113): the image folder and the subtitle file set
    for the path chosen; nothing is set when the dialog returns no path. *)
Definition select_video (path : string) : option (string * string) :=
  match path with
  | "" => None
  | _ =>
      let base_path := fst (Py.splitext path) in
      Some (base_path ++ "_sub_images", base_path ++ ".srt")
  end.

(** The output path [run_translator] passes to the translator (l.181). *)
Definition output_path (srt_path : string) : string :=
  fst (Py.splitext srt_path) ++ ".vi.srt".

(** * Notions used in the further properties *)

(** ** Detector and driver *)

(** The second interval starts at least two frames after the first ends. *)
Definition apart (a b : SubtitleInterval) : Prop :=
  end_frame a + 2 <= start_frame b.

(** What holds of the written intervals when the loop is about to handle
    frame [k]: they are in order and apart, they ended before frame
    [k - 1], and an open interval began after all of them. *)
Definition order_inv (k : Z) (d : Detector) : Prop :=
  StronglySorted apart (written d) /\
  Forall (fun iv => end_frame iv + 1 < k) (written d) /\
  (subtitle_present d = true ->
     subtitle_start_frame d < k /\
     Forall (fun iv => end_frame iv + 2 <= subtitle_start_frame d) (written d)).

(** The intervals of all the scenes of a run, in the order of the writes. *)
Definition all_intervals (crop_rect : Rect) (change_threshold fps : Q)
    (frames : list Frame) (scene_list : list (Z * Z)) : list SubtitleInterval :=
  flat_map (process_scene crop_rect change_threshold fps (cap_at frames 0)) scene_list.

(** The intervals the scenes of a run write, in the order of the writes,
    up to the end of the scene whose frame loop raises, if one does, and
    that exception. *)
Fixpoint scene_writes (crop_rect : Rect) (change_threshold fps : Q)
    (frames : list Frame) (scene_list : list (Z * Z))
  : list SubtitleInterval * option Exn :=
  match scene_list with
  | [] => ([], None)
  | scene :: rest =>
      let '(_, d, ivs) :=
        scene_run crop_rect change_threshold fps (cap_at frames 0) scene in
      match raised d with
      | Some e => (ivs, Some e)
      | None =>
          let '(ivs', e) := scene_writes crop_rect change_threshold fps frames rest in
          ((ivs ++ ivs')%list, e)
      end
  end.

(** The outcome and the world of [main], without the printed lines, from
    the prepared directory and the video. *)
Definition run_result (pick_region : Video -> option Rect)
    (detect_scenes : Video -> Q -> list (Z * Z))
    (roi : option Rect) (scene_threshold change_threshold : Q)
    (folder : Folder) (video : option Video) : Outcome * World :=
  let w' := {| temp_folder := Some folder; video_file := video |} in
  match resolved_region pick_region roi w' with
  | None => (NoRegion, w')
  | Some crop_rect =>
      match video with
      | None => (Raised VideoOpenFailure, w')
      | Some v =>
          match detect_scenes v scene_threshold with
          | [] => (NoScenes, w')
          | scene_list =>
              let '(ivs, loop_raised) :=
                scene_writes crop_rect change_threshold (video_fps v)
                  (video_frames v) scene_list in
              let '(folder', total, write_raised) :=
                write_all (video_fps v) ivs (folder, 0) in
              (match write_raised, loop_raised with
               | None, None => Finished total
               | Some e, _ => Raised e
               | None, Some e => Raised e
               end,
               {| temp_folder := Some folder'; video_file := video |})
          end
      end
  end.

(** ** Codec and file names *)

(** Every character is a decimal digit. *)
Definition all_digits (s : string) : bool := all_chars is_digit s.

(** A full match of [\d{2,}_\d{2}_\d{2}_\d{3}]: as [matches_pattern], with
    an hour field of two digits or more. *)
Definition matches_open_pattern (s : string) : bool :=
  match Py.split "_" s with
  | [h; m; sec; ms] =>
      all_digits h && (2 <=? String.length h)%nat
      && all_digits m && (String.length m =? 2)%nat
      && all_digits sec && (String.length sec =? 2)%nat
      && all_digits ms && (String.length ms =? 3)%nat
  | _ => false
  end.

(** [sep in s]. *)
Fixpoint occurs (sep s : string) : bool :=
  String.prefix sep s
  || match s with
     | "" => false
     | String _ s' => occurs sep s'
     end.

(** ** Further sample inputs *)

(** Ten equal frames. *)
Definition still_video : list Frame := map (fun _ => one_sample 7) (Py.range 0 10).

(** A directory with a text file and an image of an earlier run, and the
    video [flicker_10_29] at 25 frames per second. *)
Definition sample_world : World :=
  {| temp_folder := Some (<["notes.txt" := one_sample 1]> {[ "old.png" := one_sample 2 ]});
     video_file := Some {| video_fps := inject_Z 25; video_frames := flicker_10_29 |} |}.

(** A scene source that reports the whole video as one scene. *)
Definition one_scene (video : Video) (threshold : Q) : list (Z * Z) :=
  [(0, Z.of_nat (List.length (video_frames video)))].

(** ** Paths *)

(** [os.path.basename(p)]. *)
Definition basename (p : string) : string :=
  let i := Z.to_nat (Py.rfind "/" p + 1) in
  substring i (String.length p - i) p.

(** ** Texts *)

(** No character of the text is a line boundary. *)
Definition single_line (s : list N) : bool :=
  forallb (fun c => negb (Uni.islinebreak c)) s.

(** The text is not empty, and neither its first nor its last character is
    white space. *)
Definition trimmed (s : list N) : bool :=
  match s with
  | [] => false
  | c :: _ => negb (Uni.isspace c) && negb (Uni.isspace (List.last s 0%N))
  end.

(** The character does not occur in the text. *)
Definition has_no (a : N) (s : list N) : bool := forallb (fun c => negb (N.eqb c a)) s.

(** The text does not end with the character. *)
Definition ends_other (a : N) (x : list N) : bool := negb (N.eqb (List.last x (N.succ a)) a).

(** The text does not begin with the character. *)
Definition starts_other (a : N) (x : list N) : bool := negb (Uni.starts_with [a] x).

(** An ASCII decimal digit. *)
Definition ascii_digit (c : N) : bool := ((48 <=? c) && (c <=? 57))%N.

(** The lines of a block in a subtitle file. *)
Definition srt_block (sub : Subtitle) : list N :=
  (sub_index sub ++ [Uni.nl] ++ sub_time sub ++ [Uni.nl] ++ sub_text sub)%list.

(** A block that can be written and read again: the index is a number, the
    time line has the arrow and is one line, the text is trimmed and has no
    empty line, and there is no carriage return. *)
Definition writable (unicode_digit : N -> bool) (sub : Subtitle) : bool :=
  Uni.isdigit unicode_digit (sub_index sub)
  && Uni.contains (Uni.lit "-->") (sub_time sub)
  && has_no Uni.nl (sub_time sub) && has_no 13 (sub_time sub)
  && trimmed (sub_text sub) && has_no 13 (sub_text sub)
  && negb (Uni.contains [Uni.nl; Uni.nl] (sub_text sub)).

(** The parts of [writable], and what they say of the index. *)
Record writable_parts (unicode_digit : N -> bool) (sub : Subtitle) : Prop :=
  { index_digits : Uni.isdigit unicode_digit (sub_index sub) = true;
    index_one_line : has_no Uni.nl (sub_index sub) = true;
    index_plain : has_no 13 (sub_index sub) = true;
    time_arrow : Uni.contains (Uni.lit "-->") (sub_time sub) = true;
    time_one_line : has_no Uni.nl (sub_time sub) = true;
    time_plain : has_no 13 (sub_time sub) = true;
    text_trimmed : trimmed (sub_text sub) = true;
    text_plain : has_no 13 (sub_text sub) = true;
    text_no_empty_line : Uni.contains [Uni.nl; Uni.nl] (sub_text sub) = false }.

(** A block as [parse_srt] returns it: as a writable one, but the text may
    be empty. *)
Definition parsed_shape (unicode_digit : N -> bool) (sub : Subtitle) : bool :=
  Uni.isdigit unicode_digit (sub_index sub)
  && Uni.contains (Uni.lit "-->") (sub_time sub)
  && has_no Uni.nl (sub_time sub) && has_no 13 (sub_time sub)
  && has_no 13 (sub_text sub)
  && negb (Uni.contains [Uni.nl; Uni.nl] (sub_text sub))
  && match sub_text sub with [] => true | _ :: _ => trimmed (sub_text sub) end.

(** The block with its text translated. *)
Definition with_text (translate : list N -> list N) (sub : Subtitle) : Subtitle :=
  {| sub_index := sub_index sub;
     sub_time := sub_time sub;
     sub_text := translate (sub_text sub) |}.

(** The blocks with their texts translated, from position [i]. *)
Fixpoint translated (translate : nat -> list N -> list N) (i : nat)
    (subtitles : list Subtitle) : list Subtitle :=
  match subtitles with
  | [] => []
  | sub :: rest => with_text (translate i) sub :: translated translate (S i) rest
  end.

(** What the call for the block at position [i] returns. *)
Definition gemini (attempts : nat -> nat -> GeminiAttempt) (i : nat) (text : list N)
  : list N :=
  fst (translate_text_with_gemini text (attempts i)).

(** A text that can be written and read again: trimmed, without an empty
    line and without a carriage return. *)
Definition writable_text (text : list N) : bool :=
  trimmed text && has_no 13 text && negb (Uni.contains [Uni.nl; Uni.nl] text).

(** The subtitle of an image: its number, its two stamps and its text. *)
Definition entry_subtitle (number : Z) (entry : string * string * list N) : Subtitle :=
  let '(start_time_srt, end_time_srt, ocr_text) := entry in
  {| sub_index := Uni.str_nonneg number;
     sub_time := (Uni.lit start_time_srt ++ Uni.lit " --> " ++ Uni.lit end_time_srt)%list;
     sub_text := ocr_text |}.

(** The entry is what the table holds under its start stamp; its stamps and
    its text are single lines, and the text is trimmed. *)
Definition stored (srt_blocks : gmap string (list N)) (entry : string * string * list N)
  : Prop :=
  let '(start_time_srt, end_time_srt, ocr_text) := entry in
  srt_blocks !! start_time_srt = Some (block_text start_time_srt end_time_srt ocr_text)
  /\ single_line (Uni.lit start_time_srt) = true
  /\ single_line (Uni.lit end_time_srt) = true
  /\ single_line ocr_text = true
  /\ trimmed ocr_text = true.

(** A completed OCR call of the pipeline: the image has a name the
    extractor gives at the frame rate [fps], and the text is what
    [ocr_image_with_google_drive] returns, however its attempts end. *)
Definition pipeline_result (fps : Q) (result : string * list N) : Prop :=
  (exists iv, img_name fps iv = Ok (fst result)) /\
  (exists attempt, snd result = fst (ocr_image_with_google_drive attempt)).

(** The key under which a completed OCR call is stored, if it is. *)
Definition result_key (result : string * list N) : option string :=
  match snd result with
  | [] => None
  | _ :: _ =>
      match srt_times (fst result) with
      | Ok (start_time_srt, _) => Some start_time_srt
      | Raise _ => None
      end
  end.

(** The subtitles of the entries, numbered from [first]. *)
Fixpoint numbered_from (first : Z) (entries : list (string * string * list N))
  : list Subtitle :=
  match entries with
  | [] => []
  | entry :: rest => entry_subtitle first entry :: numbered_from (first + 1) rest
  end.


(** The try block entered with this outcome is entered again. *)
Definition retried (a : DriveAttempt) : bool :=
  match a with
  | DriveHttpError status => (status =? 403) || (status =? 500) || (status =? 503)
  | _ => false
  end.

(** ** Sample texts *)

(** Two blocks, the second with a text of two lines. *)
Definition sample_subtitles : list Subtitle :=
  [ {| sub_index := Uni.lit "1";
       sub_time := Uni.lit "00:00:00,400 --> 00:00:01,000";
       sub_text := Uni.lit "first" |};
    {| sub_index := Uni.lit "2";
       sub_time := Uni.lit "00:00:02,000 --> 00:00:03,000";
       sub_text := (Uni.lit "second" ++ [Uni.nl] ++ Uni.lit "line")%list |} ].

(** A translation that puts a mark before the text. *)
Definition marked (text : list N) : list N := (Uni.lit "vi: " ++ text)%list.

(** A subtitle file with the line ends of Windows and a blank last line. *)
Definition sample_file : list N :=
  (Uni.lit "1" ++ [13; 10]%N
     ++ Uni.lit "00:00:00,400 --> 00:00:01,000" ++ [13; 10]%N
     ++ Uni.lit "first" ++ [13; 10; 13; 10]%N
     ++ Uni.lit "2" ++ [13; 10]%N
     ++ Uni.lit "00:00:02,000 --> 00:00:03,000" ++ [13; 10]%N
     ++ Uni.lit "second" ++ [13; 10]%N ++ Uni.lit "line" ++ [13; 10; 32; 13; 10]%N)%list.

(** The service fails once for the first block and answers then; for the
    other blocks all requests fail. *)
Definition sample_attempts (i k : nat) : GeminiAttempt :=
  match i, k with
  | O, S _ => GeminiText (Uni.lit " xin chao ")
  | _, _ => GeminiRequestException
  end.

(** Two OCR calls, the later image completed first. *)
Definition sample_results : list (string * list N) :=
  [ ("00_00_02_000__00_00_03_000.png", Uni.lit "second");
    ("00_00_00_400__00_00_01_000.png", Uni.lit "first") ].

(** Their entries, in the order of the start stamps. *)
Definition sample_entries : list (string * string * list N) :=
  [ ("00:00:00,400", "00:00:01,000", Uni.lit "first");
    ("00:00:02,000", "00:00:03,000", Uni.lit "second") ].

(** * Properties of the detector *)

Lemma range_nil a e : e <= a -> Py.range a e = [].
Proof.
  intros H. unfold Py.range.
  replace (Z.to_nat (e - a)) with O by lia. reflexivity.
Qed.

Lemma range_cons a e : a < e -> Py.range a e = a :: Py.range (a + 1) e.
Proof.
  intros H. unfold Py.range.
  replace (Z.to_nat (e - a)) with (S (Z.to_nat (e - (a + 1)))) by lia.
  cbn [seq map]. f_equal; [lia |].
  rewrite <- seq_shift, map_map.
  apply map_ext. intros i. lia.
Qed.

Lemma trunc_floor_nonneg (x : Q) : (0 <= x)%Q -> Py.int x = Qfloor x.
Proof.
  destruct x as [n d]. unfold Qle, Py.int, Qfloor. cbn.
  intros H. apply Z.quot_div_nonneg; lia.
Qed.

Lemma floor_le_trunc (x : Q) : Qfloor x <= Py.int x.
Proof.
  destruct x as [n d]. unfold Py.int, Qfloor. cbn.
  destruct (Z_le_gt_dec 0 n) as [Hn | Hn].
  - rewrite Z.quot_div_nonneg by lia. lia.
  - pose proof (Z.quot_opp_l n (Z.pos d) ltac:(lia)) as Hq.
    assert (Hq' : n ÷ Z.pos d = - (- n ÷ Z.pos d)) by lia.
    rewrite Hq', Z.quot_div_nonneg by lia.
    pose proof (Z.div_mod n (Z.pos d) ltac:(lia)) as E1.
    pose proof (Z.mod_pos_bound n (Z.pos d) ltac:(lia)) as B1.
    pose proof (Z.div_mod (- n) (Z.pos d) ltac:(lia)) as E2.
    pose proof (Z.mod_pos_bound (- n) (Z.pos d) ltac:(lia)) as B2.
    nia.
Qed.

Lemma min_duration_nonneg_rate (fps : Q) :
  (0 <= fps)%Q -> min_duration fps = min_duration_frames fps.
Proof.
  intros H. apply trunc_floor_nonneg.
  apply Qmult_le_0_compat; [exact H | discriminate].
Qed.

Lemma min_duration_frames_le (fps : Q) : min_duration_frames fps <= min_duration fps.
Proof. apply floor_le_trunc. Qed.

Lemma min_duration_25 : min_duration (inject_Z 25) = 5.
Proof. reflexivity. Qed.

(** ** Single steps *)

Section Steps.

Variables (change_threshold fps : Q).

Local Ltac run_step Hl Hp He :=
  unfold step, with_last; rewrite Hl; cbv zeta; rewrite He, ?Hp; cbn;
  rewrite ?Hp; reflexivity.

Lemma step_seed n img d :
  last_img d = None -> step change_threshold fps n img d = with_last img d.
Proof. intros H. unfold step. rewrite H. reflexivity. Qed.

Lemma step_idle_quiet n img last d :
  last_img d = Some last ->
  subtitle_present d = false ->
  exceeds (np_sum (absdiff img last)) change_threshold = Ok false ->
  step change_threshold fps n img d = with_last img d.
Proof. intros Hl Hp He. run_step Hl Hp He. Qed.

Lemma step_open_busy n img last d :
  last_img d = Some last ->
  subtitle_present d = true ->
  exceeds (np_sum (absdiff img last)) change_threshold = Ok true ->
  step change_threshold fps n img d = with_last img d.
Proof. intros Hl Hp He. run_step Hl Hp He. Qed.

Lemma step_opens n img last d :
  last_img d = Some last ->
  subtitle_present d = false ->
  exceeds (np_sum (absdiff img last)) change_threshold = Ok true ->
  step change_threshold fps n img d =
    {| last_img := Some img; subtitle_present := true; subtitle_start_frame := n;
       written := written d;
       trace := (trace d ++ [Opened n (np_sum (absdiff img last))])%list;
       raised := raised d |}.
Proof. intros Hl Hp He. run_step Hl Hp He. Qed.

Lemma step_closes n img last d :
  last_img d = Some last ->
  subtitle_present d = true ->
  exceeds (np_sum (absdiff img last)) change_threshold = Ok false ->
  step change_threshold fps n img d =
    {| last_img := Some img; subtitle_present := false;
       subtitle_start_frame := subtitle_start_frame d;
       written := save_if_long fps (n - 1) last d;
       trace := (trace d ++ [Closed n (np_sum (absdiff img last))])%list;
       raised := raised d |}.
Proof. intros Hl Hp He. run_step Hl Hp He. Qed.

Lemma step_raises n img last d e :
  last_img d = Some last ->
  exceeds (np_sum (absdiff img last)) change_threshold = Raise e ->
  step change_threshold fps n img d =
    {| last_img := Some last; subtitle_present := subtitle_present d;
       subtitle_start_frame := subtitle_start_frame d; written := written d;
       trace := trace d; raised := Some e |}.
Proof. intros Hl He. unfold step. rewrite Hl. cbv zeta. rewrite He. reflexivity. Qed.

(** The body raises exactly when the comparison does; then nothing is
    written and the state is kept. *)
Lemma step_raised n img d :
  raised d = None ->
  match raised (step change_threshold fps n img d) with
  | None => last_img (step change_threshold fps n img d) = Some img
  | Some e =>
      exists last,
        last_img d = Some last /\
        exceeds (np_sum (absdiff img last)) change_threshold = Raise e /\
        written (step change_threshold fps n img d) = written d /\
        subtitle_present (step change_threshold fps n img d) = subtitle_present d
  end.
Proof.
  intros Hr. unfold step.
  destruct (last_img d) as [last |] eqn:El; cbn; [| rewrite Hr; reflexivity].
  destruct (exceeds (np_sum (absdiff img last)) change_threshold) as [[|] | e] eqn:Ex.
  - destruct (subtitle_present d); cbn; rewrite Hr; reflexivity.
  - destruct (subtitle_present d); cbn; rewrite Hr; reflexivity.
  - cbn. exists last. auto.
Qed.

End Steps.

Lemma with_last_same img d : last_img d = Some img -> with_last img d = d.
Proof. destruct d; cbn; intros ->; reflexivity. Qed.

Lemma with_last_twice a b d : with_last a (with_last b d) = with_last a d.
Proof. reflexivity. Qed.

(** ** The frame loop on a video whose frames can all be read *)

Section Runs.

Variables (crop_rect : Rect) (change_threshold fps : Q) (frames : list Frame).

Let loop := frame_loop crop_rect change_threshold fps.
Let sub := sub_region_at crop_rect frames.

Lemma cap_read_at k :
  0 <= k < Z.of_nat (List.length frames) ->
  cap_read (cap_at frames k) = (Some (frame_at frames k), cap_at frames (k + 1)).
Proof.
  intros Hk. unfold cap_read, cap_at, frame_at. cbn.
  destruct (nth_error frames (Z.to_nat k)) as [f |] eqn:E.
  - rewrite (nth_error_nth _ _ _ E). do 2 f_equal. lia.
  - apply nth_error_None in E. lia.
Qed.

Lemma cap_read_past k :
  Z.of_nat (List.length frames) <= k ->
  cap_read (cap_at frames k) = (None, cap_at frames k).
Proof.
  intros Hk. unfold cap_read, cap_at. cbn.
  destruct (nth_error frames (Z.to_nat k)) as [f |] eqn:E; [| reflexivity].
  assert (nth_error frames (Z.to_nat k) <> None) as Hn by congruence.
  apply nth_error_Some in Hn. lia.
Qed.

Lemma loop_step a e d :
  0 <= a < e -> a < Z.of_nat (List.length frames) ->
  raised (step change_threshold fps a (sub a) d) = None ->
  loop (Py.range a e) (cap_at frames a) d =
  loop (Py.range (a + 1) e) (cap_at frames (a + 1))
       (step change_threshold fps a (sub a) d).
Proof.
  intros Ha Hl Hr. subst loop. rewrite range_cons by lia. cbn [frame_loop].
  rewrite cap_read_at by lia. cbv zeta. subst sub. unfold sub_region_at in Hr.
  rewrite Hr. reflexivity.
Qed.

Lemma loop_raise a e d x :
  0 <= a < e -> a < Z.of_nat (List.length frames) ->
  raised (step change_threshold fps a (sub a) d) = Some x ->
  loop (Py.range a e) (cap_at frames a) d =
    (cap_at frames (a + 1), step change_threshold fps a (sub a) d).
Proof.
  intros Ha Hl Hr. subst loop. rewrite range_cons by lia. cbn [frame_loop].
  rewrite cap_read_at by lia. cbv zeta. subst sub. unfold sub_region_at in Hr.
  rewrite Hr. reflexivity.
Qed.

Lemma loop_step_to a e d d' :
  0 <= a < e -> a < Z.of_nat (List.length frames) ->
  step change_threshold fps a (sub a) d = d' ->
  raised d' = None ->
  loop (Py.range a e) (cap_at frames a) d =
  loop (Py.range (a + 1) e) (cap_at frames (a + 1)) d'.
Proof. intros Ha Hl <- Hr. apply loop_step; assumption. Qed.

Lemma loop_done a e cap d : e <= a -> loop (Py.range a e) cap d = (cap, d).
Proof. intros H. subst loop. rewrite range_nil by lia. reflexivity. Qed.

Lemma loop_eof a e d :
  Z.of_nat (List.length frames) <= a ->
  loop (Py.range a e) (cap_at frames a) d = (cap_at frames a, d).
Proof.
  intros H. subst loop. destruct (Z_lt_le_dec a e).
  - rewrite range_cons by lia. cbn [frame_loop]. rewrite cap_read_past by lia. reflexivity.
  - rewrite range_nil by lia. reflexivity.
Qed.

(** A stretch of frames [a .. b-1] without a transition: the detector
    only replaces its retained image. *)
Lemma loop_steady (present above : bool) n : forall a b e d,
  Z.of_nat n = b - a -> 0 < a -> b <= e -> b <= Z.of_nat (List.length frames) ->
  last_img d = Some (sub (a - 1)) ->
  subtitle_present d = present ->
  raised d = None ->
  above = present ->
  (forall k, a <= k < b ->
     exceeds (diff_score_at crop_rect frames k) change_threshold = Ok above) ->
  loop (Py.range a e) (cap_at frames a) d =
  loop (Py.range b e) (cap_at frames b) (with_last (sub (b - 1)) d).
Proof.
  induction n as [| n IH]; intros a b e d Hn Ha Hb Hlen Hlast Hp Hr Hab Hq.
  - assert (b = a) as -> by lia. rewrite with_last_same by exact Hlast. reflexivity.
  - assert (Hstep : step change_threshold fps a (sub a) d = with_last (sub a) d).
    { pose proof (Hq a ltac:(lia)) as Hs. unfold diff_score_at in Hs. subst above.
      destruct present.
      - eapply step_open_busy; eauto.
      - eapply step_idle_quiet; eauto. }
    rewrite loop_step by (first [lia | rewrite Hstep; exact Hr]).
    rewrite Hstep.
    rewrite (IH (a + 1) b e (with_last (sub a) d)); try lia; try reflexivity; try assumption.
    + cbn. do 2 f_equal. lia.
    + intros k Hk. apply Hq. lia.
Qed.

End Runs.

(** ** Invariants of the frame loop *)

Lemma replay_snoc present ts t s :
  replay present ts = Some s -> replay present (ts ++ [t]) = replay s [t].
Proof.
  revert present. induction ts as [| u ts IH]; intros present H.
  - cbn in H. injection H as ->. reflexivity.
  - cbn [app replay] in *. destruct u, present; try discriminate; apply IH, H.
Qed.

Lemma strongly_sorted_snoc (l : list Z) (x : Z) :
  StronglySorted Z.lt l -> Forall (fun y => y < x) l -> StronglySorted Z.lt (l ++ [x]).
Proof.
  induction 1 as [| y l Hs IH Hy]; intros Hall; cbn.
  - constructor; constructor.
  - apply List.Forall_cons_iff in Hall as [Hyx Hall]. constructor.
    + apply IH, Hall.
    + apply List.Forall_app. split; [exact Hy | constructor; [exact Hyx | constructor]].
Qed.

Lemma scene_inv_fresh thr fps s : scene_inv thr fps s s fresh.
Proof.
  split; cbn; try (constructor; fail); try discriminate; try lia; auto.
Qed.

Lemma save_if_long_spec fps e img d :
  save_if_long fps e img d =
    if e - subtitle_start_frame d >? min_duration fps
    then (written d ++ [{| start_frame := subtitle_start_frame d; end_frame := e;
                           representative_image := img |}])%list
    else written d.
Proof.
  unfold save_if_long.
  destruct (e >? subtitle_start_frame d + min_duration fps) eqn:E1;
    destruct (e - subtitle_start_frame d >? min_duration fps) eqn:E2; try reflexivity; lia.
Qed.

Lemma Forall_weaken_bound {A} (f : A -> Z) (lo k : Z) (l : list A) :
  Forall (fun t => lo < f t < k) l -> Forall (fun t => lo < f t < k + 1) l.
Proof. apply List.Forall_impl. intros; lia. Qed.

(** The invariant one frame later, for a state that differs in the
    retained image and the exception only. *)
Lemma scene_inv_keep thr fps s k d d' :
  scene_inv thr fps s k d ->
  subtitle_present d' = subtitle_present d ->
  subtitle_start_frame d' = subtitle_start_frame d ->
  written d' = written d ->
  trace d' = trace d ->
  (last_img d' = last_img d \/ last_img d' <> None) ->
  scene_inv thr fps s (k + 1) d'.
Proof.
  intros [Hpos Hfirst Hseed Hstart Hws Hwo Hwl Hrep Hjust Hsort Hbound] Ep Es Ew Et El.
  split; rewrite ?Ep, ?Es, ?Ew, ?Et.
  - lia.
  - destruct Hfirst as [Hn | Hlt]; [| right; lia].
    destruct (Z.eq_dec s k) as [-> | Hne]; [| right; lia].
    destruct El as [El | El]; [left; congruence | right; lia].
  - intros Hp. destruct El as [El | El]; [rewrite El; exact (Hseed Hp) | exact El].
  - intros Hp. specialize (Hstart Hp). lia.
  - exact Hws.
  - revert Hwo. apply List.Forall_impl. intros; lia.
  - exact Hwl.
  - exact Hrep.
  - exact Hjust.
  - exact Hsort.
  - revert Hbound. apply List.Forall_impl. intros; lia.
Qed.

Lemma scene_inv_step thr fps s k img d :
  scene_inv thr fps s k d -> scene_inv thr fps s (k + 1) (step thr fps k img d).
Proof.
  intros Hinv.
  pose proof Hinv as [Hpos Hfirst Hseed Hstart Hws Hwo Hwl Hrep Hjust Hsort Hbound].
  assert (Hwo' : Forall (fun iv => start_frame iv <= end_frame iv < k + 1 - 1) (written d)).
  { revert Hwo. apply List.Forall_impl. intros; lia. }
  pose proof (Forall_weaken_bound transition_frame s k _ Hbound) as Hbound'.
  assert (Hbelow : Forall (fun y => y < k) (map transition_frame (trace d))).
  { apply List.Forall_map. revert Hbound. apply List.Forall_impl. intros; lia. }
  unfold step. destruct (last_img d) as [last |] eqn:El.
  2:{ apply (scene_inv_keep thr fps s k d); try reflexivity; [exact Hinv |].
      right. discriminate. }
  destruct Hfirst as [? | Hsk]; [discriminate |].
  cbv zeta.
  destruct (exceeds (np_sum (absdiff img last)) thr) as [[|] | e] eqn:Ex;
    [destruct (subtitle_present d) eqn:Ep; cbn [negb]
    | destruct (subtitle_present d) eqn:Ep |].
  - (* still changing *)
    apply (scene_inv_keep thr fps s k d); try reflexivity;
      [exact Hinv | cbn; congruence |].
    right. discriminate.
  - (* an interval opens *)
    split; cbn [last_img subtitle_present subtitle_start_frame written trace].
    + lia.
    + right. lia.
    + discriminate.
    + intros _. lia.
    + exact Hws.
    + exact Hwo'.
    + exact Hwl.
    + rewrite (replay_snoc _ _ _ _ Hrep). reflexivity.
    + apply List.Forall_app. split; [exact Hjust | constructor; [exact Ex | constructor]].
    + rewrite List.map_app. cbn [map transition_frame].
      apply strongly_sorted_snoc; [exact Hsort | exact Hbelow].
    + apply List.Forall_app. split; [exact Hbound' | constructor; [cbn; lia | constructor]].
  - (* the interval closes *)
    specialize (Hstart eq_refl).
    split; cbn [last_img subtitle_present subtitle_start_frame written trace].
    + lia.
    + right. lia.
    + discriminate.
    + discriminate.
    + rewrite save_if_long_spec. case_match; [| exact Hws].
      apply List.Forall_app. split; [exact Hws | constructor; [cbn; lia | constructor]].
    + rewrite save_if_long_spec. case_match; [| exact Hwo'].
      apply List.Forall_app. split; [exact Hwo' | constructor; [cbn; lia | constructor]].
    + rewrite save_if_long_spec. case_match; [| exact Hwl].
      apply List.Forall_app. split; [exact Hwl | constructor; [cbn; lia | constructor]].
    + rewrite (replay_snoc _ _ _ _ Hrep). reflexivity.
    + apply List.Forall_app. split; [exact Hjust | constructor; [exact Ex | constructor]].
    + rewrite List.map_app. cbn [map transition_frame].
      apply strongly_sorted_snoc; [exact Hsort | exact Hbelow].
    + apply List.Forall_app. split; [exact Hbound' | constructor; [cbn; lia | constructor]].
  - (* still quiet *)
    apply (scene_inv_keep thr fps s k d); try reflexivity;
      [exact Hinv | cbn; congruence |].
    right. discriminate.
  - (* the comparison raises *)
    apply (scene_inv_keep thr fps s k d); try reflexivity; [exact Hinv |].
    right. discriminate.
Qed.

(** The invariant survives the loop, also when a failed read ends it. *)
Lemma frame_loop_inv crop_rect thr fps s n : forall a e cap d,
  Z.of_nat n = Z.max 0 (e - a) ->
  scene_inv thr fps s a d ->
  exists k, a <= k <= Z.max a e /\
    scene_inv thr fps s k (snd (frame_loop crop_rect thr fps (Py.range a e) cap d)).
Proof.
  induction n as [| n IH]; intros a e cap d Hn Hinv.
  - rewrite range_nil by lia. exists a. split; [lia | exact Hinv].
  - rewrite range_cons by lia. cbn [frame_loop].
    destruct (cap_read cap) as [[frame |] cap'].
    + cbv zeta. destruct (raised (step thr fps a (crop crop_rect frame) d)).
      * exists (a + 1). split; [lia | apply scene_inv_step, Hinv].
      * destruct (IH (a + 1) e cap' (step thr fps a (crop crop_rect frame) d))
          as [k [Hk Hi]].
        -- lia.
        -- apply scene_inv_step, Hinv.
        -- exists k. split; [lia | exact Hi].
    + exists a. split; [lia | exact Hinv].
Qed.

Lemma scene_run_inv crop_rect thr fps cap s e :
  exists k, s <= k <= Z.max s e /\
    scene_inv thr fps s k (snd (fst (scene_run crop_rect thr fps cap (s, e)))).
Proof.
  unfold scene_run.
  destruct (frame_loop_inv crop_rect thr fps s (Z.to_nat (Z.max 0 (e - s))) s e
              (cap_set cap s) fresh ltac:(lia) (scene_inv_fresh thr fps s)) as [k [Hk Hi]].
  destruct (frame_loop _ _ _ _ _ _) as [cap' d] eqn:E. cbn in *.
  exists k. split; [exact Hk | exact Hi].
Qed.

(** * The claims about the detector *)

(** C1: in state OPEN, a frame whose score is at most the threshold closes
    the interval at the previous frame number; the interval is written
    exactly when it is longer than [min_duration_frames], with the image
    retained from the previous step, and the detector is IDLE afterwards
    either way.  Scenario A: a 50-frame scene at 25 fps, changing from
    frame 10 and stable from frame 30, writes exactly the interval 10..29
    with the sub-region of frame 29. *)
Theorem close_on_stable_frame :
  (forall (change_threshold fps : Q) (frame_number : Z) (sub_region last : Frame)
          (d : Detector),
      (0 <= fps)%Q ->
      subtitle_present d = true ->
      last_img d = Some last ->
      exceeds (np_sum (absdiff sub_region last)) change_threshold = Ok false ->
      let d' := step change_threshold fps frame_number sub_region d in
      subtitle_present d' = false /\
      written d' =
        if (frame_number - 1) - subtitle_start_frame d >? min_duration_frames fps
        then (written d ++ [{| start_frame := subtitle_start_frame d;
                               end_frame := frame_number - 1;
                               representative_image := last |}])%list
        else written d) /\
  (forall (crop_rect : Rect) (change_threshold : Q) (cap : Capture),
      50 <= Z.of_nat (List.length (cap_frames cap)) ->
      (forall k, 1 <= k < 10 ->
         exceeds (diff_score_at crop_rect (cap_frames cap) k) change_threshold = Ok false) ->
      (forall k, 10 <= k < 30 ->
         exceeds (diff_score_at crop_rect (cap_frames cap) k) change_threshold = Ok true) ->
      (forall k, 30 <= k < 50 ->
         exceeds (diff_score_at crop_rect (cap_frames cap) k) change_threshold = Ok false) ->
      process_scene crop_rect change_threshold (inject_Z 25) cap (0, 50) =
        [{| start_frame := 10; end_frame := 29;
            representative_image := sub_region_at crop_rect (cap_frames cap) 29 |}]).
Proof.
  split.
  - intros thr fps n img last d Hfps Hp Hl He d'. subst d'.
    rewrite (step_closes thr fps n img last d Hl Hp He). cbn.
    split; [reflexivity |].
    rewrite save_if_long_spec, (min_duration_nonneg_rate fps Hfps). reflexivity.
  - intros crop_rect thr cap Hlen Hq1 Hb Hq2.
    set (frames := cap_frames cap) in *.
    unfold process_scene, scene_run.
    change (cap_set cap 0) with (cap_at frames 0).
    erewrite (loop_step_to crop_rect thr _ frames 0 50 fresh);
      [| lia | lia | apply step_seed; reflexivity | reflexivity].
    rewrite (loop_steady crop_rect thr _ frames false false 9 1 10 50)
      by (first [lia | reflexivity | exact Hq1]).
    erewrite (loop_step_to crop_rect thr _ frames 10 50);
      [| lia | lia
       | apply (step_opens thr _ 10 _ (sub_region_at crop_rect frames 9));
         [reflexivity | reflexivity | exact (Hb 10 ltac:(lia))]
       | reflexivity].
    rewrite (loop_steady crop_rect thr _ frames true true 19 11 30 50)
      by (first [lia | reflexivity | intros k Hk; apply Hb; lia]).
    erewrite (loop_step_to crop_rect thr _ frames 30 50);
      [| lia | lia
       | apply (step_closes thr _ 30 _ (sub_region_at crop_rect frames 29));
         [reflexivity | reflexivity | exact (Hq2 30 ltac:(lia))]
       | reflexivity].
    rewrite (loop_steady crop_rect thr _ frames false false 19 31 50 50)
      by (first [lia | reflexivity | intros k Hk; apply Hq2; lia]).
    rewrite loop_done by lia.
    reflexivity.
Qed.

Lemma flush_spec fps e d last :
  subtitle_present d = true -> last_img d = Some last ->
  flush fps e d =
    if (e - 1) - subtitle_start_frame d >? min_duration fps
    then (written d ++ [{| start_frame := subtitle_start_frame d; end_frame := e - 1;
                           representative_image := last |}])%list
    else written d.
Proof.
  intros Hp Hl. unfold flush. rewrite Hp, Hl. apply save_if_long_spec.
Qed.

Lemma flush_idle fps e d : subtitle_present d = false -> flush fps e d = written d.
Proof. intros Hp. unfold flush. rewrite Hp. reflexivity. Qed.

(** C2: when the frame loop of a scene ends with an interval open, the
    interval is closed at [scene_end - 1], passes the same duration check,
    and is written with the retained image; an open detector always has a
    retained image, so the flush is never skipped.  Scenario B: a change
    from frame 5 to the end of a scene ending at frame 20 writes the
    interval 5..19 (at any frame rate whose minimum duration is below
    14 frames). *)
Theorem end_of_scene_flush :
  (forall (crop_rect : Rect) (change_threshold fps : Q) (cap cap' : Capture)
          (scene_start scene_end : Z) (d : Detector) (out : list SubtitleInterval),
      (0 <= fps)%Q ->
      scene_run crop_rect change_threshold fps cap (scene_start, scene_end) = (cap', d, out) ->
      raised d = None ->
      subtitle_present d = true ->
      exists last,
        last_img d = Some last /\
        out =
          if (scene_end - 1) - subtitle_start_frame d >? min_duration_frames fps
          then (written d ++ [{| start_frame := subtitle_start_frame d;
                                 end_frame := scene_end - 1;
                                 representative_image := last |}])%list
          else written d) /\
  (forall (crop_rect : Rect) (change_threshold fps : Q) (cap : Capture) (scene_start : Z),
      (0 <= fps)%Q ->
      min_duration_frames fps < 14 ->
      0 <= scene_start < 5 ->
      20 <= Z.of_nat (List.length (cap_frames cap)) ->
      (forall k, scene_start < k < 5 ->
         exceeds (diff_score_at crop_rect (cap_frames cap) k) change_threshold = Ok false) ->
      (forall k, 5 <= k < 20 ->
         exceeds (diff_score_at crop_rect (cap_frames cap) k) change_threshold = Ok true) ->
      process_scene crop_rect change_threshold fps cap (scene_start, 20) =
        [{| start_frame := 5; end_frame := 19;
            representative_image := sub_region_at crop_rect (cap_frames cap) 19 |}]).
Proof.
  split.
  - intros crop_rect thr fps cap cap' s e d out Hfps Hrun Hr Hp.
    destruct (scene_run_inv crop_rect thr fps cap s e) as [k [_ Hinv]].
    rewrite Hrun in Hinv. cbn in Hinv.
    destruct (last_img d) as [last |] eqn:El.
    2: { exfalso. exact (inv_seeded _ _ _ _ _ Hinv Hp El). }
    exists last. split; [reflexivity |].
    unfold scene_run in Hrun.
    destruct (frame_loop _ _ _ _ _ _) as [c0 d0]. injection Hrun as _ -> <-.
    rewrite Hr, (flush_spec fps e d last Hp El), (min_duration_nonneg_rate fps Hfps).
    reflexivity.
  - intros crop_rect thr fps cap s Hfps Hmin Hs Hlen Hq Hb.
    set (frames := cap_frames cap) in *.
    unfold process_scene, scene_run.
    change (cap_set cap s) with (cap_at frames s).
    erewrite (loop_step_to crop_rect thr _ frames s 20 fresh);
      [| lia | lia | apply step_seed; reflexivity | reflexivity].
    rewrite (loop_steady crop_rect thr _ frames false false (Z.to_nat (4 - s)) (s + 1) 5 20);
      [ | lia | lia | lia | lia | cbn; do 2 f_equal; lia | reflexivity | reflexivity
        | reflexivity | intros k Hk; apply Hq; lia ].
    erewrite (loop_step_to crop_rect thr _ frames 5 20);
      [| lia | lia
       | apply (step_opens thr _ 5 _ (sub_region_at crop_rect frames 4));
         [reflexivity | reflexivity | exact (Hb 5 ltac:(lia))]
       | reflexivity].
    rewrite (loop_steady crop_rect thr _ frames true true 14 6 20 20)
      by (first [lia | reflexivity | intros k Hk; apply Hb; lia]).
    rewrite loop_done by lia.
    cbn [snd raised with_last].
    rewrite (flush_spec _ _ _ (sub_region_at crop_rect frames 19)) by reflexivity.
    cbn [subtitle_start_frame with_last written].
    rewrite (min_duration_nonneg_rate fps Hfps).
    destruct (20 - 1 - 5 >? min_duration_frames fps) eqn:E; [reflexivity | lia].
Qed.

(** C3 (debounce law): a candidate interval with
    [end_frame - start_frame <= floor(fps * 0.2)] is not written, neither
    by a close in mid-scene nor by the end-of-scene flush; every interval
    a scene writes is longer than that. *)
Theorem debounce_law (change_threshold fps : Q) :
  (forall (frame_number : Z) (sub_region last : Frame) (d : Detector),
      subtitle_present d = true ->
      last_img d = Some last ->
      exceeds (np_sum (absdiff sub_region last)) change_threshold = Ok false ->
      (frame_number - 1) - subtitle_start_frame d <= min_duration_frames fps ->
      written (step change_threshold fps frame_number sub_region d) = written d) /\
  (forall (scene_end : Z) (d : Detector),
      (scene_end - 1) - subtitle_start_frame d <= min_duration_frames fps ->
      flush fps scene_end d = written d) /\
  (forall (crop_rect : Rect) (cap : Capture) (scene : Z * Z),
      Forall (fun iv => end_frame iv - start_frame iv > min_duration_frames fps)
             (process_scene crop_rect change_threshold fps cap scene)).
Proof.
  pose proof (min_duration_frames_le fps) as Hle.
  split; [| split].
  - intros n img last d Hp Hl He Hshort.
    rewrite (step_closes _ fps n img last d Hl Hp He). cbn.
    rewrite save_if_long_spec.
    destruct (n - 1 - subtitle_start_frame d >? min_duration fps) eqn:E; [lia | reflexivity].
  - intros e d Hshort. unfold flush.
    destruct (subtitle_present d), (last_img d); try reflexivity.
    rewrite save_if_long_spec.
    destruct (e - 1 - subtitle_start_frame d >? min_duration fps) eqn:E; [lia | reflexivity].
  - intros crop_rect cap [s e].
    destruct (scene_run_inv crop_rect change_threshold fps cap s e) as [k [_ Hinv]].
    unfold process_scene. unfold scene_run in *.
    destruct (frame_loop _ _ _ _ _ _) as [c0 d0]. cbn [fst snd] in *.
    assert (Hw : Forall (fun iv => end_frame iv - start_frame iv > min_duration_frames fps)
                        (written d0)).
    { generalize (inv_written_long _ _ _ _ _ Hinv). apply List.Forall_impl. intros; lia. }
    destruct (raised d0); [exact Hw |].
    unfold flush. destruct (subtitle_present d0), (last_img d0); try exact Hw.
    rewrite save_if_long_spec. case_match; [| exact Hw].
    apply List.Forall_app. split; [exact Hw | constructor; [cbn [start_frame end_frame]; lia | constructor]].
Qed.

(** C8 (alternation): in every scene the assignments to the state
    alternate, starting from IDLE: an interval is opened only while none is
    open, closed only while one is open; each opening is taken on a score
    above the threshold, each closing on a score at most the threshold,
    and the transitions happen at strictly increasing frames. *)
Theorem state_alternation
    (crop_rect : Rect) (change_threshold fps : Q) (cap : Capture) (scene : Z * Z) :
  let d := snd (fst (scene_run crop_rect change_threshold fps cap scene)) in
  replay false (trace d) = Some (subtitle_present d) /\
  Forall (justified change_threshold) (trace d) /\
  StronglySorted Z.lt (map transition_frame (trace d)).
Proof.
  destruct scene as [s e].
  destruct (scene_run_inv crop_rect change_threshold fps cap s e) as [k [_ Hinv]].
  cbv zeta. split; [| split].
  - apply (inv_replay _ _ _ _ _ Hinv).
  - apply (inv_justified _ _ _ _ _ Hinv).
  - apply (inv_sorted _ _ _ _ _ Hinv).
Qed.

(** C10: the first frame of a scene is never compared, it only becomes the
    retained image; so no interval opens on it, and every interval a scene
    writes starts strictly after the first frame of the scene. *)
Theorem no_interval_on_first_frame :
  (forall (change_threshold fps : Q) (frame_number : Z) (sub_region : Frame),
      step change_threshold fps frame_number sub_region fresh = with_last sub_region fresh) /\
  (forall (crop_rect : Rect) (change_threshold fps : Q) (cap : Capture) (scene : Z * Z),
      Forall (fun t => fst scene < transition_frame t)
             (trace (snd (fst (scene_run crop_rect change_threshold fps cap scene))))) /\
  (forall (crop_rect : Rect) (change_threshold fps : Q) (cap : Capture) (scene : Z * Z),
      Forall (fun iv => fst scene < start_frame iv)
             (process_scene crop_rect change_threshold fps cap scene)).
Proof.
  split; [| split].
  - intros. apply step_seed. reflexivity.
  - intros crop_rect thr fps cap [s e].
    destruct (scene_run_inv crop_rect thr fps cap s e) as [k [_ Hinv]].
    generalize (inv_bound _ _ _ _ _ Hinv). apply List.Forall_impl. cbn [fst]. intros; lia.
  - intros crop_rect thr fps cap [s e].
    destruct (scene_run_inv crop_rect thr fps cap s e) as [k [_ Hinv]].
    unfold process_scene. unfold scene_run in *.
    destruct (frame_loop _ _ _ _ _ _) as [c0 d0]. cbn [fst snd] in *.
    pose proof (inv_written_start _ _ _ _ _ Hinv) as Hw.
    destruct (raised d0); [exact Hw |].
    unfold flush. destruct (subtitle_present d0) eqn:Ep, (last_img d0); try exact Hw.
    rewrite save_if_long_spec. case_match; [| exact Hw].
    pose proof (inv_start _ _ _ _ _ Hinv Ep).
    apply List.Forall_app. split; [exact Hw | constructor; [cbn [start_frame end_frame]; lia | constructor]].
Qed.

(** * Properties of the timestamp codec *)

Lemma frames_to_time_str_fields f fps :
  frames_to_time_str f fps =
    match time_fields f fps with
    | Ok fields => Ok (underscore_form fields)
    | Raise e => Raise e
    end.
Proof.
  unfold frames_to_time_str, time_fields, underscore_form.
  destruct (Py.truediv _ _) as [seconds | e]; [| reflexivity].
  destruct (Py.modf seconds) as [frac whole].
  destruct (Py.timedelta whole) as [t | e]; [| reflexivity].
  destruct (Py.int_float _) as [ms | e]; reflexivity.
Qed.

(** Sample values of the codec and of the parser. *)

Example encode_frame_10_at_25 : frames_to_time_str 10 (inject_Z 25) = Ok "00_00_00_400".
Proof. vm_compute. reflexivity. Qed.

Example encode_frame_50_at_25 : frames_to_time_str 50 (inject_Z 25) = Ok "00_00_02_000".
Proof. vm_compute. reflexivity. Qed.

Example encode_one_hour_at_30 : frames_to_time_str 108000 (inject_Z 30) = Ok "01_00_00_000".
Proof. vm_compute. reflexivity. Qed.

Example encode_beyond_timedelta :
  frames_to_time_str (86400 * 1000000000) 1 = Raise OverflowError.
Proof. vm_compute. reflexivity. Qed.

(** The quotient 29 / 25 is the float just below 1.16, its fractional
    part times 1000 the float just below 160: the milliseconds are 159. *)
Example encode_frame_29_at_25 : frames_to_time_str 29 (inject_Z 25) = Ok "00_00_01_159".
Proof. vm_compute. reflexivity. Qed.

(** The float nearest to one tenth is above it; the quotient of 36000 and
    that float is below 360000 and rounds to 360000. *)
Example encode_rounds_up_to_100h :
  (inject_Z 36000 / (3602879701896397 # 36028797018963968) < inject_Z 360000)%Q /\
  frames_to_time_str 36000 (3602879701896397 # 36028797018963968) = Ok "100_00_00_000".
Proof. split; vm_compute; reflexivity. Qed.

Example parse_sample_name :
  srt_times "00_00_00_400__00_00_02_000.png" = Ok ("00:00:00,400", "00:00:02,000").
Proof. reflexivity. Qed.

Example parse_without_separator : srt_times "frame.png" = Raise IndexError.
Proof. reflexivity. Qed.

Example split_overlapping : Py.split "__" "a___b____c__" = ["a"; "_b"; ""; "c"; ""].
Proof. reflexivity. Qed.

Example format_negative : Py.format_0d 3 (-7) = "-07" /\ Py.format_0d 2 (-7) = "-7".
Proof. split; reflexivity. Qed.

(** ** Binary64 rounding *)

Section Binary64.

Import F64.

Local Open Scope Q_scope.

Lemma two_neq_0 : ~ 2 == 0.
Proof. discriminate. Qed.

Lemma pow2_pos e : 0 < pow2 e.
Proof. apply Qpower_0_lt. reflexivity. Qed.

Lemma pow2_add a b : pow2 (a + b) == pow2 a * pow2 b.
Proof. apply Qpower_plus, two_neq_0. Qed.

Lemma pow2_sub a b : pow2 (a - b) == pow2 a / pow2 b.
Proof. apply Qpower_minus, two_neq_0. Qed.

Lemma pow2_le a b : (a <= b)%Z -> pow2 a <= pow2 b.
Proof. intros H. apply Qpower_le_compat_l; [exact H | discriminate]. Qed.

Lemma pow2_lt a b : (a < b)%Z -> pow2 a < pow2 b.
Proof. intros H. apply Qpower_lt_compat_l; [exact H | reflexivity]. Qed.

Lemma pow2_Z a : (0 <= a)%Z -> pow2 a == inject_Z (2 ^ a).
Proof. intros H. unfold pow2. rewrite Zpower_Qpower by exact H. reflexivity. Qed.

Lemma ilog2_spec x : 0 < x -> pow2 (ilog2 x) <= x /\ x < pow2 (ilog2 x + 1).
Proof.
  intros Hx. destruct x as [n d]. unfold ilog2. cbn [Qnum Qden].
  assert (Hn : (0 < n)%Z) by (unfold Qlt in Hx; cbn in Hx; lia).
  set (a := Z.log2 n). set (b := Z.log2 (Z.pos d)).
  destruct (Z.log2_spec n Hn) as [Ha1 Ha2]. fold a in Ha1, Ha2.
  destruct (Z.log2_spec (Z.pos d) ltac:(lia)) as [Hb1 Hb2]. fold b in Hb1, Hb2.
  assert (Ha0 : (0 <= a)%Z) by apply Z.log2_nonneg.
  assert (Hb0 : (0 <= b)%Z) by apply Z.log2_nonneg.
  assert (Hx' : n # d == inject_Z n / inject_Z (Z.pos d)) by apply Qmake_Qdiv.
  assert (Hd : 0 < inject_Z (Z.pos d)) by reflexivity.
  assert (Hlow : pow2 (a - b - 1) <= n # d).
  { replace (a - b - 1)%Z with (a - (b + 1))%Z by lia.
    rewrite pow2_sub, !pow2_Z by lia. rewrite Hx'.
    apply Qle_shift_div_l; [exact Hd |].
    unfold Qdiv. rewrite <- Qmult_assoc, (Qmult_comm (/ _)), Qmult_assoc.
    apply Qle_shift_div_r.
    - rewrite <- pow2_Z by lia. apply pow2_pos.
    - rewrite <- !inject_Z_mult, <- Zle_Qle.
      replace (b + 1)%Z with (Z.succ b) in * by lia. nia. }
  assert (Hup : n # d < pow2 (a - b + 1)).
  { replace (a - b + 1)%Z with ((a + 1) - b)%Z by lia.
    rewrite pow2_sub, !pow2_Z by lia. rewrite Hx'.
    apply Qlt_shift_div_r; [exact Hd |].
    unfold Qdiv. rewrite <- Qmult_assoc, (Qmult_comm (/ _)), Qmult_assoc.
    apply Qlt_shift_div_l.
    - rewrite <- pow2_Z by lia. apply pow2_pos.
    - rewrite <- !inject_Z_mult, <- Zlt_Qlt.
      replace (a + 1)%Z with (Z.succ a) in * by lia. nia. }
  destruct (Qle_bool (pow2 (a - b)) (n # d)) eqn:E.
  - apply Qle_bool_iff in E. split; [exact E | exact Hup].
  - split; [exact Hlow |].
    replace (a - b - 1 + 1)%Z with (a - b)%Z by lia.
    apply Qnot_le_lt. intros H. apply Qle_bool_iff in H. congruence.
Qed.

Lemma ilog2_mono x y : 0 < x -> x <= y -> (ilog2 x <= ilog2 y)%Z.
Proof.
  intros Hx Hxy. destruct (ilog2_spec x Hx) as [H1 _].
  destruct (ilog2_spec y ltac:(lra)) as [_ H2].
  destruct (Z_le_gt_dec (ilog2 x) (ilog2 y)) as [H | H]; [exact H | exfalso].
  pose proof (pow2_le (ilog2 y + 1) (ilog2 x) ltac:(lia)). lra.
Qed.

(** [rne] is the floor or the next integer. *)
Lemma rne_cases x : rne x = Qfloor x \/ rne x = (Qfloor x + 1)%Z.
Proof.
  unfold rne. destruct (Qcompare _ _); [destruct (Z.even _) | |]; auto.
Qed.

Lemma rne_Z n : rne (inject_Z n) = n.
Proof.
  unfold rne. rewrite Qfloor_Z.
  destruct (Qcompare (inject_Z n - inject_Z n) (1 # 2)) eqn:C;
    [apply Qeq_alt in C; lra | reflexivity | apply Qgt_alt in C; lra].
Qed.

Lemma rne_mono x y : x <= y -> (rne x <= rne y)%Z.
Proof.
  intros Hxy. pose proof (Qfloor_resp_le _ _ Hxy) as Hf.
  destruct (Z_lt_le_dec (Qfloor x) (Qfloor y)) as [Hlt | Hge].
  - destruct (rne_cases x) as [-> | ->], (rne_cases y) as [-> | ->]; lia.
  - assert (E : Qfloor y = Qfloor x) by lia.
    unfold rne. rewrite E.
    assert (Hr : x - inject_Z (Qfloor x) <= y - inject_Z (Qfloor x)) by lra.
    destruct (Qcompare (x - inject_Z (Qfloor x)) (1 # 2)) eqn:Cx;
      destruct (Qcompare (y - inject_Z (Qfloor x)) (1 # 2)) eqn:Cy;
      try (destruct (Z.even (Qfloor x)); lia); try lia; exfalso.
    + apply Qeq_alt in Cx. apply Qlt_alt in Cy. lra.
    + apply Qgt_alt in Cx. apply Qeq_alt in Cy. lra.
    + apply Qgt_alt in Cx. apply Qlt_alt in Cy. lra.
Qed.

Lemma rne_le_Z x n : x <= inject_Z n -> (rne x <= n)%Z.
Proof. intros H. rewrite <- (rne_Z n). apply rne_mono, H. Qed.

Lemma rne_ge_Z x n : inject_Z n <= x -> (n <= rne x)%Z.
Proof. intros H. rewrite <- (rne_Z n). apply rne_mono, H. Qed.

Lemma round_pos_rounded x :
  round_pos x =
    if Qle_bool (pow2 1024) (rounded x) then Infinity false
    else Finite (Qred (rounded x)).
Proof.
  unfold round_pos. cbv zeta.
  assert (E : Qle_bool (pow2 1024) (Qred (rounded x)) = Qle_bool (pow2 1024) (rounded x)).
  { apply eq_true_iff_eq. rewrite !Qle_bool_iff, Qred_correct. reflexivity. }
  rewrite E. reflexivity.
Qed.

Lemma inject_Z_nonneg n : (0 <= n)%Z -> 0 <= inject_Z n.
Proof. intros H. unfold Qle. cbn. lia. Qed.

Lemma rounded_nonneg x : 0 <= x -> 0 <= rounded x.
Proof.
  intros Hx. unfold rounded.
  pose proof (pow2_pos (ulp_exponent x)) as Hp.
  apply Qmult_le_0_compat; [| lra].
  apply inject_Z_nonneg, rne_ge_Z.
  apply Qle_shift_div_l; [exact Hp |]. change (inject_Z 0) with 0. lra.
Qed.

Lemma rounded_zero x : x == 0 -> rounded x == 0.
Proof.
  intros Hx. unfold rounded.
  generalize (pow2 (ulp_exponent x)). intros p.
  assert (E : rne (x / p) = 0%Z).
  { assert (Hq : x / p == 0) by (rewrite Hx; unfold Qdiv; ring).
    assert (rne (x / p) <= 0)%Z
      by (apply rne_le_Z; change (inject_Z 0) with 0; lra).
    assert (0 <= rne (x / p))%Z
      by (apply rne_ge_Z; change (inject_Z 0) with 0; lra).
    lia. }
  rewrite E. ring.
Qed.

(** Rounding keeps the order. *)
Lemma rounded_mono x y : 0 <= x -> x <= y -> rounded x <= rounded y.
Proof.
  intros Hx Hxy.
  destruct (Qlt_le_dec 0 x) as [Hpos | Hzero].
  2:{ rewrite (rounded_zero x) by lra. apply rounded_nonneg. lra. }
  pose proof (ilog2_mono x y Hpos Hxy) as Hlog.
  assert (Hy : 0 < y) by lra.
  destruct (ilog2_spec x Hpos) as [Hx1 Hx2].
  destruct (ilog2_spec y Hy) as [Hy1 Hy2].
  unfold rounded.
  set (ex := ulp_exponent x). set (ey := ulp_exponent y).
  pose proof (pow2_pos ex) as Hpx. pose proof (pow2_pos ey) as Hpy.
  assert (Hle : (ex <= ey)%Z) by (subst ex ey; unfold ulp_exponent; lia).
  destruct (Z.eq_dec ex ey) as [E | Hne].
  - rewrite E. apply Qmult_le_compat_r; [| lra].
    rewrite <- Zle_Qle. apply rne_mono.
    apply Qle_shift_div_l; [exact Hpy |].
    unfold Qdiv. rewrite <- Qmult_assoc, (Qmult_comm (/ _)), Qmult_inv_r, Qmult_1_r by lra.
    exact Hxy.
  - assert (Hey : ey = (ilog2 y - 52)%Z) by (subst ex ey; unfold ulp_exponent in *; lia).
    assert (Hlt : (ex < ilog2 y - 52)%Z) by lia.
    assert (Hlogs : (ilog2 x < ilog2 y)%Z) by (subst ex ey; unfold ulp_exponent in *; lia).
    apply Qle_trans with (pow2 (ilog2 y)).
    + (* the smaller one stays below the power of two between them *)
      assert (Hx3 : x <= pow2 (ilog2 y)).
      { pose proof (pow2_le (ilog2 x + 1) (ilog2 y) ltac:(lia)). lra. }
      assert (Hk : pow2 (ilog2 y) == inject_Z (2 ^ (ilog2 y - ex)) * pow2 ex).
      { rewrite <- pow2_Z by lia. rewrite <- pow2_add.
        replace (ilog2 y - ex + ex)%Z with (ilog2 y) by lia. reflexivity. }
      rewrite Hk. apply Qmult_le_compat_r; [| lra].
      rewrite <- Zle_Qle. apply rne_le_Z.
      apply Qle_shift_div_r; [exact Hpx |]. rewrite <- Hk. exact Hx3.
    + assert (Hk : pow2 (ilog2 y) == inject_Z (2 ^ 52) * pow2 ey).
      { rewrite <- pow2_Z by lia. rewrite <- pow2_add. rewrite Hey.
        replace (52 + (ilog2 y - 52))%Z with (ilog2 y) by lia. reflexivity. }
      rewrite Hk. apply Qmult_le_compat_r; [| lra].
      rewrite <- Zle_Qle. apply rne_ge_Z.
      apply Qle_shift_div_l; [exact Hpy |]. rewrite <- Hk. exact Hy1.
Qed.

(** Rounding a real that is not negative. *)
Lemma round_nonneg y :
  0 <= y ->
  (round y = Infinity false /\ pow2 1024 <= rounded y) \/
  (exists x, round y = Finite x /\ x == rounded y /\ rounded y < pow2 1024).
Proof.
  intros Hy. unfold round.
  destruct (Qcompare y 0) eqn:C.
  - apply Qeq_alt in C. right. exists 0. split; [reflexivity |].
    rewrite (rounded_zero y C). split; [reflexivity | apply pow2_pos].
  - apply Qlt_alt in C. lra.
  - rewrite round_pos_rounded. destruct (Qle_bool (pow2 1024) (rounded y)) eqn:E.
    + left. apply Qle_bool_iff in E. split; [reflexivity | exact E].
    + right. exists (Qred (rounded y)). split; [reflexivity |].
      split; [apply Qred_correct |].
      apply Qnot_le_lt. intros H. apply Qle_bool_iff in H. congruence.
Qed.

Lemma round_mono x y : 0 <= x -> x <= y -> le (round x) (round y).
Proof.
  intros Hx Hxy. pose proof (rounded_mono x y Hx Hxy) as Hm.
  destruct (round_nonneg x Hx) as [[-> Hbx] | [a [-> [Ea Hbx]]]];
    destruct (round_nonneg y ltac:(lra)) as [[-> Hby] | [b [-> [Eb Hby]]]]; cbn.
  - exact I.
  - lra.
  - exact I.
  - lra.
Qed.

(** Below a finite value the rounding is finite. *)
Lemma round_finite_le x y b :
  0 <= x -> x <= y -> round y = Finite b ->
  exists a, round x = Finite a /\ 0 <= a /\ a <= b.
Proof.
  intros Hx Hxy Hb. pose proof (round_mono x y Hx Hxy) as Hle. rewrite Hb in Hle.
  pose proof (rounded_nonneg x Hx) as Hn.
  destruct (round_nonneg x Hx) as [[E _] | [a [E [Ea _]]]]; rewrite E in Hle; cbn in Hle.
  - contradiction.
  - exists a. split; [exact E |]. split; [lra | exact Hle].
Qed.

Lemma pow2_m53 : pow2 (-53) == 1 # 9007199254740992.
Proof. vm_compute. reflexivity. Qed.

Lemma pow2_m1 : pow2 (-1) == 1 # 2.
Proof. vm_compute. reflexivity. Qed.

Lemma pow2_0 : pow2 0 == 1.
Proof. reflexivity. Qed.

Lemma rounded_half : rounded (1 # 2) == 1 # 2.
Proof. vm_compute. reflexivity. Qed.

Lemma Qfloor_unit x : 0 <= x -> x < 1 -> Qfloor x = 0%Z.
Proof.
  intros H0 H1.
  pose proof (Qfloor_resp_le _ _ H0) as Ha. change (Qfloor 0) with 0%Z in Ha.
  pose proof (Qfloor_le x) as Hb.
  assert (Hc : inject_Z (Qfloor x) < inject_Z 1) by (change (inject_Z 1) with 1; lra).
  rewrite <- Zlt_Qlt in Hc. lia.
Qed.

(** A binary64 value that is not negative has its fractional part on
    a grid of [2^-53] at the finest: it is at most [1 - 2^-53]. *)
Lemma rounded_frac y :
  0 <= y -> rounded y - inject_Z (Qfloor (rounded y)) <= 1 - pow2 (-53).
Proof.
  intros Hy.
  pose proof (rounded_nonneg y Hy) as Hr0.
  pose proof pow2_m53 as H53.
  destruct (Qlt_le_dec 0 y) as [Hpos | Hzero].
  2:{ assert (E : rounded y == 0) by (apply rounded_zero; lra).
      rewrite (Qfloor_comp _ _ E). change (Qfloor 0) with 0%Z. rewrite E.
      change (inject_Z 0) with 0. lra. }
  destruct (Z_lt_le_dec (ulp_exponent y) (-53)) as [Hsmall | Hbig].
  - (* below one half *)
    destruct (ilog2_spec y Hpos) as [_ Hup].
    assert (Hlog : (ilog2 y + 1 <= -1)%Z) by (unfold ulp_exponent in Hsmall; lia).
    pose proof (pow2_le _ _ Hlog) as Hp. pose proof pow2_m1 as Hh.
    pose proof (rounded_mono y (1 # 2) Hy ltac:(lra)) as Hm.
    pose proof rounded_half as Hrh.
    rewrite (Qfloor_unit (rounded y)) by lra.
    change (inject_Z 0) with 0. lra.
  - set (m := rne (y / pow2 (ulp_exponent y))).
    set (E := ulp_exponent y) in *.
    assert (Hr : rounded y == inject_Z m * pow2 E) by reflexivity.
    destruct (Z_le_gt_dec 0 E) as [Hint | Hneg].
    + (* an integer *)
      assert (Hi : rounded y == inject_Z (m * 2 ^ E)).
      { rewrite Hr, inject_Z_mult, pow2_Z by lia. reflexivity. }
      rewrite (Qfloor_comp _ _ Hi), Qfloor_Z, Hi. lra.
    + set (P := (2 ^ (- E))%Z).
      assert (HP : (0 < P)%Z) by (subst P; apply Z.pow_pos_nonneg; lia).
      assert (HPE : inject_Z P * pow2 E == 1).
      { subst P. rewrite <- pow2_Z by lia. rewrite <- pow2_add.
        replace (- E + E)%Z with 0%Z by lia. reflexivity. }
      assert (HPq : 0 < inject_Z P) by (rewrite (Zlt_Qlt 0) in HP; exact HP).
      pose proof (pow2_pos E) as HpE.
      set (r := rounded y) in *. set (q := Qfloor r).
      pose proof (Qlt_floor r) as Hlt. fold q in Hlt.
      rewrite inject_Z_plus in Hlt. change (inject_Z 1) with 1 in Hlt.
      assert (HrP : r * inject_Z P == inject_Z m).
      { rewrite Hr, <- Qmult_assoc, (Qmult_comm (pow2 E)), HPE. ring. }
      assert (Hz : (m < (q + 1) * P)%Z).
      { rewrite Zlt_Qlt, inject_Z_mult, inject_Z_plus, <- HrP.
        change (inject_Z 1) with 1.
        apply Qmult_lt_compat_r; [exact HPq | lra]. }
      assert (Hz' : (m + 1 <= (q + 1) * P)%Z) by lia.
      rewrite Zle_Qle, inject_Z_mult, !inject_Z_plus, <- HrP in Hz'.
      change (inject_Z 1) with 1 in Hz'.
      assert (Hd : (r - inject_Z q) * inject_Z P <= (1 - pow2 E) * inject_Z P).
      { lra. }
      apply Qmult_le_r in Hd; [| exact HPq].
      pose proof (pow2_le (-53) E Hbig). lra.
Qed.

End Binary64.

(** ** The arithmetic of the codec on a time that is not negative *)

Lemma int_inject_Z n : Py.int (inject_Z n) = n.
Proof. unfold Py.int. cbn. apply Z.quot_1_r. Qed.

Lemma frac_small_round y x :
  (0 <= y)%Q -> F64.round y = F64.Finite x -> (0 <= x)%Q /\ frac_small x.
Proof.
  intros Hy Hr.
  destruct (round_nonneg y Hy) as [[E _] | [x' [E [Ex _]]]]; rewrite E in Hr; [discriminate |].
  injection Hr as <-.
  pose proof (rounded_nonneg y Hy) as H0. pose proof (rounded_frac y Hy) as Hf.
  split; [rewrite Ex; exact H0 |].
  unfold frac_small. rewrite (Qfloor_comp _ _ Ex), Ex. exact Hf.
Qed.

Lemma frac_range x : (0 <= x - inject_Z (Qfloor x))%Q /\ (x - inject_Z (Qfloor x) < 1)%Q.
Proof.
  pose proof (Qfloor_le x). pose proof (Qlt_floor x) as H1.
  rewrite inject_Z_plus in H1. change (inject_Z 1) with 1%Q in H1. split; lra.
Qed.

Lemma round_largest_frac :
  F64.round (9007199254740991000 # 9007199254740992) =
    F64.Finite (8796093022207999 # 8796093022208).
Proof. vm_compute. reflexivity. Qed.

Lemma Qfloor_range a (n : Z) : (0 <= a)%Q -> (a < inject_Z n)%Q -> 0 <= Qfloor a < n.
Proof.
  intros H0 H1. split.
  - apply (Qfloor_resp_le 0 a H0).
  - pose proof (Qfloor_le a) as Hl.
    assert (Hc : (inject_Z (Qfloor a) < inject_Z n)%Q) by lra.
    rewrite <- Zlt_Qlt in Hc. exact Hc.
Qed.

Lemma millis_spec x :
  (0 <= x)%Q -> frac_small x ->
  exists a,
    F64.round ((x - inject_Z (Qfloor x)) * inject_Z 1000)%Q = F64.Finite a /\
    (0 <= a)%Q /\ (a < 1000)%Q /\ millis x = Qfloor a.
Proof.
  intros Hx Hs. unfold frac_small in Hs.
  destruct (frac_range x) as [Hf0 Hf1]. pose proof pow2_m53 as H53.
  set (frac := (x - inject_Z (Qfloor x))%Q) in *.
  assert (Hy0 : (0 <= frac * inject_Z 1000)%Q).
  { change (inject_Z 1000) with 1000%Q. lra. }
  assert (Hy1 : (frac * inject_Z 1000 <= 9007199254740991000 # 9007199254740992)%Q).
  { change (inject_Z 1000) with 1000%Q. lra. }
  destruct (round_finite_le _ _ _ Hy0 Hy1 round_largest_frac) as [a [Ea [Ha0 Ha1]]].
  exists a. split; [exact Ea |]. split; [exact Ha0 |]. split; [lra |].
  unfold millis, Py.modf. cbn [fst]. rewrite (trunc_floor_nonneg x Hx).
  fold frac. rewrite Ea. cbn [Py.int_float]. apply trunc_floor_nonneg, Ha0.
Qed.

Lemma millis_range x : (0 <= x)%Q -> frac_small x -> 0 <= millis x <= 999.
Proof.
  intros Hx Hs. destruct (millis_spec x Hx Hs) as [a [_ [H0 [H1 ->]]]].
  pose proof (Qfloor_range a 1000 H0 H1). lia.
Qed.


Lemma printed_ms_split x :
  (0 <= x)%Q -> frac_small x ->
  0 <= printed_ms x /\ printed_ms x / 1000 = Qfloor x /\ printed_ms x mod 1000 = millis x.
Proof.
  intros Hx Hs. pose proof (millis_range x Hx Hs) as Hm.
  unfold printed_ms. rewrite (trunc_floor_nonneg x Hx).
  pose proof (Qfloor_resp_le 0 x Hx) as Hf. change (Qfloor 0) with 0 in Hf.
  split; [lia |]. split.
  - rewrite Z.add_comm, Z.div_add by lia. rewrite Z.div_small by lia. lia.
  - rewrite Z.add_comm, Z.mod_add by lia. apply Z.mod_small. lia.
Qed.



(** ** The quotient of a frame number and a positive rate *)

Lemma truediv_nonneg f fps fl :
  (0 < fps)%Q -> 0 <= f -> Py.truediv f fps = Ok fl ->
  fl = F64.Infinity false \/ exists x, fl = F64.Finite x /\ (0 <= x)%Q /\ frac_small x.
Proof.
  intros Hfps Hf. unfold Py.truediv.
  destruct (Qeq_bool fps 0) eqn:Ez; [discriminate |].
  assert (Hf' : (0 <= inject_Z f)%Q) by (apply inject_Z_nonneg, Hf).
  destruct (F64.round (inject_Z f)) as [a |] eqn:Ea; [| discriminate].
  destruct (frac_small_round _ _ Hf' Ea) as [Ha _].
  assert (Hq : (0 <= a / fps)%Q).
  { apply Qle_shift_div_l; [exact Hfps | lra]. }
  intros [= <-].
  destruct (round_nonneg _ Hq) as [[E _] | [x [E _]]]; [left; exact E |].
  right. exists x. split; [exact E |]. apply (frac_small_round _ _ Hq E).
Qed.


Lemma timedelta_whole w :
  Py.timedelta (F64.Finite (inject_Z w)) =
    if (-999999999 <=? w / 86400) && (w / 86400 <=? 999999999) then Ok w
    else Raise OverflowError.
Proof. unfold Py.timedelta. rewrite int_inject_Z. reflexivity. Qed.

(** The fields the code prints for a time that is not negative. *)
Lemma time_fields_seconds f fps x :
  ~ (fps == 0)%Q -> Py.truediv f fps = Ok (F64.Finite x) ->
  (0 <= x)%Q -> frac_small x ->
  time_fields f fps =
    match Py.timedelta (F64.Finite (inject_Z (Qfloor x))) with
    | Ok _ => Ok (fields_of_ms (printed_ms x))
    | Raise e => Raise e
    end.
Proof.
  intros Hz Hdiv Hx Hs. unfold time_fields.
  destruct (Qeq_bool fps 0) eqn:Ez; [apply Qeq_bool_iff in Ez; contradiction |].
  rewrite Hdiv. unfold Py.modf. cbv zeta. cbn iota. rewrite (trunc_floor_nonneg x Hx).
  rewrite timedelta_whole.
  destruct (_ && _); [| reflexivity].
  destruct (millis_spec x Hx Hs) as [a [Ea [Ha0 [_ Hm]]]].
  rewrite Ea. cbn [Py.int_float Py.divmod].
  destruct (printed_ms_split x Hx Hs) as [_ [Hw Hr]].
  unfold fields_of_ms. cbv zeta. rewrite Hw, Hr, Hm, (trunc_floor_nonneg a Ha0).
  reflexivity.
Qed.

(** ** Fixed-width fields *)

Lemma in_range a e n : a <= n < e -> In n (Py.range a e).
Proof.
  intros H. unfold Py.range. apply in_map_iff.
  exists (Z.to_nat (n - a)). split; [lia |]. apply in_seq. lia.
Qed.

Lemma format_two_digits n : 0 <= n < 100 -> Py.format_0d 2 n = two_digits n.
Proof.
  intros H.
  assert (Hall : forallb (fun k => (Py.format_0d 2 k =? two_digits k)%string)
                         (Py.range 0 100) = true) by (vm_compute; reflexivity).
  rewrite forallb_forall in Hall.
  apply String.eqb_eq, Hall, in_range, H.
Qed.

Lemma format_three_digits n : 0 <= n < 1000 -> Py.format_0d 3 n = three_digits n.
Proof.
  intros H.
  assert (Hall : forallb (fun k => (Py.format_0d 3 k =? three_digits k)%string)
                         (Py.range 0 1000) = true) by (vm_compute; reflexivity).
  rewrite forallb_forall in Hall.
  apply String.eqb_eq, Hall, in_range, H.
Qed.

Lemma digit_cases (v : Z) :
  0 <= v < 10 ->
  v = 0 \/ v = 1 \/ v = 2 \/ v = 3 \/ v = 4 \/ v = 5 \/ v = 6 \/ v = 7 \/ v = 8 \/ v = 9.
Proof. lia. Qed.

Lemma is_digit_digit_char v : 0 <= v < 10 -> is_digit (Py.digit_char v) = true.
Proof.
  intros H. destruct (digit_cases v H) as [-> | [-> | [-> | [-> | [-> | [-> | [-> | [-> | [-> | ->]]]]]]]]];
    reflexivity.
Qed.







(** ** Strings made of fields *)

Lemma append_cons c s t : String c s ++ t = String c (s ++ t).
Proof. reflexivity. Qed.

Lemma append_nil_l s : "" ++ s = s.
Proof. reflexivity. Qed.

Lemma append_nil_r s : s ++ "" = s.
Proof. induction s as [| c s IH]; [reflexivity |]. rewrite append_cons, IH. reflexivity. Qed.

Lemma append_assoc s t u : (s ++ t) ++ u = s ++ t ++ u.
Proof.
  induction s as [| c s IH]; [reflexivity |]. rewrite !append_cons, IH. reflexivity.
Qed.

Lemma length_append s t : String.length (s ++ t) = (String.length s + String.length t)%nat.
Proof.
  induction s as [| c s IH]; [reflexivity |]. rewrite append_cons. cbn. rewrite IH. reflexivity.
Qed.

Lemma all_chars_append p s t : all_chars p (s ++ t) = all_chars p s && all_chars p t.
Proof.
  induction s as [| c s IH]; [reflexivity |].
  rewrite append_cons. cbn. rewrite IH, andb_assoc. reflexivity.
Qed.

Lemma all_chars_weaken (p q : ascii -> bool) s :
  (forall c, p c = true -> q c = true) -> all_chars p s = true -> all_chars q s = true.
Proof.
  intros Hpq. induction s as [| c s IH]; [reflexivity |]. cbn.
  intros H. apply andb_true_iff in H as [Hc Hs]. rewrite (Hpq c Hc), (IH Hs). reflexivity.
Qed.

Lemma field_char_differs c0 c :
  field_char c0 = false -> field_char c = true -> differs c0 c = true.
Proof.
  intros H0 Hc. unfold differs. destruct (Ascii.eqb_spec c c0) as [-> | ]; [congruence | reflexivity].
Qed.

Lemma field_differs c0 s :
  field_char c0 = false -> all_chars field_char s = true -> all_chars (differs c0) s = true.
Proof. intros H0. apply all_chars_weaken. intros c. apply field_char_differs, H0. Qed.

Lemma is_field_starts s t : is_field s -> starts_field (s ++ t).
Proof.
  intros [Hne Hall]. destruct s as [| c s]; [congruence |].
  cbn in Hall. apply andb_true_iff in Hall as [Hc _]. exact Hc.
Qed.

(** *** The digits printed denote the number *)

Lemma digit_char_value v :
  0 <= v < 10 -> Z.of_nat (nat_of_ascii (Py.digit_char v)) - 48 = v.
Proof.
  intros H. destruct (digit_cases v H) as [-> | [-> | [-> | [-> | [-> | [-> | [-> | [-> | [-> | ->]]]]]]]]];
    reflexivity.
Qed.

Lemma decimal_digits_acc fuel : forall n acc,
  Py.decimal_digits fuel n acc = Py.decimal_digits fuel n "" ++ acc.
Proof.
  induction fuel as [| k IH]; intros n acc; [reflexivity |].
  cbn [Py.decimal_digits]. destruct (n <? 10); [reflexivity |].
  rewrite (IH (n / 10) (String _ acc)), (IH (n / 10) (String _ "")), append_assoc.
  reflexivity.
Qed.

Lemma decimal_value_snoc s c : forall v,
  decimal_value_from v (s ++ String c "") =
    10 * decimal_value_from v s + (Z.of_nat (nat_of_ascii c) - 48).
Proof.
  induction s as [| x s IH]; intros v; [reflexivity |].
  rewrite append_cons. cbn [decimal_value_from]. apply IH.
Qed.

Lemma decimal_digits_value fuel : forall n,
  0 <= n < 2 ^ Z.of_nat fuel -> decimal_value (Py.decimal_digits fuel n "") = n.
Proof.
  induction fuel as [| k IH]; intros n Hn.
  - cbn in *. unfold decimal_value. cbn. lia.
  - cbn [Py.decimal_digits].
    assert (Hd : 0 <= n mod 10 < 10) by (apply Z.mod_pos_bound; lia).
    destruct (n <? 10) eqn:E.
    + unfold decimal_value. cbn [decimal_value_from].
      rewrite digit_char_value by exact Hd. rewrite Z.mod_small by lia. lia.
    + rewrite decimal_digits_acc. unfold decimal_value.
      rewrite decimal_value_snoc, digit_char_value by exact Hd.
      fold (decimal_value (Py.decimal_digits k (n / 10) "")).
      rewrite IH.
      * pose proof (Z.div_mod n 10 ltac:(lia)). lia.
      * rewrite Nat2Z.inj_succ, Z.pow_succ_r in Hn by lia.
        split; [apply Z.div_pos; lia | apply Z.div_lt_upper_bound; lia].
Qed.

(** The fuel of [str_nonneg] is enough: the string reads back as [n]. *)
Lemma str_nonneg_value n : 0 <= n -> decimal_value (Py.str_nonneg n) = n.
Proof.
  intros Hn. unfold Py.str_nonneg. apply decimal_digits_value.
  rewrite Nat2Z.inj_succ, Z2Nat.id by apply Z.log2_nonneg.
  split; [exact Hn |].
  destruct (Z.eq_dec n 0) as [-> | Hne]; [reflexivity |].
  apply Z.log2_spec. lia.
Qed.

(** *** What [format_0d] prints is a field *)

Lemma digit_char_field v : 0 <= v < 10 -> field_char (Py.digit_char v) = true.
Proof. intros H. unfold field_char. rewrite is_digit_digit_char by exact H. reflexivity. Qed.

Lemma decimal_digits_field fuel : forall n acc,
  all_chars field_char acc = true ->
  all_chars field_char (Py.decimal_digits fuel n acc) = true.
Proof.
  induction fuel as [| k IH]; intros n acc Hacc; [exact Hacc |].
  cbn [Py.decimal_digits].
  assert (Hd : all_chars field_char (String (Py.digit_char (n mod 10)) acc) = true).
  { cbn. rewrite digit_char_field, Hacc; [reflexivity |]. apply Z.mod_pos_bound. lia. }
  destruct (n <? 10); [exact Hd | apply IH, Hd].
Qed.

Lemma decimal_digits_length fuel : forall n acc,
  (String.length acc <= String.length (Py.decimal_digits fuel n acc))%nat.
Proof.
  induction fuel as [| k IH]; intros n acc; [cbn; lia |].
  cbn [Py.decimal_digits]. destruct (n <? 10); [cbn; lia |].
  etransitivity; [| apply IH]. cbn. lia.
Qed.

Lemma str_nonneg_field n : is_field (Py.str_nonneg n).
Proof.
  unfold Py.str_nonneg. split.
  - cbn [Py.decimal_digits]. destruct (n <? 10); [discriminate |].
    pose proof (decimal_digits_length (Z.to_nat (Z.log2 n)) (n / 10)
                  (String (Py.digit_char (n mod 10)) "")) as H.
    intros E. rewrite E in H. cbn in H. lia.
  - apply decimal_digits_field. reflexivity.
Qed.

Lemma zeros_field k : all_chars field_char (Py.zeros k) = true.
Proof. induction k as [| k IH]; [reflexivity |]. cbn. exact IH. Qed.

Lemma format_0d_field width z : is_field (Py.format_0d width z).
Proof.
  unfold Py.format_0d. destruct (str_nonneg_field (Z.abs z)) as [Hne Hall].
  destruct (z <? 0); split.
  - discriminate.
  - cbn [all_chars]. rewrite all_chars_append, zeros_field, Hall. reflexivity.
  - destruct (Py.zeros _); [exact Hne | discriminate].
  - rewrite all_chars_append, zeros_field, Hall. reflexivity.
Qed.

(** *** Splitting *)

Lemma prefix_nil s : String.prefix "" s = true.
Proof. destruct s; reflexivity. Qed.

Lemma prefix_differs c0 sep c s :
  differs c0 c = true -> String.prefix (String c0 sep) (String c s) = false.
Proof.
  unfold differs. intros H. cbn [String.prefix].
  destruct (ascii_dec c0 c) as [-> | ]; [| reflexivity].
  rewrite Ascii.eqb_refl in H. discriminate.
Qed.

(** Characters that cannot start the separator are collected. *)
Lemma split_from_collect c0 sep x : forall cur rest,
  all_chars (differs c0) x = true ->
  Py.split_from (String c0 sep) 0 cur (x ++ rest) =
  Py.split_from (String c0 sep) 0 (cur ++ x) rest.
Proof.
  induction x as [| c x IH]; intros cur rest Hx.
  - rewrite append_nil_l, append_nil_r. reflexivity.
  - cbn in Hx. apply andb_true_iff in Hx as [Hc Hx].
    rewrite append_cons. cbn [Py.split_from].
    rewrite (prefix_differs c0 sep c _ Hc), (IH _ _ Hx), append_assoc. reflexivity.
Qed.

Lemma split_from_end c0 sep x cur :
  all_chars (differs c0) x = true ->
  Py.split_from (String c0 sep) 0 cur x = [cur ++ x].
Proof.
  intros Hx. rewrite <- (append_nil_r x) at 1.
  rewrite (split_from_collect c0 sep x cur "" Hx). reflexivity.
Qed.

Lemma split_underscore_cut cur rest :
  Py.split_from "_" 0 cur ("_" ++ rest) = cur :: Py.split_from "_" 0 "" rest.
Proof.
  change ("_" ++ rest) with (String "_" rest). cbn [Py.split_from String.prefix].
  destruct (ascii_dec "_" "_") as [_ | Hne]; [| congruence].
  rewrite prefix_nil. reflexivity.
Qed.

Lemma split_dunder_cut cur rest :
  Py.split_from "__" 0 cur ("__" ++ rest) = cur :: Py.split_from "__" 0 "" rest.
Proof.
  change ("__" ++ rest) with (String "_" (String "_" rest)).
  cbn [Py.split_from String.prefix].
  destruct (ascii_dec "_" "_") as [_ | Hne]; [| congruence].
  rewrite prefix_nil. reflexivity.
Qed.

(** A single underscore before a field is not a cut for ["__"]. *)
Lemma split_dunder_single cur s :
  starts_field s ->
  Py.split_from "__" 0 cur ("_" ++ s) = Py.split_from "__" 0 (cur ++ "_") s.
Proof.
  destruct s as [| c s]; [intros [] |]. cbn [starts_field]. intros Hc.
  change ("_" ++ String c s) with (String "_" (String c s)).
  cbn [Py.split_from String.prefix].
  destruct (ascii_dec "_" "_") as [_ | Hne]; [| congruence].
  destruct (ascii_dec "_" c) as [<- | _]; [discriminate Hc | reflexivity].
Qed.

Section FourFields.

Variables (x1 x2 x3 x4 : string).
Hypotheses (F1 : is_field x1) (F2 : is_field x2) (F3 : is_field x3) (F4 : is_field x4).

Lemma field_no_underscore x : is_field x -> all_chars (differs "_") x = true.
Proof. intros [_ H]. apply field_differs; [reflexivity | exact H]. Qed.

Lemma split_underscore_4 :
  Py.split "_" (joined4 x1 x2 x3 x4) = [x1; x2; x3; x4].
Proof.
  unfold Py.split, joined4.
  rewrite split_from_collect, split_underscore_cut by (apply field_no_underscore; assumption).
  rewrite split_from_collect, split_underscore_cut by (apply field_no_underscore; assumption).
  rewrite split_from_collect, split_underscore_cut by (apply field_no_underscore; assumption).
  rewrite split_from_end by (apply field_no_underscore; assumption).
  reflexivity.
Qed.

Lemma split_underscore_3 :
  Py.split "_" (x1 ++ "_" ++ x2 ++ "_" ++ x3) = [x1; x2; x3].
Proof.
  unfold Py.split.
  rewrite split_from_collect, split_underscore_cut by (apply field_no_underscore; assumption).
  rewrite split_from_collect, split_underscore_cut by (apply field_no_underscore; assumption).
  rewrite split_from_end by (apply field_no_underscore; assumption).
  reflexivity.
Qed.

(** Scanning for ["__"] passes over the four fields. *)
Lemma split_dunder_pass cur rest :
  Py.split_from "__" 0 cur (joined4 x1 x2 x3 x4 ++ rest) =
  Py.split_from "__" 0 (cur ++ joined4 x1 x2 x3 x4) rest.
Proof.
  unfold joined4. rewrite !append_assoc.
  rewrite split_from_collect by (apply field_no_underscore; assumption).
  rewrite split_dunder_single by (apply is_field_starts; assumption).
  rewrite split_from_collect by (apply field_no_underscore; assumption).
  rewrite split_dunder_single by (apply is_field_starts; assumption).
  rewrite split_from_collect by (apply field_no_underscore; assumption).
  rewrite split_dunder_single by (apply is_field_starts; assumption).
  rewrite split_from_collect by (apply field_no_underscore; assumption).
  rewrite !append_assoc. reflexivity.
Qed.

(** What the parser makes of one half of the name. *)
Lemma half_to_srt :
  Py.replace "_" ":" (Py.join "_" (removelast (Py.split "_" (joined4 x1 x2 x3 x4))))
    ++ "," ++ List.last (Py.split "_" (joined4 x1 x2 x3 x4)) "" =
  x1 ++ ":" ++ x2 ++ ":" ++ x3 ++ "," ++ x4.
Proof.
  rewrite split_underscore_4. cbn [removelast List.last].
  unfold Py.replace, Py.join. cbn [String.concat].
  rewrite split_underscore_3. cbn [String.concat].
  rewrite !append_assoc. reflexivity.
Qed.

End FourFields.

(** *** The extension *)

Lemma rfind_last_app c z t :
  all_chars (differs c) z = true ->
  Py.rfind_last c (z ++ t) = option_map (Nat.add (String.length z)) (Py.rfind_last c t).
Proof.
  induction z as [| x z IH]; intros Hz.
  - rewrite append_nil_l. destruct (Py.rfind_last c t); reflexivity.
  - cbn in Hz. apply andb_true_iff in Hz as [Hx Hz].
    rewrite append_cons. cbn [Py.rfind_last]. rewrite (IH Hz).
    destruct (Py.rfind_last c t); cbn; [reflexivity |].
    unfold differs in Hx. destruct (Ascii.eqb x c); [discriminate | reflexivity].
Qed.

Lemma substring_prefix a b : substring 0 (String.length a) (a ++ b) = a.
Proof.
  induction a as [| c a IH].
  - rewrite append_nil_l. destruct b; reflexivity.
  - rewrite append_cons. cbn. rewrite IH. reflexivity.
Qed.

Lemma splitext_png z :
  all_chars (differs ".") z = true ->
  all_chars (differs "/") z = true ->
  Py.all_dots z = false ->
  fst (Py.splitext (z ++ ".png")) = z.
Proof.
  intros Hdot Hsep Hlead. unfold Py.splitext, Py.rfind.
  rewrite (rfind_last_app "/" z ".png" Hsep), (rfind_last_app "." z ".png" Hdot).
  cbn [Py.rfind_last option_map Ascii.eqb Bool.eqb].
  replace (Z.of_nat (String.length z + 0) >? -1) with true
    by (symmetry; rewrite Z.gtb_ltb; apply Z.ltb_lt; lia).
  replace (Z.to_nat (-1 + 1)) with O by lia.
  replace (Z.to_nat (Z.of_nat (String.length z + 0) - (-1 + 1))) with (String.length z) by lia.
  replace (Z.to_nat (Z.of_nat (String.length z + 0))) with (String.length z) by lia.
  rewrite substring_prefix, Hlead. reflexivity.
Qed.

Lemma starts_field_not_dots s : starts_field s -> Py.all_dots s = false.
Proof.
  destruct s as [| c s]; [intros [] |]. cbn. intros Hc.
  destruct (Ascii.eqb_spec c ".") as [-> | _]; [discriminate Hc | reflexivity].
Qed.

Lemma joined4_differs c0 x1 x2 x3 x4 :
  field_char c0 = false -> differs c0 "_" = true ->
  is_field x1 -> is_field x2 -> is_field x3 -> is_field x4 ->
  all_chars (differs c0) (joined4 x1 x2 x3 x4) = true.
Proof.
  intros H0 Hu [_ F1] [_ F2] [_ F3] [_ F4]. unfold joined4.
  rewrite !all_chars_append. cbn [all_chars]. rewrite Hu.
  rewrite !(field_differs c0) by assumption. reflexivity.
Qed.

(** The parser on a name built from eight fields. *)
Lemma srt_times_of_fields x1 x2 x3 x4 y1 y2 y3 y4 :
  is_field x1 -> is_field x2 -> is_field x3 -> is_field x4 ->
  is_field y1 -> is_field y2 -> is_field y3 -> is_field y4 ->
  srt_times (joined4 x1 x2 x3 x4 ++ "__" ++ joined4 y1 y2 y3 y4 ++ ".png") =
    Ok (x1 ++ ":" ++ x2 ++ ":" ++ x3 ++ "," ++ x4,
        y1 ++ ":" ++ y2 ++ ":" ++ y3 ++ "," ++ y4).
Proof.
  intros X1 X2 X3 X4 Y1 Y2 Y3 Y4.
  set (a := joined4 x1 x2 x3 x4). set (b := joined4 y1 y2 y3 y4).
  assert (Hname : a ++ "__" ++ b ++ ".png" = (a ++ "__" ++ b) ++ ".png")
    by (rewrite !append_assoc; reflexivity).
  assert (Hroot : fst (Py.splitext (a ++ "__" ++ b ++ ".png")) = a ++ "__" ++ b).
  { rewrite Hname. apply splitext_png.
    - rewrite !all_chars_append. subst a b.
      rewrite !(joined4_differs ".") by (assumption || reflexivity). reflexivity.
    - rewrite !all_chars_append. subst a b.
      rewrite !(joined4_differs "/") by (assumption || reflexivity). reflexivity.
    - apply starts_field_not_dots. subst a. unfold joined4.
      rewrite !append_assoc. apply (is_field_starts x1), X1. }
  assert (Hparts : Py.split "__" (a ++ "__" ++ b) = [a; b]).
  { unfold Py.split. subst a b.
    rewrite split_dunder_pass by assumption. rewrite split_dunder_cut.
    rewrite <- (append_nil_r (joined4 y1 y2 y3 y4)) at 1.
    rewrite split_dunder_pass by assumption. reflexivity. }
  unfold srt_times. rewrite Hroot, Hparts. cbn [nth_error].
  subst a b. rewrite !half_to_srt by assumption. reflexivity.
Qed.

Lemma underscore_form_joined h m s ms :
  underscore_form (h, m, s, ms) =
    joined4 (Py.format_0d 2 h) (Py.format_0d 2 m) (Py.format_0d 2 s) (Py.format_0d 3 ms).
Proof. unfold underscore_form, joined4. rewrite !append_assoc. reflexivity. Qed.

(** * The claims about the codec *)

(** The exceptions of the codec. *)
Lemma timedelta_raises w e : Py.timedelta w = Raise e -> e = OverflowError.
Proof.
  unfold Py.timedelta. destruct w as [w | negative]; [| congruence].
  cbv zeta. destruct (_ && _); congruence.
Qed.

Lemma int_float_raises x e : Py.int_float x = Raise e -> e = OverflowError.
Proof. destruct x; cbn; congruence. Qed.

Lemma truediv_raises a b e :
  Qeq_bool b 0 = false -> Py.truediv a b = Raise e -> e = OverflowError.
Proof.
  intros Hb. unfold Py.truediv. rewrite Hb.
  destruct (F64.round (inject_Z a)); congruence.
Qed.

Lemma frames_to_time_str_raises f fps e :
  frames_to_time_str f fps = Raise e -> e = OverflowError.
Proof.
  unfold frames_to_time_str.
  assert (Hr : Qeq_bool (if Qeq_bool fps 0 then inject_Z 25 else fps) 0 = false).
  { destruct (Qeq_bool fps 0) eqn:E; [reflexivity | exact E]. }
  destruct (Py.truediv _ _) as [seconds | e0] eqn:Ed.
  2:{ intros [= <-]. exact (truediv_raises _ _ _ Hr Ed). }
  destruct (Py.modf seconds) as [frac whole].
  destruct (Py.timedelta whole) as [t | e0] eqn:Et.
  2:{ intros [= <-]. exact (timedelta_raises _ _ Et). }
  destruct (Py.int_float _) as [ms | e0] eqn:Ei.
  2:{ intros [= <-]. exact (int_float_raises _ _ Ei). }
  discriminate.
Qed.

(** C5, as the code has it: a frame rate equal to zero is replaced by 25,
    so the result is that of the rate 25 and the division never raises. *)
Theorem zero_rate_defaults_to_25 (frame_index : Z) (fps : Q) :
  (fps == 0)%Q ->
  frames_to_time_str frame_index fps = frames_to_time_str frame_index (inject_Z 25) /\
  frames_to_time_str frame_index fps <> Raise ZeroDivisionError.
Proof.
  intros Hz. apply Qeq_bool_iff in Hz.
  assert (E : frames_to_time_str frame_index fps = frames_to_time_str frame_index (inject_Z 25)).
  { unfold frames_to_time_str. rewrite Hz. reflexivity. }
  split; [exact E |].
  intros H. apply frames_to_time_str_raises in H. discriminate.
Qed.

(** C5 as stated fails: a negative frame rate is not replaced.  Frame 1 at
    the rate -1 is one second before zero, printed as hour -1. *)
Lemma negative_rate_not_replaced :
  (inject_Z (-1) <= 0)%Q /\
  frames_to_time_str 1 (inject_Z (-1)) = Ok "-1_59_59_000" /\
  frames_to_time_str 1 (inject_Z 25) = Ok "00_00_00_040" /\
  frames_to_time_str 1 (inject_Z (-1)) <> frames_to_time_str 1 (inject_Z 25).
Proof.
  split; [discriminate |].
  assert (E1 : frames_to_time_str 1 (inject_Z (-1)) = Ok "-1_59_59_000")
    by (vm_compute; reflexivity).
  assert (E2 : frames_to_time_str 1 (inject_Z 25) = Ok "00_00_00_040")
    by (vm_compute; reflexivity).
  split; [exact E1 |]. split; [exact E2 |]. rewrite E1, E2. discriminate.
Qed.


Lemma positive_not_zero (fps : Q) : (0 < fps)%Q -> ~ (fps == 0)%Q.
Proof. intros H E. rewrite E in H. discriminate. Qed.




(** C7 (round trip of the file name): the artifact of an interval is
    written under [encode(start)__encode(end).png], and the parser of the
    OCR stage turns that name back into the two subtitle-format time
    stamps [HH:MM:SS,mmm] of the start and the end frame. *)
Theorem filename_round_trip (fps : Q) (iv : SubtitleInterval) (name : string) :
  img_name fps iv = Ok name ->
  exists start_time_str end_time_str start_srt end_srt,
    frames_to_time_str (start_frame iv) fps = Ok start_time_str /\
    frames_to_time_str (end_frame iv) fps = Ok end_time_str /\
    name = start_time_str ++ "__" ++ end_time_str ++ ".png" /\
    (forall folder total,
       write_all fps [iv] (folder, total) =
         (<[name := representative_image iv]> folder, total + 1, None)) /\
    srt_timestamp (start_frame iv) fps = Ok start_srt /\
    srt_timestamp (end_frame iv) fps = Ok end_srt /\
    srt_times name = Ok (start_srt, end_srt).
Proof.
  intros Hname.
  assert (Hwrite : forall folder total,
             write_all fps [iv] (folder, total) =
               (<[name := representative_image iv]> folder, total + 1, None)).
  { intros. cbn [write_all]. rewrite Hname. reflexivity. }
  unfold img_name in Hname. unfold srt_timestamp.
  rewrite !frames_to_time_str_fields in *.
  destruct (time_fields (start_frame iv) fps) as [[[[h1 m1] s1] t1] | e1]; [| discriminate].
  destruct (time_fields (end_frame iv) fps) as [[[[h2 m2] s2] t2] | e2]; [| discriminate].
  injection Hname as <-.
  eexists _, _, _, _. repeat (split; [reflexivity |]).
  split; [exact Hwrite |]. repeat (split; [reflexivity |]).
  change (srt_times (underscore_form (h1, m1, s1, t1) ++ "__"
                        ++ underscore_form (h2, m2, s2, t2) ++ ".png")
          = Ok (srt_form (h1, m1, s1, t1), srt_form (h2, m2, s2, t2))).
  rewrite !underscore_form_joined.
  rewrite srt_times_of_fields by apply format_0d_field.
  reflexivity.
Qed.

(** * The claims about the driver *)

Lemma clear_old_images_lookup (old : Folder) (name : string) :
  clear_old_images old !! name =
    if Py.endswith name ".png" then None else old !! name.
Proof.
  unfold clear_old_images.
  destruct (Py.endswith name ".png") eqn:E.
  - apply map_lookup_filter_None. right. intros x _ Hn. apply Hn. exact E.
  - destruct (old !! name) as [x |] eqn:El.
    + apply map_lookup_filter_Some. split; [exact El |].
      unfold is_png. cbn. rewrite E. discriminate.
    + apply map_lookup_filter_None. left. exact El.
Qed.

Lemma prepared_folder_lookup (w : World) (name : string) :
  prepared_folder w !! name =
    if Py.endswith name ".png" then None else existing_files w !! name.
Proof.
  unfold prepared_folder, existing_files. destruct (temp_folder w) as [old |].
  - apply clear_old_images_lookup.
  - rewrite lookup_empty. destruct (Py.endswith name ".png"); reflexivity.
Qed.

Section DriverClaims.

Variable pick_region : Video -> option Rect.
Variable detect_scenes : Video -> Q -> list (Z * Z).

Let run := main pick_region detect_scenes.

(** C9: with a rectangle and a readable video, an empty scene list ends
    the run by the early return after the "nothing to extract" message,
    not by an exception; the directory then exists, holds no [.png] file,
    and keeps its other files: nothing was written. *)
Theorem zero_scenes_nothing_to_extract
    (roi : option Rect) (scene_threshold change_threshold : Q) (w : World)
    (video : Video) (crop_rect : Rect) :
  video_file w = Some video ->
  resolved_region pick_region roi w = Some crop_rect ->
  detect_scenes video scene_threshold = [] ->
  exists log,
    run roi scene_threshold change_threshold w =
      (NoScenes, {| temp_folder := Some (prepared_folder w); video_file := video_file w |}, log)
    /\ List.last log MsgStarting = MsgNothingToExtract
    /\ forall name,
         prepared_folder w !! name =
           if Py.endswith name ".png" then None else existing_files w !! name.
Proof.
  intros Hv Hr Hs. subst run. unfold main, resolved_region, prepared_folder in *.
  unfold select_subtitle_area in *. rewrite Hv in *.
  destruct (temp_folder w) as [old |] eqn:Ef;
    destruct roi as [r |];
    try (destruct (_ =? _)%nat; cbn [fst] in Hr);
    try discriminate; cbn [fst] in Hr; rewrite ?Hr; rewrite Hs;
    (eexists; split; [reflexivity | split; [reflexivity |]]);
    intros name;
    pose proof (prepared_folder_lookup w name) as Hl;
    unfold prepared_folder in Hl; rewrite Ef in Hl; exact Hl.
Qed.

(** C4, as the code has it: when no rectangle is resolved or the video
    cannot be opened, the run stops before the scenes are analysed and
    writes nothing; by then the directory has been created, or cleared of
    its [.png] files, and files of other names are as they were. *)
Theorem configuration_error_stops_after_clearing
    (roi : option Rect) (scene_threshold change_threshold : Q) (w : World) :
  resolved_region pick_region roi w = None \/ video_file w = None ->
  exists outcome log,
    run roi scene_threshold change_threshold w =
      (outcome, {| temp_folder := Some (prepared_folder w); video_file := video_file w |}, log)
    /\ (outcome = NoRegion \/ outcome = Raised VideoOpenFailure)
    /\ ~ In MsgAnalyzingScenes log
    /\ forall name,
         prepared_folder w !! name =
           if Py.endswith name ".png" then None else existing_files w !! name.
Proof.
  intros Herr. subst run. unfold main, resolved_region, prepared_folder in *.
  unfold select_subtitle_area in *.
  assert (Hlook : forall name,
             match temp_folder w with Some old => clear_old_images old | None => ∅ end !! name
             = if Py.endswith name ".png" then None else existing_files w !! name).
  { intros name. apply (prepared_folder_lookup w name). }
  destruct (temp_folder w) as [old |] eqn:Ef;
    destruct roi as [r |];
    destruct (video_file w) as [video |] eqn:Ev;
    try (destruct (_ =? _)%nat);
    cbn [fst] in Herr;
    try (destruct Herr as [Hr | Hr]; try discriminate; rewrite ?Hr);
    (eexists _, _; split; [reflexivity | split; [auto |]]);
    (split; [| exact Hlook]); cbn; intuition discriminate.
Qed.

End DriverClaims.

(** C4 as stated fails: the images of an earlier run are removed before
    the rectangle is looked at.  A directory holding [old.png], no
    rectangle and an unreadable video: the run ends with "no region" and
    [old.png] is gone. *)
Lemma aborted_run_deletes_old_images :
  let old_image : Frame := [[[7]]] in
  let w := {| temp_folder := Some {[ "old.png" := old_image ]}; video_file := None |} in
  let result := main (fun _ => None) (fun _ _ => []) None 12 25000 w in
  fst (fst result) = NoRegion /\
  existing_files w !! "old.png" = Some old_image /\
  existing_files (snd (fst result)) !! "old.png" = None.
Proof.
  cbv zeta. split; [reflexivity |]. split; [apply lookup_singleton_eq |].
  cbn [main temp_folder video_file select_subtitle_area fst snd existing_files].
  rewrite clear_old_images_lookup. reflexivity.
Qed.

(** * The claims on sample inputs *)

Lemma forall_range (P : Z -> bool) (a b : Z) :
  forallb P (Py.range a b) = true -> forall k, a <= k < b -> P k = true.
Proof. intros H k Hk. rewrite forallb_forall in H. apply H, in_range, Hk. Qed.

Lemma quiet_on (crop_rect : Rect) (frames : list Frame) (thr : Q) (a b : Z) :
  forallb (fun k => match exceeds (diff_score_at crop_rect frames k) thr with
                    | Ok above => negb above
                    | Raise _ => false
                    end) (Py.range a b) = true ->
  forall k, a <= k < b -> exceeds (diff_score_at crop_rect frames k) thr = Ok false.
Proof.
  intros H k Hk. pose proof (forall_range _ a b H k Hk) as Hq. cbv beta in Hq.
  destruct (exceeds _ _) as [[|] |]; [discriminate | reflexivity | discriminate].
Qed.

Lemma busy_on (crop_rect : Rect) (frames : list Frame) (thr : Q) (a b : Z) :
  forallb (fun k => match exceeds (diff_score_at crop_rect frames k) thr with
                    | Ok above => above
                    | Raise _ => false
                    end) (Py.range a b) = true ->
  forall k, a <= k < b -> exceeds (diff_score_at crop_rect frames k) thr = Ok true.
Proof.
  intros H k Hk. pose proof (forall_range _ a b H k Hk) as Hq. cbv beta in Hq.
  destruct (exceeds _ _) as [[|] |]; [reflexivity | discriminate | discriminate].
Qed.

(** Scenario A on [flicker_10_29] with the threshold 50, and a close at
    frame 30 of an interval open since frame 10. *)
Lemma close_on_stable_frame_sample :
  (let d' := step 50 (inject_Z 25) 30 (one_sample 0) open_since_10 in
   subtitle_present d' = false /\
   written d' = [{| start_frame := 10; end_frame := 29;
                    representative_image := one_sample 0 |}]) /\
  process_scene sample_rect 50 (inject_Z 25)
      {| cap_frames := flicker_10_29; cap_pos := 0 |} (0, 50) =
    [{| start_frame := 10; end_frame := 29; representative_image := one_sample 0 |}].
Proof.
  split.
  - apply (proj1 close_on_stable_frame 50%Q (inject_Z 25) 30 (one_sample 0) (one_sample 0)
             open_since_10); [discriminate | reflexivity | reflexivity | reflexivity].
  - apply (proj2 close_on_stable_frame sample_rect 50%Q
             {| cap_frames := flicker_10_29; cap_pos := 0 |}).
    + vm_compute. discriminate.
    + apply quiet_on. vm_compute. reflexivity.
    + apply busy_on. vm_compute. reflexivity.
    + apply quiet_on. vm_compute. reflexivity.
Defined.

(** Scenario B on [flicker_from_5] at 25 fps, and the flush of a scene
    that ends with the interval still open. *)
Lemma end_of_scene_flush_sample :
  (exists last,
     last_img (snd (fst (scene_run sample_rect 50 (inject_Z 25)
                           {| cap_frames := flicker_from_5; cap_pos := 0 |} (0, 20))))
       = Some last) /\
  process_scene sample_rect 50 (inject_Z 25)
      {| cap_frames := flicker_from_5; cap_pos := 0 |} (0, 20) =
    [{| start_frame := 5; end_frame := 19; representative_image := one_sample 100 |}].
Proof.
  split.
  - destruct (proj1 end_of_scene_flush sample_rect 50%Q (inject_Z 25)
                {| cap_frames := flicker_from_5; cap_pos := 0 |}
                (fst (fst (scene_run sample_rect 50 (inject_Z 25)
                             {| cap_frames := flicker_from_5; cap_pos := 0 |} (0, 20))))
                0 20
                (snd (fst (scene_run sample_rect 50 (inject_Z 25)
                             {| cap_frames := flicker_from_5; cap_pos := 0 |} (0, 20))))
                (snd (scene_run sample_rect 50 (inject_Z 25)
                        {| cap_frames := flicker_from_5; cap_pos := 0 |} (0, 20))))
      as [last [Hlast _]]; [discriminate | reflexivity | reflexivity | reflexivity |].
    exists last. exact Hlast.
  - apply (proj2 end_of_scene_flush sample_rect 50%Q (inject_Z 25)
             {| cap_frames := flicker_from_5; cap_pos := 0 |} 0).
    + discriminate.
    + reflexivity.
    + lia.
    + vm_compute. discriminate.
    + intros k Hk. apply (quiet_on sample_rect flicker_from_5 50%Q 1 5);
        [vm_compute; reflexivity | lia].
    + apply busy_on. vm_compute. reflexivity.
Defined.

(** A one-frame blip at 25 fps is dropped, in mid-scene and at the end of
    the scene. *)
Lemma debounce_law_sample :
  written (step 50 (inject_Z 25) 12 (one_sample 0) open_since_10) = [] /\
  flush (inject_Z 25) 12 open_since_10 = [].
Proof.
  destruct (debounce_law 50%Q (inject_Z 25)) as [Hclose [Hflush _]]. split.
  - apply (Hclose 12 (one_sample 0) (one_sample 0) open_since_10);
      [reflexivity | reflexivity | reflexivity | vm_compute; discriminate].
  - apply (Hflush 12 open_since_10). vm_compute. discriminate.
Defined.

Lemma zero_rate_defaults_to_25_sample :
  (0 == 0)%Q /\
  frames_to_time_str 50 0 = frames_to_time_str 50 (inject_Z 25) /\
  frames_to_time_str 50 0 <> Raise ZeroDivisionError.
Proof.
  split; [reflexivity |]. apply (zero_rate_defaults_to_25 50 0%Q). reflexivity.
Defined.


Lemma filename_round_trip_sample :
  let iv := {| start_frame := 10; end_frame := 50; representative_image := one_sample 0 |} in
  exists start_time_str end_time_str start_srt end_srt,
    frames_to_time_str 10 (inject_Z 25) = Ok start_time_str /\
    frames_to_time_str 50 (inject_Z 25) = Ok end_time_str /\
    "00_00_00_400__00_00_02_000.png" = start_time_str ++ "__" ++ end_time_str ++ ".png" /\
    (forall folder total,
       write_all (inject_Z 25) [iv] (folder, total) =
         (<["00_00_00_400__00_00_02_000.png" := one_sample 0]> folder, total + 1, None)) /\
    srt_timestamp 10 (inject_Z 25) = Ok start_srt /\
    srt_timestamp 50 (inject_Z 25) = Ok end_srt /\
    srt_times "00_00_00_400__00_00_02_000.png" = Ok (start_srt, end_srt).
Proof.
  intros iv.
  apply (filename_round_trip (inject_Z 25) iv "00_00_00_400__00_00_02_000.png").
  vm_compute. reflexivity.
Defined.

(** A readable video, a rectangle given on the command line, no earlier
    directory, and a scene detector that finds nothing. *)
Lemma zero_scenes_nothing_to_extract_sample :
  let video := {| video_fps := inject_Z 25; video_frames := flicker_from_5 |} in
  let w := {| temp_folder := None; video_file := Some video |} in
  exists log,
    main (fun _ => None) (fun _ _ => []) (Some sample_rect) 12 25000 w =
      (NoScenes, {| temp_folder := Some (prepared_folder w); video_file := video_file w |}, log)
    /\ List.last log MsgStarting = MsgNothingToExtract
    /\ forall name,
         prepared_folder w !! name =
           if Py.endswith name ".png" then None else existing_files w !! name.
Proof.
  intros video w.
  apply (zero_scenes_nothing_to_extract (fun _ => None) (fun _ _ => []) (Some sample_rect)
           12%Q 25000%Q w video sample_rect); reflexivity.
Defined.

(** A rectangle given on the command line and a video that cannot be
    opened. *)
Lemma configuration_error_sample :
  let w := {| temp_folder := Some {[ "notes.txt" := one_sample 1 ]}; video_file := None |} in
  exists outcome log,
    main (fun _ => None) (fun _ _ => []) (Some sample_rect) 12 25000 w =
      (outcome, {| temp_folder := Some (prepared_folder w); video_file := video_file w |}, log)
    /\ (outcome = NoRegion \/ outcome = Raised VideoOpenFailure)
    /\ ~ In MsgAnalyzingScenes log
    /\ forall name,
         prepared_folder w !! name =
           if Py.endswith name ".png" then None else existing_files w !! name.
Proof.
  intros w.
  apply (configuration_error_stops_after_clearing (fun _ => None) (fun _ _ => [])
           (Some sample_rect) 12%Q 25000%Q w).
  right. reflexivity.
Defined.

(** * Further properties of the detector *)

Lemma strongly_sorted_snoc_gen {A} (R : A -> A -> Prop) (l : list A) (x : A) :
  StronglySorted R l -> Forall (fun y => R y x) l -> StronglySorted R (l ++ [x]).
Proof.
  induction 1 as [| y l Hs IH Hy]; intros Hall; cbn.
  - constructor; constructor.
  - apply List.Forall_cons_iff in Hall as [Hyx Hall]. constructor.
    + apply IH, Hall.
    + apply List.Forall_app. split; [exact Hy | constructor; [exact Hyx | constructor]].
Qed.

(** A property of the frame number and the detector that every pass of
    the loop body keeps holds when the loop ends, however it ends. *)
Lemma frame_loop_invariant (P : Z -> Detector -> Prop) crop_rect thr fps n :
  forall a e cap d,
  Z.of_nat n = Z.max 0 (e - a) ->
  P a d ->
  (forall k img d0, a <= k < e -> P k d0 -> P (k + 1) (step thr fps k img d0)) ->
  exists k, a <= k <= Z.max a e /\
    P k (snd (frame_loop crop_rect thr fps (Py.range a e) cap d)).
Proof.
  induction n as [| n IH]; intros a e cap d Hn HP Hstep.
  - rewrite range_nil by lia. exists a. split; [lia | exact HP].
  - rewrite range_cons by lia. cbn [frame_loop].
    destruct (cap_read cap) as [[frame |] cap'].
    + cbv zeta. destruct (raised (step thr fps a (crop crop_rect frame) d)).
      * exists (a + 1). split; [lia | apply Hstep; [lia | exact HP]].
      * destruct (IH (a + 1) e cap' (step thr fps a (crop crop_rect frame) d))
          as [k [Hk Hi]].
        -- lia.
        -- apply Hstep; [lia | exact HP].
        -- intros k img d0 Hk. apply Hstep. lia.
        -- exists k. split; [lia | exact Hi].
    + exists a. split; [lia | exact HP].
Qed.

Lemma order_inv_step thr fps k img d :
  order_inv k d -> order_inv (k + 1) (step thr fps k img d).
Proof.
  intros (Hsorted & Hended & Hopen).
  assert (Hended' : Forall (fun iv => end_frame iv + 1 < k + 1) (written d)).
  { revert Hended. apply List.Forall_impl. intros; lia. }
  assert (Hkeep : subtitle_present d = true ->
            subtitle_start_frame d < k + 1 /\
            Forall (fun iv => end_frame iv + 2 <= subtitle_start_frame d) (written d)).
  { intros Hp. destruct (Hopen Hp) as [H1 H2]. split; [lia | exact H2]. }
  unfold order_inv, step. destruct (last_img d) as [last |].
  - cbv zeta.
    destruct (exceeds (np_sum (absdiff img last)) thr) as [[|] | x];
      [destruct (subtitle_present d) eqn:Ep | destruct (subtitle_present d) eqn:Ep |];
      cbn [negb written subtitle_present subtitle_start_frame].
    5:{ split; [exact Hsorted | split; [exact Hended' | exact Hkeep]]. }
    + split; [exact Hsorted | split; [exact Hended' | exact Hkeep]].
    + split; [exact Hsorted | split; [exact Hended' |]].
      intros _. split; [lia |]. revert Hended. apply List.Forall_impl. intros; lia.
    + destruct (Hopen eq_refl) as [H1 H2].
      rewrite save_if_long_spec.
      destruct (k - 1 - subtitle_start_frame d >? min_duration fps).
      * split; [| split; [| discriminate]].
        -- apply strongly_sorted_snoc_gen; [exact Hsorted | exact H2].
        -- apply List.Forall_app. split; [exact Hended' |].
           constructor; [cbn; lia | constructor].
      * split; [exact Hsorted | split; [exact Hended' | discriminate]].
    + split; [exact Hsorted | split; [exact Hended' | discriminate]].
  - cbn [written subtitle_present subtitle_start_frame].
    split; [exact Hsorted | split; [exact Hended' | exact Hkeep]].
Qed.

Lemma order_inv_fresh k : order_inv k fresh.
Proof. split; [constructor | split; [constructor | discriminate]]. Qed.

(** X1: every interval a scene writes lies inside the scene, after its
    first frame, and does not end before it starts. *)
Theorem intervals_inside_scene
    (crop_rect : Rect) (change_threshold fps : Q) (cap : Capture) (scene_start scene_end : Z) :
  Forall (fun iv => scene_start < start_frame iv /\
                    start_frame iv <= end_frame iv /\
                    end_frame iv <= scene_end - 1)
         (process_scene crop_rect change_threshold fps cap (scene_start, scene_end)).
Proof.
  destruct (scene_run_inv crop_rect change_threshold fps cap scene_start scene_end)
    as [k [Hk Hinv]].
  unfold process_scene. unfold scene_run in *.
  destruct (frame_loop _ _ _ _ _ _) as [c0 d0]. cbn [fst snd] in *.
  assert (Hw : Forall (fun iv => scene_start < start_frame iv /\
                                 start_frame iv <= end_frame iv /\
                                 end_frame iv <= scene_end - 1) (written d0)).
  { pose proof (inv_written_start _ _ _ _ _ Hinv) as H1.
    pose proof (inv_written_order _ _ _ _ _ Hinv) as H2.
    rewrite List.Forall_forall in *. intros iv Hin.
    specialize (H1 iv Hin). specialize (H2 iv Hin). cbv beta in *. lia. }
  destruct (raised d0); [exact Hw |].
  unfold flush. destruct (subtitle_present d0) eqn:Ep, (last_img d0); try exact Hw.
  rewrite save_if_long_spec. case_match; [| exact Hw].
  pose proof (inv_start _ _ _ _ _ Hinv Ep).
  apply List.Forall_app. split; [exact Hw | constructor; [cbn; lia | constructor]].
Qed.

(** X2: the intervals of a scene are written in order and never touch:
    each starts at least two frames after the one before it ends. *)
Theorem intervals_in_order_and_apart
    (crop_rect : Rect) (change_threshold fps : Q) (cap : Capture) (scene : Z * Z) :
  StronglySorted apart (process_scene crop_rect change_threshold fps cap scene).
Proof.
  destruct scene as [s e]. unfold process_scene, scene_run.
  destruct (frame_loop_invariant order_inv crop_rect change_threshold fps
              (Z.to_nat (Z.max 0 (e - s))) s e (cap_set cap s) fresh
              ltac:(lia) (order_inv_fresh s)
              (fun k img d0 _ => order_inv_step change_threshold fps k img d0))
    as [k [_ (Hsorted & Hended & Hopen)]].
  destruct (frame_loop _ _ _ _ _ _) as [c0 d0]. cbn [fst snd] in *.
  destruct (raised d0); [exact Hsorted |].
  unfold flush. destruct (subtitle_present d0) eqn:Ep, (last_img d0); try exact Hsorted.
  rewrite save_if_long_spec. case_match; [| exact Hsorted].
  destruct (Hopen eq_refl) as [_ H2].
  apply strongly_sorted_snoc_gen; [exact Hsorted | exact H2].
Qed.

Section QuietScenes.

Variables (crop_rect : Rect) (change_threshold fps : Q) (frames : list Frame).

Lemma quiet_frames_write_nothing n : forall a e s d,
  Z.of_nat n = Z.max 0 (e - a) ->
  0 <= s <= a ->
  subtitle_present d = false ->
  written d = [] ->
  raised d = None ->
  last_img d = None \/ (last_img d = Some (sub_region_at crop_rect frames (a - 1)) /\ s < a) ->
  (forall k, s < k < e -> k < Z.of_nat (List.length frames) ->
     exceeds (diff_score_at crop_rect frames k) change_threshold <> Ok true) ->
  let d' := snd (frame_loop crop_rect change_threshold fps (Py.range a e)
                   (cap_at frames a) d) in
  subtitle_present d' = false /\ written d' = [].
Proof.
  induction n as [| n IH]; intros a e s d Hn Hs Hp Hw Hr Hlast Hq.
  - cbv zeta. rewrite loop_done by lia. cbn. split; assumption.
  - cbv zeta. destruct (Z_lt_le_dec a (Z.of_nat (List.length frames))) as [Hin | Hout].
    2: { rewrite loop_eof by lia. cbn. split; assumption. }
    assert (Hnext : forall d0,
              step change_threshold fps a (sub_region_at crop_rect frames a) d
              = with_last (sub_region_at crop_rect frames a) d ->
              d0 = snd (frame_loop crop_rect change_threshold fps (Py.range a e)
                          (cap_at frames a) d) ->
              subtitle_present d0 = false /\ written d0 = []).
    { intros d0 Hstep ->.
      rewrite (loop_step_to crop_rect change_threshold fps frames a e d _ ltac:(lia) Hin
                 Hstep Hr).
      apply (IH (a + 1) e s); try assumption; try lia.
      right. split; [cbn; do 2 f_equal; lia | lia]. }
    destruct Hlast as [Hnone | [Hsome Hsa]].
    + apply Hnext; [apply step_seed, Hnone | reflexivity].
    + pose proof (Hq a ltac:(lia) Hin) as Hqa. unfold diff_score_at in Hqa.
      destruct (exceeds (np_sum (absdiff (sub_region_at crop_rect frames a)
                                   (sub_region_at crop_rect frames (a - 1))))
                  change_threshold) as [[|] | x] eqn:Ex.
      * contradiction.
      * apply Hnext; [| reflexivity].
        eapply step_idle_quiet; [exact Hsome | exact Hp | exact Ex].
      * pose proof (step_raises change_threshold fps a _ _ d x Hsome Ex) as Hstep.
        rewrite (loop_raise crop_rect change_threshold fps frames a e d x ltac:(lia) Hin)
          by (rewrite Hstep; reflexivity).
        rewrite Hstep. cbn. split; assumption.
Qed.

End QuietScenes.

(** X3: a scene in which no frame that can be read differs from the frame
    before it by more than the threshold writes nothing. *)
Theorem quiet_scene_writes_nothing
    (crop_rect : Rect) (change_threshold fps : Q) (cap : Capture) (scene_start scene_end : Z) :
  0 <= scene_start ->
  (forall k, scene_start < k < scene_end -> k < Z.of_nat (List.length (cap_frames cap)) ->
     exceeds (diff_score_at crop_rect (cap_frames cap) k) change_threshold <> Ok true) ->
  process_scene crop_rect change_threshold fps cap (scene_start, scene_end) = [].
Proof.
  intros Hs Hq. unfold process_scene, scene_run.
  change (cap_set cap scene_start) with (cap_at (cap_frames cap) scene_start).
  pose proof (quiet_frames_write_nothing crop_rect change_threshold fps (cap_frames cap)
                (Z.to_nat (Z.max 0 (scene_end - scene_start)))
                scene_start scene_end scene_start fresh
                ltac:(lia) ltac:(lia) eq_refl eq_refl eq_refl (or_introl eq_refl) Hq)
    as [Hp Hw].
  destruct (frame_loop _ _ _ _ _ _) as [c0 d0]. cbn [fst snd] in *.
  destruct (raised d0); [exact Hw |].
  rewrite (flush_idle _ _ _ Hp). exact Hw.
Qed.







(** * Further properties of the driver *)

Lemma endswith_refl s : Py.endswith s s = true.
Proof. destruct s; cbn; rewrite ?Ascii.eqb_refl, ?String.eqb_refl; reflexivity. Qed.

Lemma endswith_append a b : Py.endswith (a ++ b) b = true.
Proof.
  induction a as [| c a IH].
  - rewrite append_nil_l. apply endswith_refl.
  - rewrite append_cons. cbn [Py.endswith]. rewrite IH. apply orb_true_r.
Qed.

Lemma img_name_png fps iv name : img_name fps iv = Ok name -> Py.endswith name ".png" = true.
Proof.
  unfold img_name.
  destruct (frames_to_time_str (start_frame iv) fps) as [a |]; [| discriminate].
  destruct (frames_to_time_str (end_frame iv) fps) as [b |]; [| discriminate].
  intros [= <-]. rewrite <- !append_assoc. apply endswith_append.
Qed.

(** The scene loop only repositions the capture. *)
Lemma cap_read_frames cap : cap_frames (snd (cap_read cap)) = cap_frames cap.
Proof. unfold cap_read. destruct (nth_error _ _); reflexivity. Qed.

Lemma frame_loop_frames crop_rect thr fps l : forall cap d,
  cap_frames (fst (frame_loop crop_rect thr fps l cap d)) = cap_frames cap.
Proof.
  induction l as [| k l IH]; intros cap d; [reflexivity |].
  cbn [frame_loop]. pose proof (cap_read_frames cap) as Hf.
  destruct (cap_read cap) as [[frame |] cap']; cbn [snd] in Hf.
  - cbv zeta. destruct (raised _); [exact Hf |]. rewrite IH. exact Hf.
  - exact Hf.
Qed.

(** A scene starts by repositioning the capture: where the capture stood
    does not matter. *)
Lemma scene_run_restart crop_rect thr fps cap scene :
  scene_run crop_rect thr fps cap scene
  = scene_run crop_rect thr fps (cap_at (cap_frames cap) 0) scene.
Proof. destruct scene as [s e]. reflexivity. Qed.

Lemma scene_run_frames crop_rect thr fps cap scene :
  cap_frames (fst (fst (scene_run crop_rect thr fps cap scene))) = cap_frames cap /\
  snd (scene_run crop_rect thr fps cap scene)
    = process_scene crop_rect thr fps (cap_at (cap_frames cap) 0) scene.
Proof.
  destruct scene as [s e]. unfold process_scene, scene_run.
  change (cap_set (cap_at (cap_frames cap) 0) s) with (cap_set cap s).
  pose proof (frame_loop_frames crop_rect thr fps (Py.range s e) (cap_set cap s) fresh) as Hf.
  destruct (frame_loop _ _ _ _ _ _) as [c0 d0]. cbn [fst snd] in *.
  split; [exact Hf | reflexivity].
Qed.

Lemma write_all_app fps l1 : forall l2 out,
  write_all fps (l1 ++ l2) out =
    match write_all fps l1 out with
    | (out', None) => write_all fps l2 out'
    | (out', Some e) => (out', Some e)
    end.
Proof.
  induction l1 as [| iv l1 IH]; intros l2 out; [reflexivity |].
  cbn [write_all app]. destruct (img_name fps iv); [apply IH | reflexivity].
Qed.

(** The scene loop is the sequence of the writes of the scenes, up to
    the first exception. *)
Lemma scene_loop_writes crop_rect thr fps scene_list : forall cap out,
  scene_loop crop_rect thr fps scene_list cap out =
    let '(ivs, loop_raised) :=
      scene_writes crop_rect thr fps (cap_frames cap) scene_list in
    match write_all fps ivs out with
    | (out', None) => (out', loop_raised)
    | (out', Some e) => (out', Some e)
    end.
Proof.
  induction scene_list as [| scene rest IH]; intros cap out; [reflexivity |].
  cbn [scene_loop scene_writes].
  destruct (scene_run_frames crop_rect thr fps cap scene) as [Hf _].
  rewrite <- (scene_run_restart crop_rect thr fps cap scene).
  destruct (scene_run crop_rect thr fps cap scene) as [[cap' d] ivs]. cbn [fst snd] in *.
  destruct (raised d) as [x |].
  - destruct (write_all fps ivs out) as [out' [e |]]; reflexivity.
  - specialize (IH cap'). rewrite Hf in IH.
    destruct (scene_writes crop_rect thr fps (cap_frames cap) rest) as [ivs' lr].
    rewrite write_all_app.
    destruct (write_all fps ivs out) as [out' [e |]]; [reflexivity | apply IH].
Qed.

(** When no frame loop raises, the scenes write all their intervals. *)
Lemma scene_writes_all crop_rect thr fps frames scene_list : forall ivs,
  scene_writes crop_rect thr fps frames scene_list = (ivs, None) ->
  ivs = all_intervals crop_rect thr fps frames scene_list.
Proof.
  induction scene_list as [| scene rest IH]; intros ivs H.
  - injection H as <-. reflexivity.
  - cbn [scene_writes] in H. unfold all_intervals. cbn [flat_map].
    unfold process_scene at 1.
    destruct (scene_run crop_rect thr fps (cap_at frames 0) scene) as [[cap' d] ivs0].
    cbn [snd]. destruct (raised d); [discriminate |].
    destruct (scene_writes crop_rect thr fps frames rest) as [ivs' lr].
    injection H as <- ->. rewrite (IH ivs' eq_refl). reflexivity.
Qed.

Lemma write_all_other_names fps name ivs : forall F n,
  Py.endswith name ".png" = false ->
  fst (fst (write_all fps ivs (F, n))) !! name = F !! name.
Proof.
  induction ivs as [| iv ivs IH]; intros F n Hname; [reflexivity |].
  cbn [write_all fst snd]. destruct (img_name fps iv) as [nm |] eqn:E; [| reflexivity].
  rewrite IH by exact Hname. apply lookup_insert_ne.
  intros ->. apply img_name_png in E. congruence.
Qed.

Lemma write_all_count fps ivs : forall F n F' n',
  write_all fps ivs (F, n) = (F', n', None) -> n' = n + Z.of_nat (List.length ivs).
Proof.
  induction ivs as [| iv ivs IH]; intros F n F' n' H.
  - cbn in H. injection H as _ <-. cbn. lia.
  - cbn [write_all fst snd] in H. destruct (img_name fps iv) as [nm |]; [| discriminate].
    apply IH in H. cbn [List.length]. lia.
Qed.

Lemma write_all_provenance fps name img ivs : forall F n,
  fst (fst (write_all fps ivs (F, n))) !! name = Some img ->
  F !! name = Some img \/
  exists iv, In iv ivs /\ img_name fps iv = Ok name /\ representative_image iv = img.
Proof.
  induction ivs as [| iv ivs IH]; intros F n H; [left; exact H |].
  cbn [write_all fst snd] in H. destruct (img_name fps iv) as [nm |] eqn:E; [| left; exact H].
  destruct (IH _ _ H) as [Hin | [iv' [Hin [Hn Hi]]]].
  - destruct (decide (nm = name)) as [-> | Hne].
    + rewrite lookup_insert_eq in Hin. injection Hin as <-.
      right. exists iv. split; [left; reflexivity | split; [exact E | reflexivity]].
    + rewrite lookup_insert_ne in Hin by exact Hne. left. exact Hin.
  - right. exists iv'. split; [right; exact Hin | split; assumption].
Qed.

Lemma write_all_keeps fps name ivs : forall F n,
  is_Some (F !! name) -> is_Some (fst (fst (write_all fps ivs (F, n))) !! name).
Proof.
  induction ivs as [| iv ivs IH]; intros F n H; [exact H |].
  cbn [write_all fst snd]. destruct (img_name fps iv) as [nm |]; [| exact H].
  apply IH. destruct (decide (nm = name)) as [-> | Hne].
  - rewrite lookup_insert_eq. eauto.
  - rewrite lookup_insert_ne by exact Hne. exact H.
Qed.

Lemma write_all_present fps ivs : forall F n F' n',
  write_all fps ivs (F, n) = (F', n', None) ->
  forall iv, In iv ivs -> exists name, img_name fps iv = Ok name /\ is_Some (F' !! name).
Proof.
  induction ivs as [| iv0 ivs IH]; intros F n F' n' H iv Hin; [destruct Hin |].
  cbn [write_all fst snd] in H. destruct (img_name fps iv0) as [nm |] eqn:E; [| discriminate].
  destruct Hin as [<- | Hin].
  - exists nm. split; [exact E |].
    pose proof (write_all_keeps fps nm ivs (<[nm := representative_image iv0]> F) (n + 1)) as Hk.
    rewrite H in Hk. apply Hk. rewrite lookup_insert_eq. eauto.
  - exact (IH _ _ _ _ H iv Hin).
Qed.

Section DriverExtras.

Variable pick_region : Video -> option Rect.
Variable detect_scenes : Video -> Q -> list (Z * Z).

(** [main] without its printed lines. *)
Lemma main_result roi scene_threshold change_threshold w :
  fst (main pick_region detect_scenes roi scene_threshold change_threshold w) =
    run_result pick_region detect_scenes roi scene_threshold change_threshold
      (prepared_folder w) (video_file w).
Proof.
  unfold main, run_result, resolved_region, select_subtitle_area, prepared_folder.
  cbn [video_file temp_folder].
  destruct (temp_folder w) as [old |]; destruct roi as [r |];
    destruct (video_file w) as [v |]; cbn [fst snd];
    try reflexivity;
    try (destruct (List.length (video_frames v) =? 0)%nat; cbn [fst snd]; try reflexivity;
         destruct (pick_region v); cbn [fst snd]; try reflexivity);
    destruct (detect_scenes v scene_threshold) as [| scene rest] eqn:Es; try reflexivity;
    rewrite scene_loop_writes; cbn [cap_frames];
    destruct (scene_writes _ _ _ _ _) as [ivs [x |]];
    destruct (write_all _ _ _) as [[F' n'] [e |]]; reflexivity.
Qed.

End DriverExtras.

Section DriverExtraClaims.

Variable pick_region : Video -> option Rect.
Variable detect_scenes : Video -> Q -> list (Z * Z).

Let run := main pick_region detect_scenes.
Let result := run_result pick_region detect_scenes.

Lemma run_result_video roi st thr folder video :
  video_file (snd (result roi st thr folder video)) = video.
Proof.
  subst result. unfold run_result.
  destruct (resolved_region _ _ _) as [rect |]; [| reflexivity].
  destruct video as [v |]; [| reflexivity].
  destruct (detect_scenes v st); [reflexivity |].
  destruct (scene_writes _ _ _ _ _) as [ivs loop_raised].
  destruct (write_all _ _ _) as [[F' n'] write_raised]. reflexivity.
Qed.

Lemma run_result_other_names roi st thr folder video name :
  Py.endswith name ".png" = false ->
  existing_files (snd (result roi st thr folder video)) !! name = folder !! name.
Proof.
  intros Hname. subst result. unfold run_result.
  destruct (resolved_region _ _ _) as [rect |]; [| reflexivity].
  destruct video as [v |]; [| reflexivity].
  destruct (detect_scenes v st) as [| scene rest]; [reflexivity |].
  destruct (scene_writes _ _ _ _ _) as [ivs loop_raised].
  pose proof (write_all_other_names (video_fps v) name ivs folder 0 Hname) as H.
  destruct (write_all _ _ _) as [[F' n'] e]. exact H.
Qed.

(** X5: whatever the outcome, a run leaves the files of the output
    directory whose names do not end in [.png] as they were. *)
Theorem other_files_untouched
    (roi : option Rect) (scene_threshold change_threshold : Q) (w : World) (name : string) :
  Py.endswith name ".png" = false ->
  existing_files (snd (fst (run roi scene_threshold change_threshold w))) !! name
    = existing_files w !! name.
Proof.
  intros Hname. subst run. rewrite main_result.
  rewrite (run_result_other_names roi scene_threshold change_threshold _ _ name Hname).
  rewrite prepared_folder_lookup, Hname. reflexivity.
Qed.

Lemma prepared_again roi st thr w :
  prepared_folder (snd (result roi st thr (prepared_folder w) (video_file w)))
    = prepared_folder w.
Proof.
  set (w1 := snd (result roi st thr (prepared_folder w) (video_file w))).
  assert (Hsome : exists F1, temp_folder w1 = Some F1).
  { subst w1 result. unfold run_result.
    destruct (resolved_region _ _ _) as [rect |]; [| eauto].
    destruct (video_file w) as [v |]; [| eauto].
    destruct (detect_scenes v st); [eauto |].
    destruct (scene_writes _ _ _ _ _) as [ivs loop_raised].
    destruct (write_all _ _ _) as [[F' n'] write_raised]. eauto. }
  destruct Hsome as [F1 HF1].
  apply map_eq. intros name.
  transitivity (clear_old_images F1 !! name).
  { unfold prepared_folder. rewrite HF1. reflexivity. }
  rewrite clear_old_images_lookup, prepared_folder_lookup.
  destruct (Py.endswith name ".png") eqn:E; [reflexivity |].
  pose proof (run_result_other_names roi st thr (prepared_folder w) (video_file w) name E) as H.
  fold w1 in H. unfold existing_files in H at 1. rewrite HF1 in H.
  rewrite H, prepared_folder_lookup, E. reflexivity.
Qed.

(** X6: a second run on what the first run left gives the same outcome
    and leaves the same directory: the images are wiped and written
    again. *)
Theorem second_run_changes_nothing
    (roi : option Rect) (scene_threshold change_threshold : Q) (w : World) :
  let first := fst (run roi scene_threshold change_threshold w) in
  fst (run roi scene_threshold change_threshold (snd first)) = first.
Proof.
  cbv zeta. subst run. rewrite !main_result.
  rewrite prepared_again.
  fold result. rewrite run_result_video. reflexivity.
Qed.

(** X7: a run that finishes has counted one write per interval of the
    scenes; every [.png] file of the directory then holds the image of
    one of these intervals under its name, and every interval has its
    name in the directory. *)
Theorem finished_run_contents
    (roi : option Rect) (scene_threshold change_threshold : Q) (w : World) (total : Z) :
  fst (fst (run roi scene_threshold change_threshold w)) = Finished total ->
  exists video crop_rect,
    video_file w = Some video /\
    resolved_region pick_region roi w = Some crop_rect /\
    let fps := video_fps video in
    let ivs := all_intervals crop_rect change_threshold fps (video_frames video)
                 (detect_scenes video scene_threshold) in
    let folder := existing_files (snd (fst (run roi scene_threshold change_threshold w))) in
    total = Z.of_nat (List.length ivs) /\
    (forall name img,
        folder !! name = Some img -> Py.endswith name ".png" = true ->
        exists iv, In iv ivs /\ img_name fps iv = Ok name /\ representative_image iv = img) /\
    (forall iv, In iv ivs ->
        exists name, img_name fps iv = Ok name /\ is_Some (folder !! name)).
Proof.
  subst run. rewrite main_result. unfold run_result.
  assert (Hreg : resolved_region pick_region roi
                   {| temp_folder := Some (prepared_folder w); video_file := video_file w |}
                 = resolved_region pick_region roi w) by reflexivity.
  rewrite Hreg.
  destruct (resolved_region pick_region roi w) as [crop_rect |]; [| discriminate].
  destruct (video_file w) as [video |]; [| discriminate].
  destruct (detect_scenes video scene_threshold) as [| scene rest] eqn:Es; [discriminate |].
  set (ivs := all_intervals crop_rect change_threshold (video_fps video)
                (video_frames video) (scene :: rest)).
  destruct (scene_writes crop_rect change_threshold (video_fps video)
              (video_frames video) (scene :: rest)) as [ivs0 loop_raised] eqn:Esw.
  destruct (write_all (video_fps video) ivs0 (prepared_folder w, 0))
    as [[F' n'] [e |]] eqn:Ew; [discriminate |].
  destruct loop_raised as [e |]; [discriminate |].
  apply scene_writes_all in Esw. fold ivs in Esw. subst ivs0.
  cbn [fst snd]. intros [= <-].
  exists video, crop_rect. split; [reflexivity |]. split; [reflexivity |].
  cbv zeta. cbn [existing_files temp_folder]. rewrite Es. fold ivs.
  split; [pose proof (write_all_count _ _ _ _ _ _ Ew); lia |]. split.
  - intros name img Hl Hpng.
    pose proof (write_all_provenance (video_fps video) name img ivs (prepared_folder w) 0) as Hp.
    rewrite Ew in Hp. destruct (Hp Hl) as [Hold | Hiv]; [| exact Hiv].
    rewrite prepared_folder_lookup, Hpng in Hold. discriminate.
  - exact (write_all_present _ _ _ _ _ _ Ew).
Qed.

End DriverExtraClaims.

(** * Further properties of the codec and of the name parser *)


Lemma zeros_length k : String.length (Py.zeros k) = k.
Proof. induction k as [| k IH]; cbn; [reflexivity | rewrite IH; reflexivity]. Qed.

Lemma zeros_digits k : all_digits (Py.zeros k) = true.
Proof. induction k as [| k IH]; [reflexivity | exact IH]. Qed.

Lemma decimal_digits_digits fuel : forall n acc,
  all_digits acc = true -> all_digits (Py.decimal_digits fuel n acc) = true.
Proof.
  induction fuel as [| k IH]; intros n acc Hacc; [exact Hacc |].
  cbn [Py.decimal_digits].
  assert (Hd : all_digits (String (Py.digit_char (n mod 10)) acc) = true).
  { unfold all_digits in *. cbn. rewrite is_digit_digit_char, Hacc; [reflexivity |].
    apply Z.mod_pos_bound. lia. }
  destruct (n <? 10); [exact Hd | apply IH, Hd].
Qed.

Lemma format_0d_nonneg_digits width n :
  0 <= n ->
  all_digits (Py.format_0d width n) = true /\
  (width <= String.length (Py.format_0d width n))%nat.
Proof.
  intros Hn. unfold Py.format_0d.
  destruct (n <? 0) eqn:E; [lia |]. split.
  - unfold all_digits. rewrite all_chars_append.
    fold (all_digits (Py.zeros (width - String.length (Py.str_nonneg (Z.abs n))))).
    fold (all_digits (Py.str_nonneg (Z.abs n))).
    rewrite zeros_digits. unfold Py.str_nonneg. rewrite decimal_digits_digits; reflexivity.
  - rewrite length_append, zeros_length. lia.
Qed.

Lemma two_digits_shape n :
  0 <= n < 100 -> all_digits (two_digits n) = true /\ String.length (two_digits n) = 2%nat.
Proof.
  intros H. split; [| reflexivity]. unfold all_digits, two_digits. cbn.
  rewrite !is_digit_digit_char; [reflexivity | |]; Z.div_mod_to_equations; lia.
Qed.

Lemma three_digits_shape n :
  0 <= n < 1000 -> all_digits (three_digits n) = true /\ String.length (three_digits n) = 3%nat.
Proof.
  intros H. split; [| reflexivity]. unfold all_digits, three_digits. cbn.
  rewrite !is_digit_digit_char; [reflexivity | | |]; Z.div_mod_to_equations; lia.
Qed.

(** X9: for a positive rate and a frame that is not negative, at any
    length of video, the time stamp is an hour field of at least two
    digits followed by fields of exactly 2, 2 and 3 digits. *)
Theorem timestamp_open_pattern (frame_count : Z) (fps : Q) (s : string) :
  (0 < fps)%Q -> 0 <= frame_count ->
  frames_to_time_str frame_count fps = Ok s ->
  matches_open_pattern s = true.
Proof.
  intros Hfps Hf. rewrite frames_to_time_str_fields.
  destruct (Py.truediv frame_count fps) as [seconds | e] eqn:D.
  2:{ unfold time_fields.
      destruct (Qeq_bool fps 0) eqn:Ez;
        [apply Qeq_bool_iff in Ez; destruct (positive_not_zero fps Hfps Ez) |].
      rewrite D. discriminate. }
  destruct (truediv_nonneg frame_count fps _ Hfps Hf D) as [-> | [x [-> [Hx Hs]]]].
  { unfold time_fields.
    destruct (Qeq_bool fps 0) eqn:Ez;
      [apply Qeq_bool_iff in Ez; destruct (positive_not_zero fps Hfps Ez) |].
    rewrite D. discriminate. }
  rewrite (time_fields_seconds frame_count fps x (positive_not_zero fps Hfps) D Hx Hs).
  destruct (printed_ms_split x Hx Hs) as [H0 _].
  set (t := printed_ms x) in *.
  destruct (Py.timedelta _); [| discriminate].
  intros Heq.
  assert (Hs' : s = underscore_form (t / 1000 / 3600, t / 1000 mod 3600 / 60,
                                     t / 1000 mod 3600 mod 60, t mod 1000))
    by (injection Heq; intros; symmetry; assumption).
  rewrite Hs', underscore_form_joined. unfold matches_open_pattern.
  rewrite split_underscore_4 by apply format_0d_field.
  assert (Hh : 0 <= t / 1000 / 3600) by (Z.div_mod_to_equations; lia).
  destruct (format_0d_nonneg_digits 2 (t / 1000 / 3600) Hh) as [Hd Hl].
  rewrite Hd. apply Nat.leb_le in Hl. rewrite Hl.
  rewrite !format_two_digits, format_three_digits by (Z.div_mod_to_equations; lia).
  destruct (two_digits_shape (t / 1000 mod 3600 / 60)) as [-> ->];
    [Z.div_mod_to_equations; lia |].
  destruct (two_digits_shape (t / 1000 mod 3600 mod 60)) as [-> ->];
    [Z.div_mod_to_equations; lia |].
  destruct (three_digits_shape (t mod 1000)) as [-> ->];
    [Z.div_mod_to_equations; lia |].
  reflexivity.
Qed.

Lemma split_from_absent sep s : forall cur,
  sep <> "" -> occurs sep s = false -> Py.split_from sep 0 cur s = [cur ++ s].
Proof.
  induction s as [| c s IH]; intros cur Hsep Hocc.
  - rewrite append_nil_r. reflexivity.
  - cbn [occurs] in Hocc. apply orb_false_iff in Hocc as [Hp Ho].
    cbn [Py.split_from]. rewrite Hp, (IH _ Hsep Ho), append_assoc. reflexivity.
Qed.

(** X10: a file name whose stem holds no double underscore makes the
    parser of the OCR stage raise [IndexError]. *)
Theorem name_without_separator_raises (img_name : string) :
  occurs "__" (fst (Py.splitext img_name)) = false ->
  srt_times img_name = Raise IndexError.
Proof.
  intros H. unfold srt_times, Py.split.
  rewrite (split_from_absent "__" _ "" ltac:(discriminate) H). reflexivity.
Qed.

(** * The paths of the launcher *)

Lemma rfind_last_append c z t :
  Py.rfind_last c (z ++ t)
    = match Py.rfind_last c t with
      | Some i => Some (String.length z + i)%nat
      | None => Py.rfind_last c z
      end.
Proof.
  induction z as [| x z IH].
  - rewrite append_nil_l. destruct (Py.rfind_last c t); reflexivity.
  - rewrite append_cons. cbn [Py.rfind_last]. rewrite IH.
    destruct (Py.rfind_last c t); reflexivity.
Qed.

Lemma rfind_last_bound c p i : Py.rfind_last c p = Some i -> (i < String.length p)%nat.
Proof.
  revert i. induction p as [| x p IH]; intros i; [discriminate |].
  cbn [Py.rfind_last String.length]. destruct (Py.rfind_last c p) as [j |].
  - intros [= <-]. specialize (IH j eq_refl). lia.
  - destruct (Ascii.eqb x c); [intros [= <-]; lia | discriminate].
Qed.

(** The string up to the last occurrence, and what follows it. *)
Lemma rfind_last_split c p i :
  Py.rfind_last c p = Some i ->
  p = substring 0 i p ++ String c (substring (S i) (String.length p - S i) p)
  /\ String.length (substring 0 i p) = i.
Proof.
  revert i. induction p as [| x p IH]; intros i; [discriminate |].
  cbn [Py.rfind_last]. destruct (Py.rfind_last c p) as [j |] eqn:E.
  - intros [= <-]. destruct (IH j eq_refl) as [Hp Hl].
    cbn [substring String.length Nat.sub]. rewrite append_cons, Hl. split; [| reflexivity].
    f_equal. exact Hp.
  - destruct (Ascii.eqb_spec x c) as [-> | _]; [| discriminate]. intros [= <-].
    cbn [substring String.length Nat.sub]. rewrite append_nil_l, Nat.sub_0_r.
    split; [| reflexivity]. f_equal. clear. induction p as [| y p IH]; [reflexivity |].
    cbn. f_equal. exact IH.
Qed.

Lemma substring_within n m a b :
  (n + m <= String.length a)%nat -> substring n m (a ++ b) = substring n m a.
Proof.
  revert n m. induction a as [| c a IH]; intros n m H.
  - cbn in H. assert (n = 0%nat) by lia. assert (m = 0%nat) by lia. subst.
    rewrite append_nil_l. destruct b; reflexivity.
  - rewrite append_cons. cbn [String.length] in H. destruct n as [| n].
    + destruct m as [| m]; [reflexivity |]. cbn [substring]. f_equal. apply IH. cbn. lia.
    + cbn [substring]. apply IH. lia.
Qed.

Lemma substring_suffix a b : substring (String.length a) (String.length b) (a ++ b) = b.
Proof.
  induction a as [| c a IH].
  - rewrite append_nil_l. cbn [String.length]. clear. induction b as [| y b IH]; [reflexivity |].
    cbn. f_equal. exact IH.
  - rewrite append_cons. cbn [String.length substring]. exact IH.
Qed.

Lemma rfind_last_none c s : all_chars (differs c) s = true -> Py.rfind_last c s = None.
Proof.
  induction s as [| x s IH]; [reflexivity |]. cbn. intros H.
  apply andb_true_iff in H as [Hx Hs]. rewrite (IH Hs).
  unfold differs in Hx. destruct (Ascii.eqb x c); [discriminate | reflexivity].
Qed.

Lemma rfind_sep_bound p : -1 <= Py.rfind "/" p < Z.of_nat (String.length p).
Proof.
  unfold Py.rfind. destruct (Py.rfind_last "/" p) as [i |] eqn:E; [| lia].
  pose proof (rfind_last_bound _ _ _ E). lia.
Qed.

(** An extension added to a path whose last component is not made of dots
    only is the extension [splitext] finds. *)
Lemma splitext_added_extension base e :
  all_chars (differs ".") e = true -> all_chars (differs "/") e = true ->
  Py.all_dots (basename base) = false ->
  Py.splitext (base ++ String "." e) = (base, String "." e).
Proof.
  intros Hdot Hsep Hname. pose proof (rfind_sep_bound base) as Hb.
  unfold basename in Hname. unfold Py.splitext.
  assert (Es : Py.rfind "/" (base ++ String "." e) = Py.rfind "/" base).
  { unfold Py.rfind. rewrite rfind_last_append.
    cbn [Py.rfind_last]. rewrite (rfind_last_none _ _ Hsep). reflexivity. }
  assert (Ed : Py.rfind "." (base ++ String "." e) = Z.of_nat (String.length base)).
  { unfold Py.rfind. rewrite rfind_last_append.
    cbn [Py.rfind_last]. rewrite (rfind_last_none _ _ Hdot). cbn. f_equal. lia. }
  rewrite Es, Ed.
  replace (Z.of_nat (String.length base) >? Py.rfind "/" base) with true
    by (symmetry; rewrite Z.gtb_ltb; apply Z.ltb_lt; lia).
  replace (Z.to_nat (Z.of_nat (String.length base) - (Py.rfind "/" base + 1)))
    with (String.length base - Z.to_nat (Py.rfind "/" base + 1))%nat by lia.
  rewrite substring_within by lia. rewrite Hname. cbn [andb negb].
  rewrite Nat2Z.id, substring_prefix. f_equal.
  rewrite length_append.
  replace (String.length base + String.length (String "." e) - String.length base)%nat
    with (String.length (String "." e)) by lia.
  apply substring_suffix.
Qed.

(** The root [splitext] returns has a last component that is not made of
    dots only, when the path has one. *)
Lemma splitext_root_basename p :
  Py.all_dots (basename p) = false -> Py.all_dots (basename (fst (Py.splitext p))) = false.
Proof.
  intros Hname. unfold Py.splitext.
  destruct (_ && _) eqn:Ec; [| exact Hname]. cbn [fst].
  apply andb_true_iff in Ec as [Hgt Hnd]. apply negb_true_iff in Hnd.
  rewrite Z.gtb_ltb in Hgt. apply Z.ltb_lt in Hgt.
  pose proof (rfind_sep_bound p) as Hb.
  destruct (Py.rfind_last "." p) as [d |] eqn:Ed.
  2:{ assert (Edot : Py.rfind "." p = -1) by (unfold Py.rfind; rewrite Ed; reflexivity).
      lia. }
  assert (Edot : Py.rfind "." p = Z.of_nat d) by (unfold Py.rfind; rewrite Ed; reflexivity).
  rewrite Edot in *. destruct (rfind_last_split _ _ _ Ed) as [Hp Hl]. rewrite Nat2Z.id in *.
  set (pre := substring 0 d p) in *.
  set (suf := substring (S d) (String.length p - S d) p) in *.
  assert (Es : Py.rfind "/" pre = Py.rfind "/" p).
  { rewrite Hp at 1. rewrite Hp in Hgt. unfold Py.rfind in Hgt |- *.
    rewrite rfind_last_append in *.
    destruct (Py.rfind_last "/" (String "." suf)) as [j |]; [lia | reflexivity]. }
  unfold basename. rewrite Es, Hl.
  replace (Z.to_nat (Z.of_nat d - (Py.rfind "/" p + 1)))
    with (d - Z.to_nat (Py.rfind "/" p + 1))%nat in Hnd by lia.
  pose proof (substring_within (Z.to_nat (Py.rfind "/" p + 1))
                (d - Z.to_nat (Py.rfind "/" p + 1)) pre (String "." suf)) as Hw.
  rewrite <- Hp in Hw. rewrite <- Hw; [exact Hnd | lia].
Qed.

(** X22: the launcher derives the image folder and the subtitle file from
    the base path of the video, and the translated file from the subtitle
    file.  When the file name of the video has a character other than a
    dot, all three share the base path of the video: the subtitle file has
    the extension [.srt] after it, the translation is written to
    [<base>.vi.srt], and the image folder is [<base>_sub_images]. *)
Theorem launcher_paths_share_base path image_folder srt_path :
  select_video path = Some (image_folder, srt_path) ->
  Py.all_dots (basename path) = false ->
  Py.splitext srt_path = (fst (Py.splitext path), ".srt")
  /\ output_path srt_path = fst (Py.splitext path) ++ ".vi.srt"
  /\ image_folder = fst (Py.splitext srt_path) ++ "_sub_images".
Proof.
  intros Hs Hname. unfold select_video in Hs.
  destruct path as [| c path]; [discriminate |]. cbv zeta in Hs.
  injection Hs as <- <-.
  pose proof (splitext_added_extension _ "srt" eq_refl eq_refl
                (splitext_root_basename _ Hname)) as E.
  unfold output_path. rewrite E. auto.
Qed.

(** * Properties of the text stages *)

Local Open Scope list_scope.

(** ** Stripping *)

Section Stripping.

Variable p : N -> bool.

Lemma lstrip_with_head (s : list N) :
  match Uni.lstrip_with p s with
  | [] => True
  | c :: _ => p c = false
  end.
Proof.
  induction s as [| c s IH]; cbn; [exact I |].
  destruct (p c) eqn:E; [exact IH | exact E].
Qed.

Lemma lstrip_with_keep (c : N) (s : list N) :
  p c = false -> Uni.lstrip_with p (c :: s) = c :: s.
Proof. intros H. cbn. rewrite H. reflexivity. Qed.

Lemma lstrip_with_idem (s : list N) :
  Uni.lstrip_with p (Uni.lstrip_with p s) = Uni.lstrip_with p s.
Proof.
  pose proof (lstrip_with_head s) as H.
  destruct (Uni.lstrip_with p s) as [| c r]; [reflexivity |].
  apply lstrip_with_keep, H.
Qed.

Lemma lstrip_with_snoc (s : list N) (c : N) :
  p c = false -> Uni.lstrip_with p (s ++ [c]) = Uni.lstrip_with p s ++ [c].
Proof.
  intros H. induction s as [| x s IH]; cbn.
  - rewrite H. reflexivity.
  - destruct (p x); [exact IH | reflexivity].
Qed.

Lemma lstrip_with_all (s : list N) : forallb p s = true -> Uni.lstrip_with p s = [].
Proof.
  induction s as [| c s IH]; cbn; [reflexivity |].
  intros H. apply andb_true_iff in H as [Hc Hs]. rewrite Hc. exact (IH Hs).
Qed.

Lemma rstrip_with_cons (c : N) (s : list N) :
  p c = false -> Uni.rstrip_with p (c :: s) = c :: Uni.rstrip_with p s.
Proof.
  intros H. unfold Uni.rstrip_with. cbn [rev].
  rewrite (lstrip_with_snoc _ _ H), rev_app_distr. reflexivity.
Qed.

Lemma rstrip_with_idem (s : list N) :
  Uni.rstrip_with p (Uni.rstrip_with p s) = Uni.rstrip_with p s.
Proof. unfold Uni.rstrip_with. rewrite rev_involutive, lstrip_with_idem. reflexivity. Qed.

Lemma rstrip_with_snoc_keep (s : list N) (c : N) :
  p c = false -> Uni.rstrip_with p (s ++ [c]) = s ++ [c].
Proof.
  intros H. unfold Uni.rstrip_with. rewrite rev_app_distr. cbn [rev app].
  rewrite (lstrip_with_keep _ _ H). cbn [rev]. rewrite rev_involutive. reflexivity.
Qed.

Lemma rstrip_with_app_all (s t : list N) :
  forallb p t = true -> Uni.rstrip_with p (s ++ t) = Uni.rstrip_with p s.
Proof.
  intros H. unfold Uni.rstrip_with. rewrite rev_app_distr. f_equal.
  assert (Ht : forallb p (rev t) = true).
  { rewrite forallb_forall in *. intros x Hx. apply H, in_rev, Hx. }
  induction (rev t) as [| x r IH]; [reflexivity |].
  cbn in *. apply andb_true_iff in Ht as [Hx Hr]. rewrite Hx. exact (IH Hr).
Qed.

(** Stripping keeps what holds of every character. *)
Lemma lstrip_with_forallb (q : N -> bool) (s : list N) :
  forallb q s = true -> forallb q (Uni.lstrip_with p s) = true.
Proof.
  induction s as [| c s IH]; cbn; [reflexivity |].
  intros H. destruct (p c); [| exact H].
  apply andb_true_iff in H as [_ Hs]. exact (IH Hs).
Qed.

Lemma forallb_rev (q : N -> bool) (s : list N) : forallb q (rev s) = forallb q s.
Proof.
  induction s as [| c s IH]; [reflexivity |].
  cbn [rev]. rewrite forallb_app, IH. cbn. rewrite andb_true_r, andb_comm. reflexivity.
Qed.

Lemma rstrip_with_forallb (q : N -> bool) (s : list N) :
  forallb q s = true -> forallb q (Uni.rstrip_with p s) = true.
Proof.
  intros H. unfold Uni.rstrip_with. rewrite forallb_rev.
  apply lstrip_with_forallb. rewrite forallb_rev. exact H.
Qed.

End Stripping.

Lemma strip_head (s : list N) :
  match Uni.strip s with
  | [] => True
  | c :: _ => Uni.isspace c = false
  end.
Proof.
  unfold Uni.strip. pose proof (lstrip_with_head Uni.isspace s) as H.
  destruct (Uni.lstrip_with Uni.isspace s) as [| c r]; [exact I |].
  rewrite (rstrip_with_cons _ _ _ H). exact H.
Qed.

Lemma strip_cons (c : N) (s : list N) :
  Uni.isspace c = false -> Uni.strip (c :: s) = c :: Uni.rstrip_with Uni.isspace s.
Proof.
  intros H. unfold Uni.strip. rewrite (lstrip_with_keep _ _ _ H).
  apply rstrip_with_cons, H.
Qed.

Lemma strip_idem (s : list N) : Uni.strip (Uni.strip s) = Uni.strip s.
Proof.
  pose proof (strip_head s) as H. unfold Uni.strip at 1.
  destruct (Uni.strip s) as [| c r] eqn:E; [reflexivity |].
  rewrite (lstrip_with_keep _ _ _ H), <- E. unfold Uni.strip. apply rstrip_with_idem.
Qed.

Lemma strip_all_space (s : list N) : forallb Uni.isspace s = true -> Uni.strip s = [].
Proof. intros H. unfold Uni.strip. rewrite (lstrip_with_all _ _ H). reflexivity. Qed.

Lemma strip_forallb (q : N -> bool) (s : list N) :
  forallb q s = true -> forallb q (Uni.strip s) = true.
Proof. intros H. apply rstrip_with_forallb, lstrip_with_forallb, H. Qed.

Lemma last_cons_cons {A} (a b : A) (l : list A) (d : A) :
  List.last (a :: b :: l) d = List.last (b :: l) d.
Proof. reflexivity. Qed.

Lemma rstrip_with_last (p : N -> bool) (s : list N) :
  match Uni.rstrip_with p s with
  | [] => True
  | c :: r => p (List.last (c :: r) 0%N) = false
  end.
Proof.
  unfold Uni.rstrip_with. pose proof (lstrip_with_head p (rev s)) as H.
  destruct (Uni.lstrip_with p (rev s)) as [| c r]; [exact I |].
  cbn [rev]. destruct (rev r ++ [c]) as [| x y] eqn:E.
  - exact I.
  - rewrite <- E, last_last. exact H.
Qed.

(** A stripped text that is not empty is trimmed, and a trimmed text is
    what [strip] returns for it. *)
Lemma strip_trimmed (s : list N) : Uni.strip s <> [] -> trimmed (Uni.strip s) = true.
Proof.
  intros Hne. pose proof (strip_head s) as Hh.
  pose proof (rstrip_with_last Uni.isspace (Uni.lstrip_with Uni.isspace s)) as Hl.
  fold (Uni.strip s) in Hl.
  destruct (Uni.strip s) as [| c r]; [congruence |].
  unfold trimmed. rewrite Hh, Hl. reflexivity.
Qed.

Lemma trimmed_strip (s : list N) : trimmed s = true -> Uni.strip s = s.
Proof.
  destruct s as [| c s]; [discriminate |]. unfold trimmed.
  intros H. apply andb_true_iff in H as [Hc Hl].
  apply negb_true_iff in Hc, Hl.
  rewrite (strip_cons _ _ Hc). f_equal.
  destruct (@exists_last _ (c :: s) ltac:(discriminate)) as [body [d E]].
  rewrite E, last_last in Hl.
  destruct body as [| c' body].
  - cbn in E. injection E as -> ->. reflexivity.
  - cbn in E. injection E as -> ->. apply rstrip_with_snoc_keep, Hl.
Qed.

(** ** Cleaning the recognised text *)

Lemma single_line_app (s t : list N) :
  single_line (s ++ t) = single_line s && single_line t.
Proof. apply forallb_app. Qed.

Lemma splitlines_from_single_line (s cur : list N) :
  single_line cur = true -> Forall (fun l => single_line l = true) (Uni.splitlines_from cur s).
Proof.
  remember (List.length s) as n eqn:Hn.
  assert (Hle : (List.length s <= n)%nat) by lia. clear Hn.
  revert s cur Hle. induction n as [| n IH]; intros s cur Hle Hcur.
  - destruct s; [| cbn in Hle; lia]. cbn. destruct cur; constructor; auto.
  - destruct s as [| c s]; cbn.
    + destruct cur; constructor; auto.
    + cbn in Hle. destruct (Uni.islinebreak c) eqn:Eb.
      * constructor; [exact Hcur |].
        destruct (N.eqb c 13); [| apply IH; [lia | reflexivity]].
        destruct s as [| c' s']; [apply IH; [cbn; lia | reflexivity] |].
        destruct (N.eqb c' 10); apply IH; cbn in *; try lia; reflexivity.
      * apply IH; [lia |]. rewrite single_line_app, Hcur. cbn. rewrite Eb. reflexivity.
Qed.

Lemma join_single_line (sep : list N) (parts : list (list N)) :
  single_line sep = true ->
  Forall (fun l => single_line l = true) parts ->
  single_line (Uni.join sep parts) = true.
Proof.
  intros Hsep H. induction H as [| x rest Hx Hrest IH]; [reflexivity |].
  cbn [Uni.join]. destruct rest as [| y rest']; [exact Hx |].
  rewrite !single_line_app, Hx, Hsep, IH. reflexivity.
Qed.

Lemma Forall_filter_keep {A} (P : A -> Prop) (f : A -> bool) (l : list A) :
  Forall P l -> Forall P (List.filter f l).
Proof.
  induction 1 as [| x l Hx Hl IH]; cbn; [constructor |].
  destruct (f x); [constructor; assumption | assumption].
Qed.

(** X11: the text kept for an image is one line, whatever line boundaries
    Google Drive's export contains, and it has no white space at either
    end: stripping it again changes nothing, and when it is not empty its
    first and last characters are not white space. *)
Theorem cleaned_text_is_one_trimmed_line (text_content : list N) :
  single_line (clean_ocr_text text_content) = true /\
  Uni.strip (clean_ocr_text text_content) = clean_ocr_text text_content /\
  (clean_ocr_text text_content <> [] -> trimmed (clean_ocr_text text_content) = true).
Proof.
  unfold clean_ocr_text. split; [| split].
  - apply strip_forallb. unfold Uni.lstrip_chars. apply lstrip_with_forallb.
    apply join_single_line; [reflexivity |].
    apply Forall_filter_keep, splitlines_from_single_line. reflexivity.
  - apply strip_idem.
  - apply strip_trimmed.
Qed.

(** ** The retry loops *)

Lemma ocr_loop_slept (remaining retries : nat) (attempt : nat -> DriveAttempt)
    (slept : list Z) :
  exists k : nat,
    (k <= remaining)%nat /\
    snd (ocr_loop remaining retries attempt slept)
      = slept ++ map (fun j => 2 ^ Z.of_nat (retries + j)) (seq 1 k) /\
    (forall j, (j < k)%nat -> retried (attempt (retries + j)%nat) = true) /\
    ((k = remaining /\ fst (ocr_loop remaining retries attempt slept) = []) \/
     ((k < remaining)%nat /\ retried (attempt (retries + k)%nat) = false /\
      fst (ocr_loop remaining retries attempt slept)
        = match attempt (retries + k)%nat with
          | DriveText text_content => clean_ocr_text text_content
          | _ => []
          end)).
Proof.
  revert retries slept. induction remaining as [| remaining IH]; intros retries slept.
  - exists 0%nat. cbn. rewrite app_nil_r.
    split; [lia | split; [reflexivity | split; [intros; lia | left; auto]]].
  - cbn [ocr_loop]. destruct (attempt retries) as [t | | status |] eqn:Ea.
    1,2,4: exists 0%nat; cbn [seq map fst snd]; rewrite app_nil_r, Nat.add_0_r, Ea;
      (split; [lia | split; [reflexivity | split; [intros; lia |
         right; split; [lia | split; reflexivity]]]]).
    destruct ((status =? 403) || (status =? 500) || (status =? 503)) eqn:Es.
    + destruct (IH (S retries) (slept ++ [2 ^ Z.of_nat (S retries)])) as (k & Hk & Hs & Hr & Hres).
      exists (S k). split; [lia |]. split; [| split].
      * rewrite Hs, <- app_assoc. f_equal. cbn [seq map app].
        replace (retries + 1)%nat with (S retries) by lia. f_equal.
        rewrite <- (seq_shift k 1), List.map_map. apply List.map_ext. intros j.
        f_equal. lia.
      * intros [| j] Hj.
        -- rewrite Nat.add_0_r, Ea. exact Es.
        -- replace (retries + S j)%nat with (S retries + j)%nat by lia. apply Hr. lia.
      * replace (retries + S k)%nat with (S retries + k)%nat by lia.
        destruct Hres as [[-> Hres] | (Hlt & Hn & Hres)]; [left | right]; repeat split; auto; lia.
    + exists 0%nat. cbn [seq map fst snd]. rewrite app_nil_r, Nat.add_0_r, Ea.
      split; [lia | split; [reflexivity | split; [intros; lia |
        right; split; [lia | split; [exact Es | reflexivity]]]]].
Qed.

(** X12: [ocr_image_with_google_drive] enters the try block at most three
    times.  It is entered again only after an HTTP error 403, 500 or 503,
    and the waits before the retries are 2, 4 and 8 seconds, in this order.
    After three such errors the result is the empty text; otherwise it is
    decided by the first attempt that ends differently: the cleaned text
    when there is one, the empty text in every other case. *)
Theorem ocr_retries_bounded (attempt : nat -> DriveAttempt) :
  exists k : nat,
    (k <= 3)%nat /\
    snd (ocr_image_with_google_drive attempt) = firstn k [2; 4; 8] /\
    (forall j, (j < k)%nat -> retried (attempt j) = true) /\
    ((k = 3%nat /\ fst (ocr_image_with_google_drive attempt) = []) \/
     ((k < 3)%nat /\ retried (attempt k) = false /\
      fst (ocr_image_with_google_drive attempt)
        = match attempt k with
          | DriveText text_content => clean_ocr_text text_content
          | _ => []
          end)).
Proof.
  unfold ocr_image_with_google_drive, OCR_MAX_RETRIES.
  destruct (ocr_loop_slept 3 0 attempt []) as (k & Hk & Hs & Hr & Hres).
  exists k. split; [exact Hk |]. split; [| split; [exact Hr | exact Hres]].
  rewrite Hs. destruct k as [| [| [| [| k]]]]; try reflexivity. lia.
Qed.

Lemma translate_loop_slept (remaining retries : nat) (attempt : nat -> GeminiAttempt)
    (slept : list Z) :
  exists k : nat,
    (k <= remaining)%nat /\
    snd (translate_loop remaining retries attempt slept) = slept ++ repeat RETRY_DELAY k /\
    (forall j, (j < k)%nat -> attempt (retries + j)%nat = GeminiRequestException) /\
    ((k = remaining /\
      fst (translate_loop remaining retries attempt slept) = Uni.lit "[[Translation Failed]]") \/
     ((k < remaining)%nat /\
      match attempt (retries + k)%nat with
      | GeminiText (c :: t) =>
          fst (translate_loop remaining retries attempt slept) = Uni.strip (c :: t)
      | GeminiText [] | GeminiUnexpected =>
          fst (translate_loop remaining retries attempt slept)
            = Uni.lit "[[Translation Error: Unexpected Response]]"
      | GeminiRequestException => False
      | GeminiOtherError message =>
          fst (translate_loop remaining retries attempt slept)
            = Uni.lit "[[Translation Error: " ++ message ++ Uni.lit "]]"
      end)).
Proof.
  revert retries slept. induction remaining as [| remaining IH]; intros retries slept.
  - exists 0%nat. cbn. rewrite app_nil_r.
    split; [lia | split; [reflexivity | split; [intros; lia | left; auto]]].
  - cbn [translate_loop]. destruct (attempt retries) as [[| c t] | | | message] eqn:Ea.
    1,2,3,5: exists 0%nat; cbn [repeat fst snd]; rewrite app_nil_r, Nat.add_0_r, Ea;
      (split; [lia | split; [reflexivity | split; [intros; lia |
         right; split; [lia | reflexivity]]]]).
    destruct (IH (S retries) (slept ++ [RETRY_DELAY])) as (k & Hk & Hs & Hr & Hres).
    exists (S k). split; [lia |]. split; [| split].
    + rewrite Hs, <- app_assoc. reflexivity.
    + intros [| j] Hj.
      * rewrite Nat.add_0_r. exact Ea.
      * replace (retries + S j)%nat with (S retries + j)%nat by lia. apply Hr. lia.
    + replace (retries + S k)%nat with (S retries + k)%nat by lia.
      destruct Hres as [[-> Hres] | (Hlt & Hres)]; [left | right]; split; auto; lia.
Qed.

(** X13: for a text that is not empty, [translate_text_with_gemini] sends at
    most five requests.  It sends another one only after a
    [RequestException], each time after a wait of five seconds.  After five
    such exceptions the result is ["[[Translation Failed]]"]; otherwise it
    is decided by the first attempt that ends differently: the stripped
    translation, or one of the two error texts. *)
Theorem translation_retries_bounded (text : list N) (attempt : nat -> GeminiAttempt) :
  text <> [] ->
  exists k : nat,
    (k <= 5)%nat /\
    snd (translate_text_with_gemini text attempt) = Some (repeat 5 k) /\
    (forall j, (j < k)%nat -> attempt j = GeminiRequestException) /\
    ((k = 5%nat /\
      fst (translate_text_with_gemini text attempt) = Uni.lit "[[Translation Failed]]") \/
     ((k < 5)%nat /\
      match attempt k with
      | GeminiText (c :: t) =>
          fst (translate_text_with_gemini text attempt) = Uni.strip (c :: t)
      | GeminiText [] | GeminiUnexpected =>
          fst (translate_text_with_gemini text attempt)
            = Uni.lit "[[Translation Error: Unexpected Response]]"
      | GeminiRequestException => False
      | GeminiOtherError message =>
          fst (translate_text_with_gemini text attempt)
            = Uni.lit "[[Translation Error: " ++ message ++ Uni.lit "]]"
      end)).
Proof.
  intros Hne. destruct text as [| c0 text]; [congruence |].
  unfold translate_text_with_gemini, MAX_RETRIES.
  destruct (translate_loop_slept 5 0 attempt []) as (k & Hk & Hs & Hr & Hres).
  destruct (translate_loop 5 0 attempt []) as [result slept] eqn:El.
  cbn [fst snd] in *. exists k. split; [exact Hk |].
  split; [rewrite Hs; reflexivity |]. split; [exact Hr | exact Hres].
Qed.

(** ** Splitting and joining *)

Lemma starts_with_one (a : N) (s : list N) :
  Uni.starts_with [a] s = match s with [] => false | c :: _ => N.eqb a c end.
Proof. destruct s as [| c s]; cbn; [reflexivity | apply andb_true_r]. Qed.

Lemma split_from_nonempty (sep : list N) (skip : nat) (cur s : list N) :
  Uni.split_from sep skip cur s <> [].
Proof.
  revert skip cur. induction s as [| c s IH]; intros skip cur; cbn; [discriminate |].
  destruct skip; [| apply IH]. destruct (Uni.starts_with sep (c :: s)); [discriminate | apply IH].
Qed.

Lemma join_cons (sep x : list N) (rest : list (list N)) :
  rest <> [] -> Uni.join sep (x :: rest) = x ++ sep ++ Uni.join sep rest.
Proof. destruct rest; [congruence | reflexivity]. Qed.

(** Cutting at one character. *)
Section OneCharacter.

Variable a : N.

Lemma split1_rest (x cur rest : list N) :
  has_no a x = true ->
  Uni.split_from [a] 0 cur (x ++ a :: rest) = (cur ++ x) :: Uni.split_from [a] 0 [] rest.
Proof.
  revert cur. induction x as [| c x IH]; intros cur H.
  - cbn. rewrite N.eqb_refl, app_nil_r. reflexivity.
  - cbn in H. apply andb_true_iff in H as [Hc Hx]. apply negb_true_iff in Hc.
    cbn. rewrite N.eqb_sym, Hc. cbn. rewrite (IH _ Hx), <- app_assoc. reflexivity.
Qed.

Lemma split1_pieces (s cur : list N) :
  has_no a cur = true ->
  Forall (fun piece => has_no a piece = true) (Uni.split_from [a] 0 cur s).
Proof.
  revert cur. induction s as [| c s IH]; intros cur H; cbn.
  - constructor; [exact H | constructor].
  - destruct (N.eqb a c) eqn:E; cbn.
    + constructor; [exact H | apply IH; reflexivity].
    + apply IH. unfold has_no. rewrite forallb_app. fold (has_no a cur). rewrite H. cbn.
      rewrite N.eqb_sym, E. reflexivity.
Qed.

Lemma join_split1 (s cur : list N) :
  Uni.join [a] (Uni.split_from [a] 0 cur s) = cur ++ s.
Proof.
  revert cur. induction s as [| c s IH]; intros cur; cbn [Uni.split_from].
  - cbn. rewrite app_nil_r. reflexivity.
  - rewrite starts_with_one. destruct (N.eqb a c) eqn:E.
    + apply N.eqb_eq in E. subst c. cbn [List.length Nat.sub].
      rewrite join_cons by apply split_from_nonempty. rewrite IH. reflexivity.
    + rewrite IH, <- app_assoc. reflexivity.
Qed.

End OneCharacter.


Lemma split_from_last (sep x cur : list N) :
  Uni.contains sep x = false -> Uni.split_from sep 0 cur x = [cur ++ x].
Proof.
  revert cur. induction x as [| c x IH]; intros cur H.
  - cbn. rewrite app_nil_r. reflexivity.
  - cbn [Uni.contains] in H. apply orb_false_iff in H as [Hs Hx].
    cbn [Uni.split_from]. rewrite Hs, (IH _ Hx), <- app_assoc. reflexivity.
Qed.

Lemma last_cons_nonempty {A} (c : A) (x : list A) (d : A) :
  x <> [] -> List.last (c :: x) d = List.last x d.
Proof. destruct x; [congruence | reflexivity]. Qed.

Lemma last_default {A} (x : list A) (d d' : A) :
  x <> [] -> List.last x d = List.last x d'.
Proof.
  induction x as [| c x IH]; [congruence |]. intros _.
  destruct x as [| c' x]; [reflexivity |].
  rewrite !(last_cons_nonempty c) by discriminate. apply IH. discriminate.
Qed.

Lemma last_app_nonempty {A} (x y : list A) (d : A) :
  y <> [] -> List.last (x ++ y) d = List.last y d.
Proof.
  intros Hy. induction x as [| c x IH]; [reflexivity |].
  cbn [app]. rewrite last_cons_nonempty; [exact IH |].
  destruct x; [exact Hy | discriminate].
Qed.

(** Cutting at a pair of equal characters. *)
Section TwoCharacters.

Variable a : N.

Lemma ends_other_tail (c : N) (x : list N) :
  ends_other a (c :: x) = true -> ends_other a x = true.
Proof.
  destruct x as [| c' x]; [intros _; unfold ends_other; cbn |].
  - apply negb_true_iff, N.eqb_neq. lia.
  - unfold ends_other. rewrite last_cons_nonempty by discriminate. auto.
Qed.

Lemma split2_rest (x cur rest : list N) :
  Uni.contains [a; a] x = false -> ends_other a x = true ->
  Uni.split_from [a; a] 0 cur (x ++ a :: a :: rest)
    = (cur ++ x) :: Uni.split_from [a; a] 0 [] rest.
Proof.
  revert cur. induction x as [| c x IH]; intros cur Hc He.
  - cbn. rewrite N.eqb_refl, app_nil_r. reflexivity.
  - cbn [Uni.contains] in Hc. apply orb_false_iff in Hc as [Hs Hx].
    cbn [app Uni.split_from].
    assert (Hs' : Uni.starts_with [a; a] (c :: x ++ a :: a :: rest) = false).
    { cbn [Uni.starts_with] in *. destruct (N.eqb a c) eqn:E; [| reflexivity].
      destruct x as [| c' x]; cbn [app andb].
      - apply N.eqb_eq in E. subst c. unfold ends_other in He. cbn in He.
        rewrite N.eqb_refl in He. discriminate.
      - cbn [andb] in Hs. apply andb_false_iff in Hs as [Hs | Hs]; [| discriminate].
        rewrite Hs. reflexivity. }
    rewrite Hs', (IH _ Hx (ends_other_tail _ _ He)), <- app_assoc. reflexivity.
Qed.

Lemma split2_join (blocks : list (list N)) (cur : list N) :
  Forall (fun b => Uni.contains [a; a] b = false /\ ends_other a b = true) blocks ->
  Uni.split_from [a; a] 0 cur (Uni.join [a; a] blocks)
    = match blocks with
      | [] => [cur]
      | b :: rest => (cur ++ b) :: rest
      end.
Proof.
  intros H. revert cur. induction H as [| b rest [Hc He] Hrest IH]; intros cur.
  - reflexivity.
  - destruct rest as [| b' rest'].
    + cbn [Uni.join]. apply split_from_last, Hc.
    + rewrite join_cons by discriminate. cbn [app].
      rewrite (split2_rest _ _ _ Hc He). f_equal. apply (IH []).
Qed.

(** No pair in two texts, none across their border: none in both. *)
Lemma no_pair_app (x y : list N) :
  Uni.contains [a; a] x = false -> Uni.contains [a; a] y = false ->
  ends_other a x || starts_other a y = true ->
  Uni.contains [a; a] (x ++ y) = false.
Proof.
  intros Hx Hy Hb. induction x as [| c x IH]; [exact Hy |].
  cbn [Uni.contains] in Hx. apply orb_false_iff in Hx as [Hs Hx].
  cbn [app Uni.contains]. apply orb_false_iff. split.
  - cbn [Uni.starts_with] in *. destruct (N.eqb a c) eqn:E; [| reflexivity].
    cbn [andb] in *. destruct x as [| c' x]; cbn [app].
    + apply N.eqb_eq in E. subst c. unfold ends_other in Hb. cbn in Hb.
      rewrite N.eqb_refl in Hb. cbn in Hb. unfold starts_other in Hb.
      apply negb_true_iff in Hb. destruct y as [| c' y]; [reflexivity |].
      cbn in Hb. exact Hb.
    + exact Hs.
  - destruct x as [| c' x]; [exact Hy |]. apply IH; [exact Hx |].
    unfold ends_other in *. rewrite last_cons_nonempty in Hb by discriminate. exact Hb.
Qed.

Lemma has_no_pair (x : list N) : has_no a x = true -> Uni.contains [a; a] x = false.
Proof.
  induction x as [| c x IH]; [reflexivity |]. cbn. intros H.
  apply andb_true_iff in H as [Hc Hx]. apply negb_true_iff in Hc.
  rewrite N.eqb_sym, Hc, (IH Hx). reflexivity.
Qed.

Lemma has_no_ends_other (x : list N) : has_no a x = true -> ends_other a x = true.
Proof.
  induction x as [| c x IH]; intros H.
  - unfold ends_other. cbn. apply negb_true_iff, N.eqb_neq. lia.
  - cbn in H. apply andb_true_iff in H as [Hc Hx].
    destruct x as [| c' x]; [exact Hc |].
    unfold ends_other. rewrite last_cons_nonempty by discriminate. apply (IH Hx).
Qed.

Lemma has_no_starts_other (x : list N) : has_no a x = true -> starts_other a x = true.
Proof.
  destruct x as [| c x]; [reflexivity |]. cbn. intros H.
  apply andb_true_iff in H as [Hc _]. unfold starts_other. cbn.
  rewrite N.eqb_sym, andb_true_r. exact Hc.
Qed.

End TwoCharacters.

(** ** Blocks written and read again *)

Lemma has_no_app (a : N) (x y : list N) : has_no a (x ++ y) = has_no a x && has_no a y.
Proof. apply forallb_app. Qed.

Lemma read_text_plain (raw : list N) : has_no 13 raw = true -> Uni.read_text raw = raw.
Proof.
  induction raw as [| c raw IH]; [reflexivity |]. cbn. intros H.
  apply andb_true_iff in H as [Hc Hr]. apply negb_true_iff in Hc.
  rewrite Hc, (IH Hr). reflexivity.
Qed.

Lemma trimmed_head (x : list N) :
  trimmed x = true -> exists c x', x = c :: x' /\ Uni.isspace c = false.
Proof.
  destruct x as [| c x]; [discriminate |]. cbn. intros H.
  apply andb_true_iff in H as [Hc _]. apply negb_true_iff in Hc. eauto.
Qed.

Lemma trimmed_last (x : list N) (d : N) :
  trimmed x = true -> Uni.isspace (List.last x d) = false.
Proof.
  destruct x as [| c x]; [discriminate |]. intros H. unfold trimmed in H.
  apply andb_true_iff in H as [_ Hl]. apply negb_true_iff in Hl.
  rewrite (last_default _ d 0%N) by discriminate. exact Hl.
Qed.

Lemma trimmed_intro (c : N) (x : list N) :
  Uni.isspace c = false -> Uni.isspace (List.last (c :: x) 0%N) = false ->
  trimmed (c :: x) = true.
Proof. intros Hc Hl. unfold trimmed. rewrite Hc, Hl. reflexivity. Qed.

Lemma strip_app_space (x ws : list N) :
  trimmed x = true -> forallb Uni.isspace ws = true -> Uni.strip (x ++ ws) = x.
Proof.
  intros Hx Hws. pose proof (trimmed_strip _ Hx) as Hs.
  destruct (trimmed_head _ Hx) as (c & x' & -> & Hc).
  unfold Uni.strip in *. rewrite (lstrip_with_keep _ _ _ Hc) in Hs.
  cbn [app]. rewrite (lstrip_with_keep _ _ _ Hc).
  change (c :: x' ++ ws) with ((c :: x') ++ ws).
  rewrite (rstrip_with_app_all _ _ _ Hws). exact Hs.
Qed.

Lemma trimmed_join (sep : list N) (blocks : list (list N)) :
  blocks <> [] -> Forall (fun b => trimmed b = true) blocks ->
  trimmed (Uni.join sep blocks) = true.
Proof.
  intros Hne H. induction H as [| b rest Hb Hrest IH]; [congruence |].
  destruct rest as [| b' rest']; [exact Hb |].
  rewrite join_cons by discriminate.
  specialize (IH ltac:(discriminate)).
  destruct (trimmed_head _ Hb) as (c & x' & -> & Hc).
  cbn [app]. apply trimmed_intro; [exact Hc |].
  change (c :: x' ++ sep ++ Uni.join sep (b' :: rest'))
    with ((c :: x') ++ sep ++ Uni.join sep (b' :: rest')).
  rewrite app_assoc, last_app_nonempty; [apply trimmed_last, IH |].
  destruct (trimmed_head _ IH) as (c2 & x2 & -> & _). discriminate.
Qed.

Lemma space_not_absent (a : N) (x : list N) :
  Uni.isspace a = true ->
  forallb (fun c => negb (Uni.isspace c)) x = true -> has_no a x = true.
Proof.
  intros Ha H. unfold has_no. rewrite forallb_forall in *. intros c Hc.
  specialize (H c Hc). apply negb_true_iff in H. apply negb_true_iff, N.eqb_neq.
  intros ->. congruence.
Qed.

Section Blocks.

Variable unicode_digit : N -> bool.
Hypothesis digit_not_space : forall c, unicode_digit c = true -> Uni.isspace c = false.

Lemma isdigit_no_space (index : list N) :
  Uni.isdigit unicode_digit index = true ->
  forallb (fun c => negb (Uni.isspace c)) index = true.
Proof.
  destruct index as [| c index]; [discriminate |]. unfold Uni.isdigit.
  rewrite !forallb_forall. intros H x Hx. apply negb_true_iff, digit_not_space, H, Hx.
Qed.

Lemma writable_split (sub : Subtitle) :
  writable unicode_digit sub = true -> writable_parts unicode_digit sub.
Proof.
  unfold writable. intros H.
  repeat (apply andb_true_iff in H as [H ?]).
  pose proof (isdigit_no_space _ H) as Hi.
  constructor; try assumption.
  - apply space_not_absent; [reflexivity | exact Hi].
  - apply space_not_absent; [reflexivity | exact Hi].
  - apply negb_true_iff. assumption.
Qed.

Lemma srt_block_lines (sub : Subtitle) :
  writable_parts unicode_digit sub ->
  Uni.split [Uni.nl] (srt_block sub)
    = sub_index sub :: sub_time sub :: Uni.split [Uni.nl] (sub_text sub).
Proof.
  intros W. unfold Uni.split, srt_block. cbn [app].
  rewrite (split1_rest _ _ _ _ (index_one_line _ _ W)).
  rewrite (split1_rest _ _ _ _ (time_one_line _ _ W)). reflexivity.
Qed.

Lemma srt_block_head (sub : Subtitle) :
  writable_parts unicode_digit sub ->
  exists c rest, srt_block sub = c :: rest /\ Uni.isspace c = false.
Proof.
  intros W. pose proof (index_digits _ _ W) as Hd. unfold srt_block.
  destruct (sub_index sub) as [| c index]; [discriminate |].
  exists c, (index ++ [Uni.nl] ++ sub_time sub ++ [Uni.nl] ++ sub_text sub).
  split; [reflexivity |]. apply digit_not_space.
  cbn in Hd. apply andb_true_iff in Hd as [Hd _]. exact Hd.
Qed.

Lemma srt_block_last (sub : Subtitle) (d : N) :
  writable_parts unicode_digit sub ->
  List.last (srt_block sub) d = List.last (sub_text sub) d.
Proof.
  intros W. unfold srt_block. rewrite !app_assoc. apply last_app_nonempty.
  destruct (trimmed_head _ (text_trimmed _ _ W)) as (c & x & -> & _). discriminate.
Qed.

Lemma srt_block_trimmed (sub : Subtitle) :
  writable_parts unicode_digit sub -> trimmed (srt_block sub) = true.
Proof.
  intros W. destruct (srt_block_head _ W) as (c & rest & E & Hc).
  pose proof (srt_block_last sub 0%N W) as Hl. rewrite E in *.
  apply trimmed_intro; [exact Hc |]. rewrite Hl. apply trimmed_last, (text_trimmed _ _ W).
Qed.

Lemma srt_block_parsed (sub : Subtitle) :
  writable_parts unicode_digit sub -> parse_block unicode_digit (srt_block sub) = Some sub.
Proof.
  intros W. unfold parse_block.
  rewrite (trimmed_strip _ (srt_block_trimmed _ W)).
  destruct (srt_block_head _ W) as (c & rest & E & Hc). rewrite E, <- E.
  rewrite (srt_block_lines _ W).
  pose proof (split_from_nonempty [Uni.nl] 0 [] (sub_text sub)) as Hne.
  fold (Uni.split [Uni.nl] (sub_text sub)) in Hne.
  destruct (Uni.split [Uni.nl] (sub_text sub)) as [| l ls] eqn:El; [congruence |].
  cbn [List.length Nat.leb nth skipn].
  rewrite (time_arrow _ _ W), (index_digits _ _ W). cbn [andb].
  rewrite <- El. unfold Uni.split. rewrite join_split1. cbn [app].
  rewrite (trimmed_strip _ (text_trimmed _ _ W)). destruct sub; reflexivity.
Qed.

Lemma srt_block_no_empty_line (sub : Subtitle) :
  writable_parts unicode_digit sub -> Uni.contains [Uni.nl; Uni.nl] (srt_block sub) = false.
Proof.
  intros W. unfold srt_block.
  apply no_pair_app; [apply has_no_pair, (index_one_line _ _ W) | |
    rewrite (has_no_ends_other _ _ (index_one_line _ _ W)); reflexivity].
  apply no_pair_app; [reflexivity | |].
  2:{ apply orb_true_iff. right. unfold starts_other.
      pose proof (time_arrow _ _ W) as Ha. pose proof (time_one_line _ _ W) as Ht.
      destruct (sub_time sub) as [| c t]; [discriminate |].
      cbn in Ht. apply andb_true_iff in Ht as [Hc _]. cbn [app].
      rewrite starts_with_one, N.eqb_sym. exact Hc. }
  apply no_pair_app; [apply has_no_pair, (time_one_line _ _ W) | |
    rewrite (has_no_ends_other _ _ (time_one_line _ _ W)); reflexivity].
  apply no_pair_app; [reflexivity | apply (text_no_empty_line _ _ W) |].
  apply orb_true_iff. right. unfold starts_other.
  destruct (trimmed_head _ (text_trimmed _ _ W)) as (c & x & -> & Hc).
  rewrite starts_with_one. apply negb_true_iff, N.eqb_neq. intros <-. discriminate.
Qed.

Lemma srt_block_ends_other (sub : Subtitle) :
  writable_parts unicode_digit sub -> ends_other Uni.nl (srt_block sub) = true.
Proof.
  intros W. unfold ends_other. rewrite (srt_block_last _ _ W).
  pose proof (trimmed_last _ (N.succ Uni.nl) (text_trimmed _ _ W)) as H.
  apply negb_true_iff, N.eqb_neq. intros E. rewrite E in H. discriminate.
Qed.

Lemma srt_block_plain (sub : Subtitle) :
  writable_parts unicode_digit sub -> has_no 13 (srt_block sub) = true.
Proof.
  intros W. unfold srt_block.
  rewrite !has_no_app, (index_plain _ _ W), (time_plain _ _ W), (text_plain _ _ W). reflexivity.
Qed.

Lemma blocks_as_join (subs : list Subtitle) :
  subs <> [] ->
  flat_map (fun sub => srt_block sub ++ [Uni.nl; Uni.nl]) subs
    = Uni.join [Uni.nl; Uni.nl] (map srt_block subs) ++ [Uni.nl; Uni.nl].
Proof.
  induction subs as [| sub rest IH]; [congruence |]. intros _.
  destruct rest as [| sub' rest'].
  - cbn. rewrite app_nil_r. reflexivity.
  - cbn [flat_map map]. rewrite join_cons by discriminate.
    cbn [flat_map map] in IH. rewrite IH by discriminate.
    rewrite <- !app_assoc. reflexivity.
Qed.

Lemma blocks_plain (subs : list Subtitle) :
  Forall (writable_parts unicode_digit) subs ->
  has_no 13 (flat_map (fun sub => srt_block sub ++ [Uni.nl; Uni.nl]) subs) = true.
Proof.
  induction 1 as [| sub rest W Hrest IH]; [reflexivity |].
  cbn [flat_map]. rewrite !has_no_app, (srt_block_plain _ W), IH. reflexivity.
Qed.

Lemma omap_parse_blocks (subs : list Subtitle) :
  Forall (writable_parts unicode_digit) subs ->
  omap (parse_block unicode_digit) (map srt_block subs) = subs.
Proof.
  induction 1 as [| sub rest W Hrest IH]; [reflexivity |].
  cbn [map omap list_omap]. cbn. rewrite (srt_block_parsed _ W). cbn.
  f_equal. exact IH.
Qed.

(** The blocks written one after the other, each followed by an empty
    line, are the blocks [parse_srt] returns. *)
Lemma blocks_parse_back (subs : list Subtitle) :
  Forall (fun sub => writable unicode_digit sub = true) subs ->
  parse_srt unicode_digit
    (Some (flat_map (fun sub => srt_block sub ++ [Uni.nl; Uni.nl]) subs)) = subs.
Proof.
  intros H.
  assert (W : Forall (writable_parts unicode_digit) subs).
  { eapply List.Forall_impl; [| exact H]. exact writable_split. }
  clear H. unfold parse_srt.
  rewrite (read_text_plain _ (blocks_plain _ W)).
  destruct subs as [| sub rest]; [reflexivity |].
  rewrite blocks_as_join by discriminate.
  rewrite strip_app_space; [| | reflexivity].
  2:{ apply trimmed_join; [discriminate |]. apply List.Forall_map.
      eapply List.Forall_impl; [| exact W]. exact srt_block_trimmed. }
  unfold Uni.split. rewrite split2_join.
  2:{ apply List.Forall_map. eapply List.Forall_impl; [| exact W].
      intros s Ws. split; [apply srt_block_no_empty_line | apply srt_block_ends_other]; exact Ws. }
  cbn [map app]. apply (omap_parse_blocks (sub :: rest)), W.
Qed.

End Blocks.

(** ** What [parse_srt] returns *)

Lemma read_text_no_cr (raw : list N) : has_no 13 (Uni.read_text raw) = true.
Proof.
  remember (List.length raw) as n eqn:Hn.
  assert (Hle : (List.length raw <= n)%nat) by lia. clear Hn.
  revert raw Hle. induction n as [| n IH]; intros raw Hle.
  - destruct raw; [reflexivity | cbn in Hle; lia].
  - destruct raw as [| c raw]; [reflexivity |]. cbn in Hle.
    cbn [Uni.read_text]. destruct (N.eqb c 13) eqn:E.
    + destruct raw as [| c' raw']; [reflexivity |]. cbn in Hle.
      destruct (N.eqb c' 10); cbn [has_no forallb]; apply andb_true_iff; split;
        try reflexivity; apply IH; cbn; lia.
    + cbn [has_no forallb]. rewrite E. apply IH. lia.
Qed.

Lemma read_text_space (raw : list N) :
  forallb Uni.isspace raw = true -> forallb Uni.isspace (Uni.read_text raw) = true.
Proof.
  remember (List.length raw) as n eqn:Hn.
  assert (Hle : (List.length raw <= n)%nat) by lia. clear Hn.
  revert raw Hle. induction n as [| n IH]; intros raw Hle H.
  - destruct raw; [reflexivity | cbn in Hle; lia].
  - destruct raw as [| c raw]; [reflexivity |]. cbn in Hle.
    cbn [forallb] in H. apply andb_true_iff in H as [Hc Hr].
    cbn [Uni.read_text]. destruct (N.eqb c 13).
    + destruct raw as [| c' raw']; [reflexivity |]. cbn in Hle.
      cbn [forallb] in Hr. apply andb_true_iff in Hr as [Hc' Hr'].
      destruct (N.eqb c' 10); cbn [forallb]; apply andb_true_iff; split;
        try reflexivity; apply IH; cbn; try lia; try assumption.
      rewrite Hc', Hr'. reflexivity.
    + cbn [forallb]. rewrite Hc. apply IH; [lia | exact Hr].
Qed.

Lemma split_from_forallb (q : N -> bool) (sep : list N) (s : list N) :
  forall skip cur, forallb q s = true -> forallb q cur = true ->
  Forall (fun piece => forallb q piece = true) (Uni.split_from sep skip cur s).
Proof.
  induction s as [| c s IH]; intros skip cur Hs Hcur; cbn [Uni.split_from].
  - constructor; [exact Hcur | constructor].
  - cbn [forallb] in Hs. apply andb_true_iff in Hs as [Hc Hs].
    destruct skip; [| apply IH; assumption].
    destruct (Uni.starts_with sep (c :: s)).
    + constructor; [exact Hcur | apply IH; [exact Hs | reflexivity]].
    + apply IH; [exact Hs |]. rewrite forallb_app, Hcur. cbn. rewrite Hc. reflexivity.
Qed.

Lemma contains_suffix (sep x y : list N) :
  Uni.contains sep (x ++ y) = false -> Uni.contains sep y = false.
Proof.
  induction x as [| c x IH]; [auto |]. cbn [app Uni.contains]. intros H.
  apply orb_false_iff in H as [_ H]. exact (IH H).
Qed.

Lemma starts_with_app (sep x y : list N) :
  Uni.starts_with sep x = true -> Uni.starts_with sep (x ++ y) = true.
Proof.
  revert x. induction sep as [| a sep IH]; intros x; [reflexivity |].
  destruct x as [| c x]; [discriminate |]. cbn. intros H.
  apply andb_true_iff in H as [Ha Hs]. rewrite Ha. exact (IH _ Hs).
Qed.

Lemma contains_prefix (sep x y : list N) :
  Uni.contains sep (x ++ y) = false -> Uni.contains sep x = false.
Proof.
  induction x as [| c x IH].
  - intros H. destruct sep as [| a sep]; [destruct y; discriminate | reflexivity].
  - cbn [app Uni.contains]. intros H. apply orb_false_iff in H as [Hs H].
    apply orb_false_iff. split; [| exact (IH H)].
    destruct (Uni.starts_with sep (c :: x)) eqn:E; [| reflexivity].
    pose proof (starts_with_app _ (c :: x) y E) as E'. cbn [app] in E'. congruence.
Qed.

Lemma lstrip_with_suffix (p : N -> bool) (s : list N) :
  exists x, s = x ++ Uni.lstrip_with p s.
Proof.
  induction s as [| c s [x IH]]; [exists []; reflexivity |]. cbn.
  destruct (p c); [exists (c :: x); cbn; f_equal; exact IH | exists []; reflexivity].
Qed.

Lemma rstrip_with_prefix (p : N -> bool) (s : list N) :
  exists y, s = Uni.rstrip_with p s ++ y.
Proof.
  unfold Uni.rstrip_with. destruct (lstrip_with_suffix p (rev s)) as [x E].
  exists (rev x). rewrite <- rev_app_distr, <- E, rev_involutive. reflexivity.
Qed.

Lemma strip_no_contains (sep s : list N) :
  Uni.contains sep s = false -> Uni.contains sep (Uni.strip s) = false.
Proof.
  intros H. unfold Uni.strip.
  destruct (lstrip_with_suffix Uni.isspace s) as [x Ex].
  destruct (rstrip_with_prefix Uni.isspace (Uni.lstrip_with Uni.isspace s)) as [y Ey].
  rewrite Ex in H. apply contains_suffix in H. rewrite Ey in H.
  apply contains_prefix in H. exact H.
Qed.

(** No piece of a text cut at the pairs holds a pair. *)
Lemma split2_pieces (a : N) (s : list N) :
  forall cur, Uni.contains [a; a] cur = false ->
    ends_other a cur || starts_other a s = true ->
    Forall (fun piece => Uni.contains [a; a] piece = false)
      (Uni.split_from [a; a] 0 cur s).
Proof.
  remember (List.length s) as n eqn:Hn.
  assert (Hle : (List.length s <= n)%nat) by lia. clear Hn.
  revert s Hle. induction n as [| n IH]; intros s Hle cur Hcur Hb.
  - destruct s; [| cbn in Hle; lia]. constructor; [exact Hcur | constructor].
  - destruct s as [| c s]; [constructor; [exact Hcur | constructor] |].
    cbn in Hle. cbn [Uni.split_from].
    destruct (Uni.starts_with [a; a] (c :: s)) eqn:Es.
    + constructor; [exact Hcur |]. cbn [List.length Nat.sub].
      destruct s as [| c' s']; [cbn in Es; rewrite andb_false_r in Es; discriminate |].
      cbn [Uni.split_from].
      cbn in Hle. apply IH; [lia | reflexivity |].
      unfold ends_other. cbn. apply orb_true_iff. left.
      apply negb_true_iff, N.eqb_neq. lia.
    + assert (Hc : ends_other a cur || starts_other a [c] = true).
      { apply orb_true_iff. apply orb_true_iff in Hb as [Hb | Hb]; [left; exact Hb | right].
        unfold starts_other in *. rewrite starts_with_one in *. exact Hb. }
      apply IH; [lia | apply no_pair_app; [exact Hcur | | exact Hc] |].
      * cbn. rewrite andb_false_r. reflexivity.
      * unfold ends_other, starts_other. rewrite last_last, starts_with_one.
        change (Uni.starts_with [a; a] (c :: s))
          with (N.eqb a c && Uni.starts_with [a] s) in Es.
        destruct (N.eqb a c) eqn:E.
        -- cbn [andb] in Es. rewrite <- starts_with_one, Es. apply orb_true_r.
        -- rewrite N.eqb_sym, E. reflexivity.
Qed.

Lemma parse_block_shape (unicode_digit : N -> bool) (block : list N) (sub : Subtitle) :
  has_no 13 block = true -> Uni.contains [Uni.nl; Uni.nl] block = false ->
  parse_block unicode_digit block = Some sub ->
  parsed_shape unicode_digit sub = true.
Proof.
  intros Hcr Hpair. unfold parse_block.
  destruct (Uni.strip block) as [| c0 r0]; [discriminate |].
  pose proof (split1_pieces Uni.nl block [] eq_refl) as Hnl.
  pose proof (split_from_forallb _ [Uni.nl] block 0 [] Hcr eq_refl) as Hlines.
  pose proof (join_split1 Uni.nl block []) as Hjoin.
  fold (Uni.split [Uni.nl] block) in Hnl, Hlines, Hjoin.
  destruct (Uni.split [Uni.nl] block) as [| index [| time_line [| l ls]]]; try discriminate.
  cbn [List.length Nat.leb nth skipn]. cbv zeta.
  remember (Uni.join [Uni.nl] (l :: ls)) as text eqn:Etext.
  destruct (Uni.contains (Uni.lit "-->") time_line) eqn:Ea; [| discriminate].
  destruct (Uni.isdigit unicode_digit index) eqn:Ed; [| discriminate].
  cbn [andb]. intros [= <-]. unfold parsed_shape. cbn [sub_index sub_time sub_text].
  rewrite Ea, Ed. cbn [andb].
  apply List.Forall_cons_iff in Hnl as [_ Hnl]. apply List.Forall_cons_iff in Hnl as [Hnl _].
  apply List.Forall_cons_iff in Hlines as [_ Hlines].
  apply List.Forall_cons_iff in Hlines as [Htime Hlines].
  rewrite Hnl. fold (has_no 13 time_line) in Htime. rewrite Htime. cbn [andb].
  assert (Ht : block = (index ++ [Uni.nl] ++ time_line ++ [Uni.nl]) ++ text).
  { cbn [app] in Hjoin. rewrite <- Hjoin, Etext. rewrite !join_cons by discriminate.
    rewrite <- !app_assoc. reflexivity. }
  assert (Hcr' : has_no 13 text = true).
  { rewrite Ht, has_no_app in Hcr. apply andb_true_iff in Hcr as [_ Hcr]. exact Hcr. }
  assert (Hpair' : Uni.contains [Uni.nl; Uni.nl] text = false).
  { rewrite Ht in Hpair. exact (contains_suffix _ _ _ Hpair). }
  rewrite (strip_forallb _ _ Hcr' : has_no 13 (Uni.strip text) = true).
  rewrite (strip_no_contains _ _ Hpair'). cbn [andb negb].
  pose proof (strip_trimmed text) as Htr.
  destruct (Uni.strip text); [reflexivity | apply Htr; discriminate].
Qed.

Lemma parse_srt_shape (unicode_digit : N -> bool) (file : option (list N)) :
  Forall (fun sub => parsed_shape unicode_digit sub = true) (parse_srt unicode_digit file).
Proof.
  destruct file as [raw |]; [| constructor]. unfold parse_srt.
  assert (Hcr : has_no 13 (Uni.strip (Uni.read_text raw)) = true)
    by apply strip_forallb, read_text_no_cr.
  pose proof (split_from_forallb _ [Uni.nl; Uni.nl] _ 0 [] Hcr eq_refl) as H1.
  pose proof (split2_pieces Uni.nl (Uni.strip (Uni.read_text raw)) [] eq_refl eq_refl) as H2.
  fold (Uni.split [Uni.nl; Uni.nl] (Uni.strip (Uni.read_text raw))) in H1, H2.
  induction (Uni.split [Uni.nl; Uni.nl] (Uni.strip (Uni.read_text raw))) as [| b blocks IH];
    [constructor |].
  apply List.Forall_cons_iff in H1 as [Hb1 H1]. apply List.Forall_cons_iff in H2 as [Hb2 H2].
  cbn. destruct (parse_block unicode_digit b) as [sub |] eqn:E; cbn; [| exact (IH H1 H2)].
  constructor; [exact (parse_block_shape _ _ _ Hb1 Hb2 E) | exact (IH H1 H2)].
Qed.

(** X14: every block [parse_srt] returns has a number as its index, a time
    line with the arrow and without a line feed, a text that is stripped
    and has no empty line, and no carriage return anywhere; this holds for
    every file. *)
Theorem parsed_blocks_are_well_formed (unicode_digit : N -> bool)
    (file : option (list N)) :
  Forall (fun sub =>
            Uni.isdigit unicode_digit (sub_index sub) = true
            /\ Uni.contains (Uni.lit "-->") (sub_time sub) = true
            /\ has_no Uni.nl (sub_time sub) = true
            /\ Uni.strip (sub_text sub) = sub_text sub
            /\ Uni.contains [Uni.nl; Uni.nl] (sub_text sub) = false
            /\ has_no 13 (sub_time sub) = true
            /\ has_no 13 (sub_text sub) = true)
    (parse_srt unicode_digit file).
Proof.
  eapply List.Forall_impl; [| apply parse_srt_shape].
  intros sub H. unfold parsed_shape in H.
  repeat (apply andb_true_iff in H as [H ?]).
  repeat split; try assumption.
  - destruct (sub_text sub) as [| c t] eqn:E; [reflexivity |]. apply trimmed_strip. assumption.
  - apply negb_true_iff. assumption.
Qed.

(** X15: a file of white space only has no subtitle blocks. *)
Theorem blank_file_has_no_blocks (unicode_digit : N -> bool) (raw : list N) :
  forallb Uni.isspace raw = true -> parse_srt unicode_digit (Some raw) = [].
Proof.
  intros H. unfold parse_srt.
  rewrite (strip_all_space _ (read_text_space _ H)). reflexivity.
Qed.

Lemma translated_file_blocks (translate : nat -> list N -> list N)
    (subtitles : list Subtitle) :
  forall i,
  translated_file translate i subtitles
    = flat_map (fun sub => srt_block sub ++ [Uni.nl; Uni.nl])
        (translated translate i subtitles).
Proof.
  induction subtitles as [| sub rest IH]; intros i; [reflexivity |].
  cbn [translated_file translated flat_map]. rewrite IH.
  unfold srt_block, with_text. cbn [sub_index sub_time sub_text].
  rewrite <- !app_assoc. reflexivity.
Qed.

(** X16: the file the translator writes is read by [parse_srt] as the
    blocks written, with the translated texts, when each block is writable:
    a number as index, a time line with the arrow on one line, a trimmed
    translation without an empty line, no carriage return.  No digit is
    white space. *)
Theorem translated_file_read_back (unicode_digit : N -> bool)
    (translate : nat -> list N -> list N) (subtitles : list Subtitle) :
  (forall c, unicode_digit c = true -> Uni.isspace c = false) ->
  Forall (fun sub => writable unicode_digit sub = true) (translated translate 0 subtitles) ->
  parse_srt unicode_digit (Some (translated_file translate 0 subtitles))
    = translated translate 0 subtitles.
Proof.
  intros Hd H. rewrite translated_file_blocks.
  apply blocks_parse_back; [exact Hd | exact H].
Qed.

Lemma translated_writable (unicode_digit : N -> bool)
    (translate : nat -> list N -> list N) (subtitles : list Subtitle) :
  forall i,
  Forall (fun sub => parsed_shape unicode_digit sub = true) subtitles ->
  Forall (fun sub => writable_text (sub_text sub) = true) (translated translate i subtitles) ->
  Forall (fun sub => writable unicode_digit sub = true) (translated translate i subtitles).
Proof.
  induction subtitles as [| sub rest IH]; intros i Hs Ht; [constructor |].
  apply List.Forall_cons_iff in Hs as [Hsub Hs].
  cbn [translated] in *. apply List.Forall_cons_iff in Ht as [Htext Ht].
  constructor; [| exact (IH _ Hs Ht)].
  unfold parsed_shape in Hsub. unfold writable_text, with_text in Htext.
  unfold writable, with_text. cbn [sub_index sub_time sub_text] in Htext |- *.
  apply andb_true_iff in Hsub as [Hsub _]. apply andb_true_iff in Hsub as [Hsub _].
  apply andb_true_iff in Hsub as [Hsub _]. rewrite Hsub. cbn [andb].
  apply andb_true_iff in Htext as [Htext H3]. apply andb_true_iff in Htext as [H1 H2].
  rewrite H1, H2, H3. reflexivity.
Qed.

(** X17: the file [main] writes has the blocks of the input file, with the
    same indexes and time lines and with the texts the calls returned,
    when these texts are trimmed and have no empty line and no carriage
    return.  When the input has no block, no file is written to be read.
    No digit is white space. *)
Theorem translator_output_keeps_blocks (unicode_digit : N -> bool)
    (input_srt : option (list N)) (attempts : nat -> nat -> GeminiAttempt) :
  (forall c, unicode_digit c = true -> Uni.isspace c = false) ->
  Forall (fun sub => writable_text (sub_text sub) = true)
    (translated (gemini attempts) 0 (parse_srt unicode_digit input_srt)) ->
  parse_srt unicode_digit (translator_main unicode_digit input_srt attempts)
    = translated (gemini attempts) 0 (parse_srt unicode_digit input_srt).
Proof.
  intros Hd Ht. unfold translator_main.
  pose proof (parse_srt_shape unicode_digit input_srt) as Hs.
  destruct (parse_srt unicode_digit input_srt) as [| sub rest] eqn:E; [reflexivity |].
  change (fun i text => fst (translate_text_with_gemini text (attempts i)))
    with (gemini attempts).
  rewrite translated_file_blocks.
  apply blocks_parse_back; [exact Hd |]. apply translated_writable; assumption.
Qed.

(** ** From the OCR stage to the translator *)

Lemma lit_digits (s : string) :
  all_digits s = true -> forallb ascii_digit (Uni.lit s) = true.
Proof.
  unfold all_digits, Uni.lit. induction s as [| c s IH]; [reflexivity |].
  cbn. intros H. apply andb_true_iff in H as [Hc Hs]. rewrite (IH Hs), andb_true_r.
  unfold is_digit, nat_of_ascii in Hc. unfold ascii_digit.
  apply andb_true_iff in Hc as [H1 H2]. apply Nat.leb_le in H1, H2.
  apply andb_true_iff. split; apply N.leb_le; lia.
Qed.

Lemma str_nonneg_isdigit (unicode_digit : N -> bool) (n : Z) :
  (forall c, ascii_digit c = true -> unicode_digit c = true) ->
  Uni.isdigit unicode_digit (Uni.str_nonneg n) = true.
Proof.
  intros Hd. unfold Uni.str_nonneg.
  assert (Hall : forallb unicode_digit (Uni.lit (Py.str_nonneg n)) = true).
  { pose proof (lit_digits (Py.str_nonneg n)) as H.
    rewrite forallb_forall in *. intros c Hc. apply Hd, H; [| exact Hc].
    unfold Py.str_nonneg. apply decimal_digits_digits. reflexivity. }
  destruct (str_nonneg_field n) as [Hne _].
  destruct (Py.str_nonneg n) as [| c s]; [congruence |]. exact Hall.
Qed.

Lemma single_line_has_no (a : N) (s : list N) :
  Uni.islinebreak a = true -> single_line s = true -> has_no a s = true.
Proof.
  intros Ha H. unfold single_line, has_no in *. rewrite forallb_forall in *.
  intros c Hc. specialize (H c Hc). apply negb_true_iff in H.
  apply negb_true_iff, N.eqb_neq. intros ->. congruence.
Qed.

Lemma contains_app_r (sep x y : list N) :
  Uni.contains sep y = true -> Uni.contains sep (x ++ y) = true.
Proof.
  intros H. induction x as [| c x IH]; [exact H |].
  cbn [app Uni.contains]. rewrite IH. apply orb_true_r.
Qed.

Lemma numbered_blocks_entries (srt_blocks : gmap string (list N))
    (entries : list (string * string * list N)) :
  forall first, Forall (stored srt_blocks) entries ->
  numbered_blocks srt_blocks first (map (fun entry => fst (fst entry)) entries)
    = flat_map (fun sub => srt_block sub ++ [Uni.nl; Uni.nl]) (numbered_from first entries).
Proof.
  induction entries as [| [[s e] t] rest IH]; intros first H; [reflexivity |].
  apply List.Forall_cons_iff in H as [(Hl & _) Hrest].
  cbn [map fst numbered_blocks numbered_from flat_map]. rewrite Hl, (IH _ Hrest).
  unfold srt_block, entry_subtitle, block_text. cbn [sub_index sub_time sub_text].
  rewrite <- !app_assoc. reflexivity.
Qed.

Lemma numbered_from_writable (unicode_digit : N -> bool)
    (srt_blocks : gmap string (list N)) (entries : list (string * string * list N)) :
  (forall c, ascii_digit c = true -> unicode_digit c = true) ->
  forall first, Forall (stored srt_blocks) entries ->
  Forall (fun sub => writable unicode_digit sub = true) (numbered_from first entries).
Proof.
  intros Hd. induction entries as [| [[s e] t] rest IH]; intros first H; [constructor |].
  apply List.Forall_cons_iff in H as [(_ & Hs & He & Ht & Htr) Hrest].
  cbn [numbered_from]. constructor; [| exact (IH _ Hrest)].
  unfold writable, entry_subtitle. cbn [sub_index sub_time sub_text].
  rewrite (str_nonneg_isdigit _ _ Hd).
  rewrite (contains_app_r _ (Uni.lit s) _ (eq_refl : Uni.contains (Uni.lit "-->")
             (Uni.lit " --> " ++ Uni.lit e) = true)).
  rewrite !has_no_app.
  rewrite (single_line_has_no Uni.nl _ eq_refl Hs), (single_line_has_no Uni.nl _ eq_refl He).
  rewrite (single_line_has_no 13 _ eq_refl Hs), (single_line_has_no 13 _ eq_refl He).
  rewrite Htr, (single_line_has_no 13 _ eq_refl Ht).
  rewrite (has_no_pair _ _ (single_line_has_no Uni.nl _ eq_refl Ht)). reflexivity.
Qed.

(** X18: the subtitle file of the OCR stage, read by the translator's
    [parse_srt], gives one block for each start stamp, in the order of the
    sorted stamps and numbered from 1, with the time line
    ["start --> end"] and the text stored, when stamps and texts are single
    lines and the texts are trimmed.  ASCII digits are digits, and no digit
    is white space. *)
Theorem ocr_file_read_by_translator (unicode_digit : N -> bool)
    (srt_blocks : gmap string (list N)) (entries : list (string * string * list N)) :
  (forall c, ascii_digit c = true -> unicode_digit c = true) ->
  (forall c, unicode_digit c = true -> Uni.isspace c = false) ->
  map (fun entry => fst (fst entry)) entries = sorted_keys srt_blocks ->
  Forall (stored srt_blocks) entries ->
  parse_srt unicode_digit (srt_file srt_blocks) = numbered_from 1 entries.
Proof.
  intros Ha Hs Hk H. unfold srt_file. rewrite <- Hk.
  destruct entries as [| entry rest]; [reflexivity |].
  change (parse_srt unicode_digit
            (Some (numbered_blocks srt_blocks 1
                     (map (fun entry => fst (fst entry)) (entry :: rest))))
          = numbered_from 1 (entry :: rest)).
  rewrite (numbered_blocks_entries _ _ _ H).
  apply blocks_parse_back; [exact Hs |]. exact (numbered_from_writable _ _ _ Ha _ H).
Qed.

(** ** The table of blocks *)

Lemma omap_result_key_perm (l l' : list (string * list N)) :
  Permutation l l' -> Permutation (omap result_key l) (omap result_key l').
Proof.
  induction 1 as [| x l l' H IH | x y l | l l' l'' H1 IH1 H2 IH2]; cbn.
  - constructor.
  - destruct (result_key x); [constructor |]; exact IH.
  - destruct (result_key x), (result_key y); try reflexivity. apply perm_swap.
  - etransitivity; eassumption.
Qed.

Lemma add_ocr_result_key (m : gmap string (list N)) (r : string * list N) :
  match result_key r with
  | None => add_ocr_result m r = m
  | Some k => exists v, forall m', add_ocr_result m' r = <[k := v]> m'
  end.
Proof.
  destruct r as [name text]. unfold result_key, add_ocr_result. cbn [fst snd].
  destruct text as [| c text]; [reflexivity |].
  destruct (srt_times name) as [[s e] | err]; [| reflexivity].
  eexists. intros m'. reflexivity.
Qed.

Lemma add_ocr_result_skip (m : gmap string (list N)) (r : string * list N) :
  result_key r = None -> add_ocr_result m r = m.
Proof. intros E. pose proof (add_ocr_result_key m r) as H. rewrite E in H. exact H. Qed.

Lemma add_ocr_result_swap (m : gmap string (list N)) (x y : string * list N) :
  (forall k, result_key x = Some k -> result_key y = Some k -> False) ->
  add_ocr_result (add_ocr_result m x) y = add_ocr_result (add_ocr_result m y) x.
Proof.
  intros Hne. pose proof (add_ocr_result_key m x) as Hx.
  pose proof (add_ocr_result_key m y) as Hy.
  destruct (result_key x) as [kx |] eqn:Ex.
  2:{ rewrite !(add_ocr_result_skip _ x Ex). reflexivity. }
  destruct (result_key y) as [ky |] eqn:Ey.
  2:{ rewrite !(add_ocr_result_skip _ y Ey). reflexivity. }
  destruct Hx as [vx Hx], Hy as [vy Hy]. rewrite !Hx, !Hy.
  apply insert_insert_ne. intros ->. exact (Hne kx eq_refl eq_refl).
Qed.

Lemma fold_add_perm (l l' : list (string * list N)) :
  Permutation l l' -> NoDup (omap result_key l) ->
  forall m, fold_left add_ocr_result l m = fold_left add_ocr_result l' m.
Proof.
  induction 1 as [| x l l' H IH | x y l | l l' l'' H1 IH1 H2 IH2]; intros Hnd m.
  - reflexivity.
  - cbn [fold_left]. apply IH. cbn in Hnd.
    destruct (result_key x); [apply NoDup_cons in Hnd as [_ Hnd] |]; exact Hnd.
  - cbn [fold_left]. f_equal. apply add_ocr_result_swap.
    intros k Ey Ex. cbn in Hnd. rewrite Ex, Ey in Hnd. cbn in Hnd.
    apply NoDup_cons in Hnd as [Hin _]. apply Hin. left.
  - rewrite (IH1 Hnd). apply IH2.
    rewrite <- (omap_result_key_perm _ _ H1). exact Hnd.
Qed.

(** X19: the table of blocks does not depend on the order in which the OCR
    calls complete, when no two images that are stored have the same start
    stamp. *)
Theorem blocks_independent_of_completion_order (results results' : list (string * list N)) :
  Permutation results results' ->
  NoDup (omap result_key results) ->
  collect_blocks results = collect_blocks results'.
Proof. intros Hp Hnd. unfold collect_blocks. apply fold_add_perm; assumption. Qed.

Lemma add_ocr_result_lookup (m : gmap string (list N)) (r : string * list N)
    (k : string) (v : list N) :
  add_ocr_result m r !! k = Some v ->
  m !! k = Some v \/
  (snd r <> [] /\ exists e, srt_times (fst r) = Ok (k, e) /\ v = block_text k e (snd r)).
Proof.
  destruct r as [name text]. unfold add_ocr_result. cbn [fst snd].
  destruct text as [| c text]; [auto |].
  destruct (srt_times name) as [[s e] | err]; [| auto].
  destruct (decide (s = k)) as [-> | Hne].
  - rewrite lookup_insert_eq. intros [= <-]. right. split; [discriminate | eauto].
  - rewrite lookup_insert_ne by exact Hne. auto.
Qed.

Lemma fold_add_lookup (results : list (string * list N)) :
  forall (m : gmap string (list N)) (k : string) (v : list N),
  fold_left add_ocr_result results m !! k = Some v ->
  m !! k = Some v \/
  exists name text e,
    In (name, text) results /\ text <> [] /\ srt_times name = Ok (k, e) /\
    v = block_text k e text.
Proof.
  induction results as [| r rest IH]; intros m k v H; [left; exact H |].
  cbn [fold_left] in H. destruct (IH _ _ _ H) as [H' | (name & text & e & Hin & Hrest)].
  - destruct (add_ocr_result_lookup _ _ _ _ H') as [Hm | (Hne & e & Ht & Hv)]; [auto |].
    right. destruct r as [name text]. exists name, text, e. cbn [fst snd] in *.
    split; [left; reflexivity | auto].
  - right. exists name, text, e. split; [right; exact Hin | exact Hrest].
Qed.

Lemma omap_result_key_cons (r : string * list N) (rest : list (string * list N)) :
  omap result_key (r :: rest)
    = match result_key r with
      | Some k => k :: omap result_key rest
      | None => omap result_key rest
      end.
Proof. reflexivity. Qed.

Lemma fold_add_keys (results : list (string * list N)) :
  forall (m : gmap string (list N)) (k : string),
  is_Some (fold_left add_ocr_result results m !! k)
  <-> is_Some (m !! k) \/ In k (omap result_key results).
Proof.
  induction results as [| r rest IH]; intros m k.
  - cbn. tauto.
  - cbn [fold_left]. rewrite IH. pose proof (add_ocr_result_key m r) as Hr.
    rewrite omap_result_key_cons. destruct (result_key r) as [kr |].
    + destruct Hr as [v Hr]. rewrite Hr. cbn [In].
      destruct (decide (kr = k)) as [-> | Hne].
      * rewrite lookup_insert_eq. split; [auto | intros _; left; eauto].
      * rewrite lookup_insert_ne by exact Hne. tauto.
    + rewrite Hr. tauto.
Qed.

(** X20: the table of blocks holds a block under a start stamp exactly when
    some image with a text that is not empty and a name that can be parsed
    has this start stamp; and every block held comes from such an image,
    with its own stamps and its text.  An empty text is never stored. *)
Theorem blocks_come_from_results (results : list (string * list N)) :
  (forall k, is_Some (collect_blocks results !! k) <-> In k (omap result_key results)) /\
  (forall k v,
      collect_blocks results !! k = Some v ->
      exists name text e,
        In (name, text) results /\ text <> [] /\ srt_times name = Ok (k, e) /\
        v = block_text k e text).
Proof.
  unfold collect_blocks. split.
  - intros k. rewrite fold_add_keys, lookup_empty. split; [| auto].
    intros [[x Hx] | H]; [discriminate | exact H].
  - intros k v H. destruct (fold_add_lookup _ _ _ _ H) as [Hm | Hr]; [| exact Hr].
    rewrite lookup_empty in Hm. discriminate.
Qed.

Lemma fold_add_overwritten (rest : list (string * list N)) (k : string) (v v1 : list N) :
  forall m : gmap string (list N),
  <[k := v]> (fold_left add_ocr_result rest (<[k := v1]> m))
    = <[k := v]> (fold_left add_ocr_result rest m).
Proof.
  induction rest as [| r rest IH]; intros m.
  - cbn. apply insert_insert_eq.
  - cbn [fold_left]. pose proof (add_ocr_result_key m r) as Hr.
    destruct (result_key r) as [kr |] eqn:Er.
    + destruct Hr as [vr Hr]. rewrite !Hr.
      destruct (decide (kr = k)) as [-> | Hne].
      * rewrite insert_insert_eq. reflexivity.
      * rewrite (insert_insert_ne _ kr k) by exact Hne. apply IH.
    + rewrite (add_ocr_result_skip _ r Er), (add_ocr_result_skip _ r Er). apply IH.
Qed.

(** X21: of two images with the same start stamp, both with a text, only
    the one whose OCR call completes last is in the table: the block of
    the earlier one is replaced, whatever completes in between. *)
Theorem same_start_stamp_last_wins (first last : string * list N)
    (between : list (string * list N)) (k : string) :
  result_key first = Some k -> result_key last = Some k ->
  collect_blocks (first :: between ++ [last]) = collect_blocks (between ++ [last]).
Proof.
  intros Hf Hl. unfold collect_blocks. cbn [fold_left]. rewrite !fold_left_app.
  cbn [fold_left].
  pose proof (add_ocr_result_key ∅ first) as H1. rewrite Hf in H1. destruct H1 as [v1 H1].
  pose proof (add_ocr_result_key ∅ last) as H2. rewrite Hl in H2. destruct H2 as [v2 H2].
  rewrite H1, !H2. apply fold_add_overwritten.
Qed.

(** ** From the extractor to the translator *)

Lemma clean_ocr_text_shape (text_content : list N) :
  single_line (clean_ocr_text text_content) = true /\
  (clean_ocr_text text_content <> [] -> trimmed (clean_ocr_text text_content) = true).
Proof.
  unfold clean_ocr_text. split.
  - apply strip_forallb. unfold Uni.lstrip_chars. apply lstrip_with_forallb.
    apply join_single_line; [reflexivity |].
    apply Forall_filter_keep, splitlines_from_single_line. reflexivity.
  - apply strip_trimmed.
Qed.

Lemma ocr_text_shape (attempt : nat -> DriveAttempt) :
  single_line (fst (ocr_image_with_google_drive attempt)) = true /\
  (fst (ocr_image_with_google_drive attempt) <> [] ->
   trimmed (fst (ocr_image_with_google_drive attempt)) = true).
Proof.
  unfold ocr_image_with_google_drive.
  destruct (ocr_loop_slept OCR_MAX_RETRIES 0 attempt []) as (k & _ & _ & _ & Hres).
  destruct Hres as [[_ ->] | (_ & _ & ->)]; [split; [reflexivity | congruence] |].
  destruct (attempt (0 + k)%nat); try (split; [reflexivity | congruence]).
  apply clean_ocr_text_shape.
Qed.

Lemma img_name_parsed (fps : Q) (iv : SubtitleInterval) (name : string) :
  img_name fps iv = Ok name ->
  exists f1 f2, srt_times name = Ok (srt_form f1, srt_form f2).
Proof.
  unfold img_name. rewrite !frames_to_time_str_fields.
  destruct (time_fields (start_frame iv) fps) as [[[[h1 m1] s1] t1] | e1]; [| discriminate].
  destruct (time_fields (end_frame iv) fps) as [[[[h2 m2] s2] t2] | e2]; [| discriminate].
  intros [= <-]. exists (h1, m1, s1, t1), (h2, m2, s2, t2).
  change (srt_times (underscore_form (h1, m1, s1, t1) ++ "__"
                        ++ underscore_form (h2, m2, s2, t2) ++ ".png")%string
          = Ok (srt_form (h1, m1, s1, t1), srt_form (h2, m2, s2, t2))).
  rewrite !underscore_form_joined.
  rewrite srt_times_of_fields by apply format_0d_field. reflexivity.
Qed.

Lemma lit_app (s t : string) : Uni.lit (s ++ t)%string = Uni.lit s ++ Uni.lit t.
Proof.
  unfold Uni.lit. induction s as [| c s IH].
  - rewrite append_nil_l. reflexivity.
  - rewrite append_cons. cbn. f_equal. exact IH.
Qed.

Lemma field_char_not_linebreak (c : ascii) :
  field_char c = true -> Uni.islinebreak (N_of_ascii c) = false.
Proof.
  destruct c as [[] [] [] [] [] [] [] []]; intros H; try discriminate H; reflexivity.
Qed.

Lemma field_single_line (x : string) : is_field x -> single_line (Uni.lit x) = true.
Proof.
  intros [_ H]. unfold Uni.lit, single_line. induction x as [| c x IH]; [reflexivity |].
  cbn in H. apply andb_true_iff in H as [Hc Hx]. cbn.
  rewrite (field_char_not_linebreak _ Hc). exact (IH Hx).
Qed.

Lemma srt_form_single_line (fields : Z * Z * Z * Z) :
  single_line (Uni.lit (srt_form fields)) = true.
Proof.
  destruct fields as [[[h m] s] t]. unfold srt_form.
  rewrite !lit_app, !single_line_app.
  rewrite (field_single_line _ (format_0d_field 2 h)), (field_single_line _ (format_0d_field 2 m)),
    (field_single_line _ (format_0d_field 2 s)), (field_single_line _ (format_0d_field 3 t)).
  reflexivity.
Qed.

Lemma sorted_keys_lookup (m : gmap string (list N)) (k : string) :
  In k (sorted_keys m) -> is_Some (m !! k).
Proof.
  intros H. apply list_elem_of_In in H. unfold sorted_keys in H.
  rewrite merge_sort_Permutation in H.
  apply list_elem_of_fmap in H as ([k' v] & -> & H).
  apply elem_of_map_to_list in H. cbn. eauto.
Qed.

Lemma entries_of_keys (m : gmap string (list N)) (keys : list string) :
  (forall k, In k keys -> exists e t, stored m (k, e, t)) ->
  exists entries,
    map (fun entry => fst (fst entry)) entries = keys /\ Forall (stored m) entries.
Proof.
  induction keys as [| k keys IH]; intros H.
  - exists []. split; [reflexivity | constructor].
  - destruct (H k (or_introl eq_refl)) as (e & t & Hs).
    destruct IH as (entries & Hk & Hf); [intros k' Hk'; apply H; right; exact Hk' |].
    exists ((k, e, t) :: entries). split; [cbn; f_equal; exact Hk |].
    constructor; assumption.
Qed.

(** X23: however the OCR calls end, the subtitle file written for images
    the extractor has named is one the translator reads in full: the
    blocks [parse_srt] returns are, in the sorted order of the start stamps
    and numbered from 1, the blocks of the table, each with its time line
    and its text.  ASCII digits are digits, and no digit is white space. *)
Theorem pipeline_file_is_readable (unicode_digit : N -> bool) (fps : Q)
    (results : list (string * list N)) :
  (forall c, ascii_digit c = true -> unicode_digit c = true) ->
  (forall c, unicode_digit c = true -> Uni.isspace c = false) ->
  Forall (pipeline_result fps) results ->
  exists entries,
    map (fun entry => fst (fst entry)) entries = sorted_keys (collect_blocks results)
    /\ Forall (stored (collect_blocks results)) entries
    /\ parse_srt unicode_digit (srt_file (collect_blocks results))
       = numbered_from 1 entries.
Proof.
  intros Ha Hs Hr.
  destruct (entries_of_keys (collect_blocks results) (sorted_keys (collect_blocks results)))
    as (entries & Hk & Hf).
  { intros k Hk. destruct (sorted_keys_lookup _ _ Hk) as [v Hv].
    pose proof Hv as Hv'. unfold collect_blocks in Hv'.
    destruct (fold_add_lookup _ _ _ _ Hv') as [He | (name & text & e & Hin & Hne & Ht & ->)].
    { rewrite lookup_empty in He. discriminate. }
    rewrite List.Forall_forall in Hr. destruct (Hr _ Hin) as [[iv Hiv] [attempt Hat]].
    cbn [fst snd] in Hiv, Hat.
    destruct (img_name_parsed _ _ _ Hiv) as (f1 & f2 & Hp).
    rewrite Hp in Ht. injection Ht as <- <-.
    destruct (ocr_text_shape attempt) as [H1 H2]. rewrite <- Hat in H1, H2.
    exists (srt_form f2), text. unfold stored.
    split; [exact Hv |]. split; [apply srt_form_single_line |].
    split; [apply srt_form_single_line |]. split; [exact H1 | exact (H2 Hne)]. }
  exists entries. split; [exact Hk |]. split; [exact Hf |].
  unfold srt_file. rewrite <- Hk.
  destruct entries as [| entry rest]; [reflexivity |].
  change (parse_srt unicode_digit
            (Some (numbered_blocks (collect_blocks results) 1
                     (map (fun entry => fst (fst entry)) (entry :: rest))))
          = numbered_from 1 (entry :: rest)).
  rewrite (numbered_blocks_entries _ _ _ Hf).
  apply blocks_parse_back; [exact Hs |]. exact (numbered_from_writable _ _ _ Ha _ Hf).
Qed.

(** ASCII digits are not white space. *)
Lemma ascii_digit_not_space (c : N) : ascii_digit c = true -> Uni.isspace c = false.
Proof.
  unfold ascii_digit. intros H. apply andb_true_iff in H as [H1 H2].
  apply N.leb_le in H1, H2.
  assert (c = 48 \/ c = 49 \/ c = 50 \/ c = 51 \/ c = 52 \/ c = 53 \/ c = 54
          \/ c = 55 \/ c = 56 \/ c = 57)%N as Hc by lia.
  destruct Hc as [-> | [-> | [-> | [-> | [-> | [-> | [-> | [-> | [-> | ->]]]]]]]]];
    reflexivity.
Qed.

Local Open Scope string_scope.
Local Open Scope Z_scope.

(** * The further properties on sample inputs *)

Lemma quiet_scene_writes_nothing_sample :
  process_scene sample_rect 50 (inject_Z 25)
    {| cap_frames := still_video; cap_pos := 0 |} (0, 10) = [].
Proof.
  apply (quiet_scene_writes_nothing sample_rect 50%Q (inject_Z 25)
           {| cap_frames := still_video; cap_pos := 0 |} 0 10); [lia |].
  intros k Hk _ Habove. cbn [cap_frames] in Habove.
  rewrite (quiet_on sample_rect still_video 50%Q 1 10) in Habove;
    [discriminate | vm_compute; reflexivity | lia].
Defined.


Lemma other_files_untouched_sample :
  existing_files
    (snd (fst (main (fun _ => None) one_scene (Some sample_rect) 12 50 sample_world)))
    !! "notes.txt"
  = existing_files sample_world !! "notes.txt".
Proof.
  apply (other_files_untouched (fun _ => None) one_scene (Some sample_rect) 12%Q 50%Q
           sample_world "notes.txt").
  reflexivity.
Defined.

Lemma finished_run_contents_sample :
  exists video crop_rect,
    video_file sample_world = Some video /\
    resolved_region (fun _ => None) (Some sample_rect) sample_world = Some crop_rect /\
    let fps := video_fps video in
    let ivs := all_intervals crop_rect 50 fps (video_frames video) (one_scene video 12) in
    let folder :=
      existing_files
        (snd (fst (main (fun _ => None) one_scene (Some sample_rect) 12 50 sample_world))) in
    1 = Z.of_nat (List.length ivs) /\
    (forall name img,
        folder !! name = Some img -> Py.endswith name ".png" = true ->
        exists iv, In iv ivs /\ img_name fps iv = Ok name /\ representative_image iv = img) /\
    (forall iv, In iv ivs ->
        exists name, img_name fps iv = Ok name /\ is_Some (folder !! name)).
Proof.
  apply (finished_run_contents (fun _ => None) one_scene (Some sample_rect) 12%Q 50%Q
           sample_world 1).
  vm_compute. reflexivity.
Defined.


Lemma timestamp_open_pattern_sample : matches_open_pattern "100_00_00_000" = true.
Proof.
  apply (timestamp_open_pattern 360000 1%Q "100_00_00_000");
    [reflexivity | lia | vm_compute; reflexivity].
Defined.

Lemma name_without_separator_raises_sample : srt_times "frame.png" = Raise IndexError.
Proof. apply (name_without_separator_raises "frame.png"). reflexivity. Defined.

Lemma translation_retries_bounded_sample :
  exists k : nat,
    (k <= 5)%nat /\
    snd (translate_text_with_gemini (Uni.lit "first") (fun _ => GeminiRequestException))
      = Some (repeat 5 k) /\
    (forall j, (j < k)%nat -> GeminiRequestException = GeminiRequestException) /\
    ((k = 5%nat /\
      fst (translate_text_with_gemini (Uni.lit "first") (fun _ => GeminiRequestException))
        = Uni.lit "[[Translation Failed]]") \/
     ((k < 5)%nat /\ False)).
Proof.
  apply (translation_retries_bounded (Uni.lit "first") (fun _ => GeminiRequestException)).
  discriminate.
Defined.

Lemma blank_file_has_no_blocks_sample :
  parse_srt ascii_digit (Some [32; 13; 10; 9; 10]%N) = [].
Proof. apply (blank_file_has_no_blocks ascii_digit [32; 13; 10; 9; 10]%N). reflexivity. Defined.

Lemma translated_file_read_back_sample :
  parse_srt ascii_digit (Some (translated_file (fun _ => marked) 0 sample_subtitles))
    = translated (fun _ => marked) 0 sample_subtitles.
Proof.
  apply (translated_file_read_back ascii_digit (fun _ => marked) sample_subtitles
           ascii_digit_not_space).
  repeat constructor.
Defined.

Lemma translator_output_keeps_blocks_sample :
  parse_srt ascii_digit (translator_main ascii_digit (Some sample_file) sample_attempts)
    = translated (gemini sample_attempts) 0 (parse_srt ascii_digit (Some sample_file)).
Proof.
  apply (translator_output_keeps_blocks ascii_digit (Some sample_file) sample_attempts
           ascii_digit_not_space).
  vm_compute. repeat constructor.
Defined.

Lemma ocr_file_read_by_translator_sample :
  parse_srt ascii_digit (srt_file (collect_blocks sample_results))
    = numbered_from 1 sample_entries.
Proof.
  apply (ocr_file_read_by_translator ascii_digit (collect_blocks sample_results) sample_entries
           (fun c H => H) ascii_digit_not_space).
  - vm_compute. reflexivity.
  - repeat constructor; vm_compute; reflexivity.
Defined.

Lemma blocks_independent_of_completion_order_sample :
  collect_blocks sample_results = collect_blocks (rev sample_results).
Proof.
  apply (blocks_independent_of_completion_order sample_results (rev sample_results)).
  - apply perm_swap.
  - apply (bool_decide_unpack _). vm_compute. exact I.
Defined.

Lemma same_start_stamp_last_wins_sample :
  collect_blocks
    (("00_00_00_400__00_00_01_000.png", Uni.lit "first")
       :: sample_results ++ [("00_00_00_400__00_00_02_000.png", Uni.lit "other")])
  = collect_blocks
      (sample_results ++ [("00_00_00_400__00_00_02_000.png", Uni.lit "other")]).
Proof.
  apply (same_start_stamp_last_wins
           ("00_00_00_400__00_00_01_000.png", Uni.lit "first")
           ("00_00_00_400__00_00_02_000.png", Uni.lit "other")
           sample_results "00:00:00,400");
    reflexivity.
Defined.

Lemma launcher_paths_share_base_sample :
  Py.splitext "/videos/ep.01.srt" = ("/videos/ep.01", ".srt")
  /\ output_path "/videos/ep.01.srt" = "/videos/ep.01" ++ ".vi.srt"
  /\ "/videos/ep.01_sub_images" = fst (Py.splitext "/videos/ep.01.srt") ++ "_sub_images".
Proof.
  apply (launcher_paths_share_base "/videos/ep.01.mkv" "/videos/ep.01_sub_images"
           "/videos/ep.01.srt"); reflexivity.
Defined.

Lemma pipeline_file_is_readable_sample :
  exists entries,
    map (fun entry => fst (fst entry)) entries = sorted_keys (collect_blocks sample_results)
    /\ Forall (stored (collect_blocks sample_results)) entries
    /\ parse_srt ascii_digit (srt_file (collect_blocks sample_results))
       = numbered_from 1 entries.
Proof.
  apply (pipeline_file_is_readable ascii_digit (inject_Z 25) sample_results
           (fun c H => H) ascii_digit_not_space).
  repeat constructor.
  - exists {| start_frame := 50; end_frame := 75; representative_image := one_sample 1 |}.
    reflexivity.
  - exists (fun _ => DriveText (Uni.lit "second")). reflexivity.
  - exists {| start_frame := 10; end_frame := 25; representative_image := one_sample 1 |}.
    reflexivity.
  - exists (fun _ => DriveText (Uni.lit "first")). reflexivity.
Defined.
